(** * mini-redis: the frame codec, the dispatcher and the store of [main.py]

    A shallow embedding of [ProtocolHandler], [Server] and [Client] and the
    properties of the specification that can be settled on it.

    The source is Python 3: it converts explicitly between [bytes] and [str]
    ([.decode('utf-8')] on what it reads, [.encode('utf-8')] on what it
    writes) and tests [isinstance(data, bytes)].  The embedding follows the
    Python 3 meaning of every operation, in particular

    - ['%s' % data] for a [bytes] object formats its [repr] ([b'...']);
    - [BytesIO.write] raises [TypeError] when given a [str];
    - [str] and [bytes] are never equal.

    Conventions.
    - [bytes] is a list of 8-bit characters, [str] a list of code points.
    - The socket file is modelled by the list of bytes that are still to be
      read before the peer closes its side; a read on it never blocks.
    - Python integers are unbounded ([Z]).
    - The functions of [ProtocolHandler], [Server] and [Client] are given
      first as the program has them, without the limits of the interpreter
      that runs it: the recursion limit, the limit on the digits of a
      conversion between integers and text, and the size of a bytes object.
      The module [Limited] gives the codec and the session loop under these
      limits; the properties that depend on them are stated on it.
    - Case mapping and digit and white space classification of code points
      above U+007F come from the Unicode database, a parameter of the model
      ([UnicodeData]).
    - An exception is a value of [exn]; a computation returns an [outcome]. *)

From Stdlib Require Import Ascii String.
From Stdlib Require Import ZArith NArith List Bool Lia.
From Stdlib Require Import DecimalZ DecimalN DecimalPos DecimalFacts.
Import ListNotations.

Set Warnings "-register-all".

Local Open Scope Z_scope.

(** ** Bytes and text *)

Definition byte := ascii.
Definition bytes := list byte.
Definition codepoint := N.
Definition str := list codepoint.

(** Literals: [B "abc"] is [b'abc'], [T "abc"] is ['abc'] (ASCII only). *)
Definition B (s : string) : bytes := list_ascii_of_string s.
Definition T (s : string) : str := map N_of_ascii (list_ascii_of_string s).

Definition CR : byte := ascii_of_N 13.
Definition LF : byte := ascii_of_N 10.
Definition CRLF : bytes := [CR; LF].

Definition str_eqb (a b : str) : bool :=
  if list_eq_dec N.eq_dec a b then true else false.

(** ** Exceptions and outcomes *)

Inductive exn : Type :=
| Disconnect
| CommandError (message : str)
| TypeError
| ValueError
| AttributeError
| UnicodeDecodeError
| UnicodeEncodeError
| RecursionError
| OverflowError
| MemoryError.

(** [OutOfFuel] is not a Python outcome: it marks a recursion bound of the
    model that was too small (see [handle_request_fuel]). *)
Inductive outcome (A : Type) : Type :=
| Ok (a : A)
| Raise (e : exn)
| OutOfFuel.
Arguments Ok {A} a.
Arguments Raise {A} e.
Arguments OutOfFuel {A}.

Definition bind {A C} (m : outcome A) (k : A -> outcome C) : outcome C :=
  match m with
  | Ok a => k a
  | Raise e => Raise e
  | OutOfFuel => OutOfFuel
  end.

Notation "x <- m ;; k" := (bind m (fun x => k))
  (at level 61, m at next level, right associativity).
Notation "' p <- m ;; k" := (bind m (fun x => match x with p => k end))
  (at level 61, p pattern, m at next level, right associativity).

(** ** The Unicode database *)

Class UnicodeData : Type := {
  (** full upper-case mapping of a code point above U+007F *)
  uni_upper : codepoint -> list codepoint;
  (** white space property of a code point above U+007F *)
  uni_isspace : codepoint -> bool;
  (** decimal digit value of a code point above U+007F *)
  uni_decimal : codepoint -> option N
}.

(** A database in which no code point above U+007F has a case mapping, is
    white space or is a digit; used to evaluate the model on ASCII inputs. *)
Definition ascii_only : UnicodeData :=
  {| uni_upper := fun c => [c];
     uni_isspace := fun _ => false;
     uni_decimal := fun _ => None |}.

(** ** UTF-8 *)

Definition continuation (b : N) : bool := ((128 <=? b) && (b <=? 191))%N.
Definition low6 (b : N) : N := (b - 128)%N.

(** [bytes.decode('utf-8')], strict: [None] stands for [UnicodeDecodeError]. *)
Fixpoint utf8_decode (bs : bytes) : option str :=
  match bs with
  | [] => Some []
  | a0 :: r0 =>
    let b0 := N_of_ascii a0 in
    if (b0 <? 128)%N then option_map (cons b0) (utf8_decode r0)
    else if ((194 <=? b0) && (b0 <=? 223))%N then
      match r0 with
      | a1 :: r1 =>
        let b1 := N_of_ascii a1 in
        if continuation b1
        then option_map (cons ((b0 - 192) * 64 + low6 b1)%N) (utf8_decode r1)
        else None
      | _ => None
      end
    else if ((224 <=? b0) && (b0 <=? 239))%N then
      match r0 with
      | a1 :: a2 :: r2 =>
        let b1 := N_of_ascii a1 in
        let b2 := N_of_ascii a2 in
        let lo := if (b0 =? 224)%N then 160%N else 128%N in
        let hi := if (b0 =? 237)%N then 159%N else 191%N in
        if ((lo <=? b1) && (b1 <=? hi) && continuation b2)%N
        then option_map
               (cons ((b0 - 224) * 4096 + low6 b1 * 64 + low6 b2)%N)
               (utf8_decode r2)
        else None
      | _ => None
      end
    else if ((240 <=? b0) && (b0 <=? 244))%N then
      match r0 with
      | a1 :: a2 :: a3 :: r3 =>
        let b1 := N_of_ascii a1 in
        let b2 := N_of_ascii a2 in
        let b3 := N_of_ascii a3 in
        let lo := if (b0 =? 240)%N then 144%N else 128%N in
        let hi := if (b0 =? 244)%N then 143%N else 191%N in
        if ((lo <=? b1) && (b1 <=? hi) && continuation b2 && continuation b3)%N
        then option_map
               (cons ((b0 - 240) * 262144 + low6 b1 * 4096
                      + low6 b2 * 64 + low6 b3)%N)
               (utf8_decode r3)
        else None
      | _ => None
      end
    else None
  end.

Definition is_surrogate (c : codepoint) : bool :=
  ((55296 <=? c) && (c <=? 57343))%N.

Definition utf8_encode_cp (c : codepoint) : option bytes :=
  if (c <? 128)%N then Some [ascii_of_N c]
  else if (c <? 2048)%N then
    Some [ascii_of_N (192 + c / 64); ascii_of_N (128 + c mod 64)]
  else if (c <? 65536)%N then
    if is_surrogate c then None
    else Some [ascii_of_N (224 + c / 4096);
               ascii_of_N (128 + (c / 64) mod 64);
               ascii_of_N (128 + c mod 64)]
  else if (c <? 1114112)%N then
    Some [ascii_of_N (240 + c / 262144);
          ascii_of_N (128 + (c / 4096) mod 64);
          ascii_of_N (128 + (c / 64) mod 64);
          ascii_of_N (128 + c mod 64)]
  else None.

(** [str.encode('utf-8')]: [None] stands for [UnicodeEncodeError]. *)
Fixpoint utf8_encode (s : str) : option bytes :=
  match s with
  | [] => Some []
  | c :: r =>
    match utf8_encode_cp c, utf8_encode r with
    | Some x, Some y => Some (x ++ y)
    | _, _ => None
    end
  end.

Definition decode_utf8 (bs : bytes) : outcome str :=
  match utf8_decode bs with
  | Some s => Ok s
  | None => Raise UnicodeDecodeError
  end.

Definition encode_utf8 (s : str) : outcome bytes :=
  match utf8_encode s with
  | Some b => Ok b
  | None => Raise UnicodeEncodeError
  end.

(** ** Text operations *)

Definition cp_CR : codepoint := 13%N.
Definition cp_LF : codepoint := 10%N.

(** [s.rstrip('\r\n')]: drops every trailing CR and LF character. *)
Fixpoint rstrip_crlf (s : str) : str :=
  match s with
  | [] => []
  | c :: r =>
    match rstrip_crlf r with
    | [] => if ((c =? cp_CR) || (c =? cp_LF))%N then [] else [c]
    | r' => c :: r'
    end
  end.

(** [str(n)] for an integer, as ['%s' % n] formats it. *)
Definition digit_cp (d : N) : codepoint := (48 + d)%N.

Fixpoint uint_str (d : Decimal.uint) : str :=
  match d with
  | Decimal.Nil => []
  | Decimal.D0 r => digit_cp 0 :: uint_str r
  | Decimal.D1 r => digit_cp 1 :: uint_str r
  | Decimal.D2 r => digit_cp 2 :: uint_str r
  | Decimal.D3 r => digit_cp 3 :: uint_str r
  | Decimal.D4 r => digit_cp 4 :: uint_str r
  | Decimal.D5 r => digit_cp 5 :: uint_str r
  | Decimal.D6 r => digit_cp 6 :: uint_str r
  | Decimal.D7 r => digit_cp 7 :: uint_str r
  | Decimal.D8 r => digit_cp 8 :: uint_str r
  | Decimal.D9 r => digit_cp 9 :: uint_str r
  end.

Definition cp_minus : codepoint := 45%N.
Definition cp_plus : codepoint := 43%N.
Definition cp_underscore : codepoint := 95%N.

Definition str_of_int (n : Z) : str :=
  match Z.to_int n with
  | Decimal.Pos d => uint_str d
  | Decimal.Neg d => cp_minus :: uint_str d
  end.

(** [repr(b)] of a bytes object, which is what ['%s' % b] formats. *)
Definition hex_digit (n : N) : codepoint :=
  if (n <? 10)%N then (48 + n)%N else (87 + n)%N.

Definition cp_squote : codepoint := 39%N.
Definition cp_dquote : codepoint := 34%N.
Definition cp_backslash : codepoint := 92%N.

Definition repr_byte (quote : codepoint) (a : byte) : str :=
  let c := N_of_ascii a in
  if ((c =? quote) || (c =? cp_backslash))%N then [cp_backslash; c]
  else if (c =? 9)%N then [cp_backslash; 116%N]
  else if (c =? 10)%N then [cp_backslash; 110%N]
  else if (c =? 13)%N then [cp_backslash; 114%N]
  else if ((c <? 32) || (127 <=? c))%N
       then [cp_backslash; 120%N; hex_digit (c / 16); hex_digit (c mod 16)]
  else [c].

Definition has_byte (c : codepoint) (b : bytes) : bool :=
  existsb (fun a => (N_of_ascii a =? c)%N) b.

Definition repr_bytes (b : bytes) : str :=
  let quote :=
    if has_byte cp_squote b && negb (has_byte cp_dquote b)
    then cp_dquote else cp_squote in
  98%N :: quote :: flat_map (repr_byte quote) b ++ [quote].

(** [bytes.upper()]: ASCII letters only. *)
Definition upper_byte (a : byte) : byte :=
  let c := N_of_ascii a in
  if ((97 <=? c) && (c <=? 122))%N then ascii_of_N (c - 32) else a.
Definition bytes_upper (b : bytes) : bytes := map upper_byte b.

Section Text.
Context {ucd : UnicodeData}.

(** [str.upper()] *)
Definition upper_cp (c : codepoint) : list codepoint :=
  if (c <? 128)%N
  then (if ((97 <=? c) && (c <=? 122))%N then [(c - 32)%N] else [c])
  else uni_upper c.
Definition str_upper (s : str) : str := flat_map upper_cp s.

(** [int(s)] for a [str]: code points above U+007F are first replaced by a
    space or by their ASCII digit, then the text is read as
    [space* sign? digit ('_'? digit)* space*]. *)
Definition to_ascii_cp (c : codepoint) : option codepoint :=
  if (c <? 128)%N then Some c
  else if uni_isspace c then Some 32%N
  else match uni_decimal c with
       | Some d => if (d <? 10)%N then Some (digit_cp d) else None
       | None => None
       end.

Fixpoint to_ascii_digits (s : str) : option str :=
  match s with
  | [] => Some []
  | c :: r =>
    match to_ascii_cp c, to_ascii_digits r with
    | Some c', Some r' => Some (c' :: r')
    | _, _ => None
    end
  end.

Definition is_space (c : codepoint) : bool :=
  ((c =? 32) || ((9 <=? c) && (c <=? 13)))%N.
Definition is_digit (c : codepoint) : bool :=
  ((48 <=? c) && (c <=? 57))%N.
Definition digit_val (c : codepoint) : Z := Z.of_N (c - 48).

Fixpoint skip_spaces (s : str) : str :=
  match s with
  | c :: r => if is_space c then skip_spaces r else s
  | [] => []
  end.

(** The digits that follow a digit: returns the value and what is left. *)
Fixpoint scan_digits (s : str) (acc : Z) : option (Z * str) :=
  match s with
  | [] => Some (acc, [])
  | c :: r =>
    if is_digit c then scan_digits r (10 * acc + digit_val c)
    else if (c =? cp_underscore)%N then
      match r with
      | d :: r' =>
        if is_digit d then scan_digits r' (10 * acc + digit_val d) else None
      | [] => None
      end
    else Some (acc, s)
  end.

Definition parse_int (s : str) : option Z :=
  let s := skip_spaces s in
  let '(neg, s) :=
    match s with
    | c :: r =>
      if (c =? cp_minus)%N then (true, r)
      else if (c =? cp_plus)%N then (false, r)
      else (false, s)
    | [] => (false, s)
    end in
  match s with
  | c :: r =>
    if is_digit c then
      match scan_digits r (digit_val c) with
      | Some (n, rest) =>
        match skip_spaces rest with
        | [] => Some (if neg then - n else n)
        | _ => None
        end
      | None => None
      end
    else None
  | [] => None
  end.

Definition py_int (s : str) : outcome Z :=
  match to_ascii_digits s with
  | Some s' =>
    match parse_int s' with
    | Some n => Ok n
    | None => Raise ValueError
    end
  | None => Raise ValueError
  end.

End Text.

(** ** Values *)

(** The Python objects the program handles: what the decoder yields ([None],
    [int], [str], [bytes], [list], [dict]) and what the server and the client
    build themselves (the [Error] named tuple, the tuple of arguments). *)
Inductive value : Type :=
| VNone
| VInt (n : Z)
| VStr (s : str)
| VBytes (b : bytes)
| VError (message : str)
| VList (items : list value)
| VTuple (items : list value)
| VDict (entries : list (value * value)).

(** *** Hashing and key equality

    A dictionary key must be hashable; lists and dictionaries are not.  Two
    hashable values are the same key when they are equal in Python's sense:
    [to_key] maps a value to a canonical form that identifies exactly the
    equal ones ([Error(m)] is a named tuple, equal to the tuple [(m,)]). *)
Inductive hkey : Type :=
| HNone
| HInt (n : Z)
| HStr (s : str)
| HBytes (b : bytes)
| HTuple (items : list hkey).

Fixpoint to_key (v : value) : option hkey :=
  match v with
  | VNone => Some HNone
  | VInt n => Some (HInt n)
  | VStr s => Some (HStr s)
  | VBytes b => Some (HBytes b)
  | VError m => Some (HTuple [HStr m])
  | VTuple items =>
    option_map HTuple
      ((fix keys (l : list value) : option (list hkey) :=
          match l with
          | [] => Some []
          | x :: r =>
            match to_key x, keys r with
            | Some a, Some b => Some (a :: b)
            | _, _ => None
            end
          end) items)
  | VList _ => None
  | VDict _ => None
  end.

Definition hashable (v : value) : bool :=
  match to_key v with Some _ => true | None => false end.

Definition hkey_eq_dec : forall a b : hkey, {a = b} + {a <> b}.
Proof.
  fix IH 1.
  intros a b; decide equality;
    try apply Z.eq_dec;
    try (apply list_eq_dec; first [apply N.eq_dec | apply ascii_dec | apply IH]).
Defined.

Definition key_eqb (a b : value) : bool :=
  match to_key a, to_key b with
  | Some x, Some y => if hkey_eq_dec x y then true else false
  | _, _ => false
  end.

(** *** Dictionaries

    A [dict] is the list of its entries in insertion order. *)
Definition dict := list (value * value).

Fixpoint dict_get (k : value) (d : dict) : option value :=
  match d with
  | [] => None
  | (k', v) :: r => if key_eqb k' k then Some v else dict_get k r
  end.

Definition dict_mem (k : value) (d : dict) : bool :=
  match dict_get k d with Some _ => true | None => false end.

(** [d[k] = v]: an existing entry keeps its place and its key object. *)
Fixpoint dict_set (k v : value) (d : dict) : dict :=
  match d with
  | [] => [(k, v)]
  | (k', v') :: r =>
    if key_eqb k' k then (k', v) :: r else (k', v') :: dict_set k v r
  end.

(** [del d[k]] *)
Definition dict_del (k : value) (d : dict) : dict :=
  filter (fun e => negb (key_eqb (fst e) k)) d.

(** [dict(pairs)], starting from [d]; an unhashable key raises [TypeError]. *)
Fixpoint dict_of_pairs (ps : list (value * value)) (d : dict) : outcome dict :=
  match ps with
  | [] => Ok d
  | (k, v) :: r =>
    if hashable k then dict_of_pairs r (dict_set k v d) else Raise TypeError
  end.

(** The dictionary operations the program uses; each hashes its key first. *)
Definition py_dict_get (d : dict) (k : value) : outcome value :=
  if hashable k
  then Ok (match dict_get k d with Some v => v | None => VNone end)
  else Raise TypeError.

Definition py_dict_contains (d : dict) (k : value) : outcome bool :=
  if hashable k then Ok (dict_mem k d) else Raise TypeError.

Definition py_dict_setitem (d : dict) (k v : value) : outcome dict :=
  if hashable k then Ok (dict_set k v d) else Raise TypeError.

(** [l[::2]] and [l[1::2]] *)
Fixpoint slice_even {A} (l : list A) : list A :=
  match l with
  | x :: _ :: r => x :: slice_even r
  | [x] => [x]
  | [] => []
  end.

Fixpoint slice_odd {A} (l : list A) : list A :=
  match l with
  | _ :: y :: r => y :: slice_odd r
  | _ => []
  end.

Definition zip {A C} (a : list A) (c : list C) : list (A * C) := combine a c.

(** ** The socket file *)

(** [socket_file.read(n)] on a buffered reader: up to [n] bytes, fewer only
    when the stream ends; everything when [n] is -1; [ValueError] below. *)
Definition read (n : Z) (sock : bytes) : outcome (bytes * bytes) :=
  if n <? -1 then Raise ValueError
  else if n =? -1 then Ok (sock, [])
  else Ok (firstn (Z.to_nat n) sock, skipn (Z.to_nat n) sock).

(** [socket_file.readline()]: up to and including the first LF, or to the
    end of the stream. *)
Fixpoint readline (sock : bytes) : bytes * bytes :=
  match sock with
  | [] => ([], [])
  | c :: r =>
    if Ascii.eqb c LF then ([c], r)
    else let '(l, r') := readline r in (c :: l, r')
  end.

(** [b[:-2]] *)
Definition drop_last2 (b : bytes) : bytes := firstn (length b - 2)%nat b.

(** ** ProtocolHandler: decoding *)

Section Codec.
Context {ucd : UnicodeData}.

(** [socket_file.readline().decode('utf-8').rstrip('\r\n')] *)
Definition read_text_line (sock : bytes) : outcome (str * bytes) :=
  let '(line, rest) := readline sock in
  s <- decode_utf8 line ;;
  Ok (rstrip_crlf s, rest).

Definition handle_simple_string (sock : bytes) : outcome (value * bytes) :=
  '(s, rest) <- read_text_line sock ;;
  Ok (VStr s, rest).

Definition handle_error_message (sock : bytes) : outcome (value * bytes) :=
  '(s, rest) <- read_text_line sock ;;
  Ok (VStr s, rest).

Definition handle_integer (sock : bytes) : outcome (value * bytes) :=
  '(s, rest) <- read_text_line sock ;;
  n <- py_int s ;;
  Ok (VInt n, rest).

Definition handle_binary (sock : bytes) : outcome (value * bytes) :=
  '(s, rest) <- read_text_line sock ;;
  number_of_bytes <- py_int s ;;
  if number_of_bytes =? -1 then Ok (VNone, rest)
  else
    let number_of_bytes := number_of_bytes + 2 in
    '(data, rest') <- read number_of_bytes rest ;;
    Ok (VBytes (drop_last2 data), rest').

(** [[self.handle_request(socket_file) for _ in range(n)]] *)
Fixpoint read_frames (request : bytes -> outcome (value * bytes))
         (n : nat) (sock : bytes) : outcome (list value * bytes) :=
  match n with
  | O => Ok ([], sock)
  | S n' =>
    '(v, sock') <- request sock ;;
    '(vs, sock'') <- read_frames request n' sock' ;;
    Ok (v :: vs, sock'')
  end.

Definition handle_array (request : bytes -> outcome (value * bytes))
           (sock : bytes) : outcome (value * bytes) :=
  '(s, rest) <- read_text_line sock ;;
  number_of_elements <- py_int s ;;
  '(elements, rest') <- read_frames request (Z.to_nat number_of_elements) rest ;;
  Ok (VList elements, rest').

Definition handle_dictionary (request : bytes -> outcome (value * bytes))
           (sock : bytes) : outcome (value * bytes) :=
  '(s, rest) <- read_text_line sock ;;
  number_of_elements <- py_int s ;;
  '(elements, rest') <-
     read_frames request (Z.to_nat (number_of_elements * 2)) rest ;;
  d <- dict_of_pairs (zip (slice_even elements) (slice_odd elements)) [] ;;
  Ok (VDict d, rest').

(** [handle_request]: one frame.  The recursion bound [fuel] is the nesting
    depth the call may descend; [decode] supplies one that always suffices. *)
Fixpoint handle_request (fuel : nat) (sock : bytes) : outcome (value * bytes) :=
  match fuel with
  | O => OutOfFuel
  | S fuel' =>
    match sock with
    | [] => Raise Disconnect
    | first_byte :: sock' =>
      tag <- decode_utf8 [first_byte] ;;
      if str_eqb tag (T "+") then handle_simple_string sock'
      else if str_eqb tag (T "-") then handle_error_message sock'
      else if str_eqb tag (T ":") then handle_integer sock'
      else if str_eqb tag (T "$") then handle_binary sock'
      else if str_eqb tag (T "*") then handle_array (handle_request fuel') sock'
      else if str_eqb tag (T "%") then
        handle_dictionary (handle_request fuel') sock'
      else Raise (CommandError (T "bad request"))
    end
  end.

Definition decode (sock : bytes) : outcome (value * bytes) :=
  handle_request (S (length sock)) sock.

(** ** ProtocolHandler: encoding *)

Definition CRLF_text : str := [cp_CR; cp_LF].

(** [_write]: the bytes appended to the buffer, or the exception raised. *)
Fixpoint _write (data : value) : outcome bytes :=
  let write_bytes (b : bytes) :=
    encode_utf8 (T "$" ++ str_of_int (Z.of_nat (length b)) ++ CRLF_text
                 ++ repr_bytes b ++ CRLF_text) in
  match data with
  | VStr s => b <- encode_utf8 s ;; write_bytes b
  | VBytes b => write_bytes b
  | VInt n => encode_utf8 (T ":" ++ str_of_int n ++ CRLF_text)
  | VError message => encode_utf8 (T "-" ++ message ++ CRLF_text)
  | VList items | VTuple items =>
    h <- encode_utf8 (T "*" ++ str_of_int (Z.of_nat (length items)) ++ CRLF_text) ;;
    body <- (fix go (l : list value) : outcome bytes :=
               match l with
               | [] => Ok []
               | x :: r => a <- _write x ;; b <- go r ;; Ok (a ++ b)
               end) items ;;
    Ok (h ++ body)
  | VDict entries =>
    h <- encode_utf8 (T "%" ++ str_of_int (Z.of_nat (length entries)) ++ CRLF_text) ;;
    body <- (fix go (l : list (value * value)) : outcome bytes :=
               match l with
               | [] => Ok []
               | (k, v) :: r =>
                 a <- _write k ;; b <- _write v ;; c <- go r ;;
                 Ok (a ++ b ++ c)
               end) entries ;;
    Ok (h ++ body)
  | VNone => Raise TypeError
  end.

(** [write_response]: what is written to the socket file. *)
Definition write_response (data : value) : outcome bytes := _write data.

Definition encode (data : value) : outcome bytes := write_response data.

End Codec.

(** ** Server *)

Module Server.

(** A command handler: the positional arguments and the store [_kv] give a
    result or an exception, and the store afterwards. *)
Definition handler : Type := list value -> dict -> outcome value * dict.

Definition get (key : value) (_kv : dict) : outcome value * dict :=
  (py_dict_get _kv key, _kv).

Definition set (key val : value) (_kv : dict) : outcome value * dict :=
  match py_dict_setitem _kv key val with
  | Ok _kv' => (Ok (VInt 1), _kv')
  | Raise e => (Raise e, _kv)
  | OutOfFuel => (OutOfFuel, _kv)
  end.

Definition delete (key : value) (_kv : dict) : outcome value * dict :=
  match py_dict_contains _kv key with
  | Ok true => (Ok (VInt 1), dict_del key _kv)
  | Ok false => (Ok (VInt 0), _kv)
  | Raise e => (Raise e, _kv)
  | OutOfFuel => (OutOfFuel, _kv)
  end.

Definition flush (_kv : dict) : outcome value * dict :=
  let kvlen := Z.of_nat (length _kv) in
  (Ok (VInt kvlen), []).

(** [[self._kv.get(key) for key in keys]] *)
Fixpoint mget_results (keys : list value) (_kv : dict) : outcome (list value) :=
  match keys with
  | [] => Ok []
  | key :: keys' =>
    v <- py_dict_get _kv key ;;
    vs <- mget_results keys' _kv ;;
    Ok (v :: vs)
  end.

Definition mget (keys : list value) (_kv : dict) : outcome value * dict :=
  (vs <- mget_results keys _kv ;; Ok (VList vs), _kv).

(** [for key, value in data: self._kv[key] = value] *)
Fixpoint mset_loop (data : list (value * value)) (_kv : dict)
  : outcome unit * dict :=
  match data with
  | [] => (Ok tt, _kv)
  | (key, val) :: data' =>
    match py_dict_setitem _kv key val with
    | Ok _kv' => mset_loop data' _kv'
    | Raise e => (Raise e, _kv)
    | OutOfFuel => (OutOfFuel, _kv)
    end
  end.

Definition mset (items : list value) (_kv : dict) : outcome value * dict :=
  let data := zip (slice_even items) (slice_odd items) in
  match mset_loop data _kv with
  | (Ok _, _kv') => (Ok (VInt 1), _kv')
  | (Raise e, _kv') => (Raise e, _kv')
  | (OutOfFuel, _kv') => (OutOfFuel, _kv')
  end.

(** Calling a method with the wrong number of positional arguments raises
    [TypeError]. *)
Definition call0 (f : dict -> outcome value * dict) : handler :=
  fun args _kv =>
    match args with
    | [] => f _kv
    | _ => (Raise TypeError, _kv)
    end.

Definition call1 (f : value -> dict -> outcome value * dict) : handler :=
  fun args _kv =>
    match args with
    | [a] => f a _kv
    | _ => (Raise TypeError, _kv)
    end.

Definition call2 (f : value -> value -> dict -> outcome value * dict) : handler :=
  fun args _kv =>
    match args with
    | [a; b] => f a b _kv
    | _ => (Raise TypeError, _kv)
    end.

Definition get_commands : list (str * handler) :=
  [ (T "GET", call1 get);
    (T "SET", call2 set);
    (T "FLUSH", call0 flush);
    (T "DELETE", call1 delete);
    (T "MGET", mget);
    (T "MSET", mset) ].

Fixpoint lookup (c : str) (table : list (str * handler)) : option handler :=
  match table with
  | [] => None
  | (name, h) :: r => if str_eqb name c then Some h else lookup c r
  end.

(** [self._commands.get(command)]: a [bytes] name equals no key of the
    table, whose keys are [str]. *)
Definition find_command (command : str + bytes) : option handler :=
  match command with
  | inl c => lookup c get_commands
  | inr _ => None
  end.

(** ['%s' % command] *)
Definition format_s (command : str + bytes) : str :=
  match command with
  | inl c => c
  | inr b => repr_bytes b
  end.

(** [data.split()] raises [AttributeError] unless [data] is text or bytes. *)
Definition has_split (data : value) : bool :=
  match data with
  | VStr _ | VBytes _ => true
  | _ => false
  end.

Definition is_list (data : value) : bool :=
  match data with
  | VList _ => true
  | _ => false
  end.

(** [not data], for the values that reach the test *)
Definition is_empty (data : value) : bool :=
  match data with
  | VList [] | VStr [] | VBytes [] => true
  | _ => false
  end.

(** [data[0]] and the arguments [*data[1:]], for a non-empty list, text
    (its characters) or bytes (its integers). *)
Definition first_and_rest (data : value) : option (value * list value) :=
  match data with
  | VList (x :: r) => Some (x, r)
  | VStr (c :: r) => Some (VStr [c], map (fun x => VStr [x]) r)
  | VBytes (a :: r) =>
    Some (VInt (Z.of_N (N_of_ascii a)),
          map (fun x => VInt (Z.of_N (N_of_ascii x))) r)
  | _ => None
  end.

Section Dispatch.
Context {ucd : UnicodeData}.

(** [x.upper()] *)
Definition py_upper (x : value) : outcome (str + bytes) :=
  match x with
  | VStr s => Ok (inl (str_upper s))
  | VBytes b => Ok (inr (bytes_upper b))
  | _ => Raise AttributeError
  end.

Definition get_response (data : value) (_kv : dict) : outcome value * dict :=
  if negb (is_list data) && negb (has_split data) then
    (Raise (CommandError (T "Argument must be list or string")), _kv)
  else if is_empty data then
    (Raise (CommandError (T "No command provided")), _kv)
  else
    match first_and_rest data with
    | None => (Raise TypeError, _kv)
    | Some (first, args) =>
      match py_upper first with
      | Ok command =>
        match find_command command with
        | None =>
          (Raise (CommandError
                    (T "Command " ++ format_s command ++ T " does not exist")),
           _kv)
        | Some h => h args _kv
        end
      | Raise e => (Raise e, _kv)
      | OutOfFuel => (OutOfFuel, _kv)
      end
    end.

(** How a session ends: [Closed] when the loop is left by [break], [Crashed]
    when an exception leaves [connection_handler]; [Unfinished] marks a loop
    bound of the model that was too small. *)
Inductive session_end : Type :=
| Closed
| Crashed (e : exn)
| Unfinished.

(** [connection_handler]: how the session ends, the bytes written to the
    socket file, and the store afterwards. *)
Fixpoint connection_handler (fuel : nat) (sock : bytes) (_kv : dict)
  : session_end * bytes * dict :=
  match fuel with
  | O => (Unfinished, [], _kv)
  | S fuel' =>
    match decode sock with
    | Raise Disconnect => (Closed, [], _kv)
    | Raise e => (Crashed e, [], _kv)
    | OutOfFuel => (Unfinished, [], _kv)
    | Ok (data, sock') =>
      let '(r, _kv') := get_response data _kv in
      let resp :=
        match r with
        | Raise (CommandError message) => Ok (VError message)
        | _ => r
        end in
      match resp with
      | Ok resp =>
        match write_response resp with
        | Ok out =>
          let '(e, outs, _kv'') := connection_handler fuel' sock' _kv' in
          (e, out ++ outs, _kv'')
        | Raise e => (Crashed e, [], _kv')
        | OutOfFuel => (Unfinished, [], _kv')
        end
      | Raise e => (Crashed e, [], _kv')
      | OutOfFuel => (Unfinished, [], _kv')
      end
    end
  end.

(** A whole session on the bytes the peer sends before it closes. *)
Definition session (sock : bytes) (_kv : dict) : session_end * bytes * dict :=
  connection_handler (S (length sock)) sock _kv.

End Dispatch.

End Server.

(** ** Client *)

Module Client.

Section Execute.
Context {ucd : UnicodeData}.

(** [execute], called with the arguments [args], on a connection whose peer will send [sock]: the bytes
    sent, and the result with what is left to read. *)
Definition execute (args : list value) (sock : bytes)
  : bytes * outcome (value * bytes) :=
  match write_response (VTuple args) with
  | Ok request =>
    (request,
     '(resp, rest) <- decode sock ;;
     match resp with
     | VError message => Raise (CommandError message)
     | _ => Ok (resp, rest)
     end)
  | Raise e => ([], Raise e)
  | OutOfFuel => ([], OutOfFuel)
  end.

(** The commands of the client: each is a call of [execute] with the name
    of the command before the arguments. *)
Definition get (key : value) (sock : bytes) : bytes * outcome (value * bytes) :=
  execute [VStr (T "GET"); key] sock.

Definition set (key val : value) (sock : bytes) : bytes * outcome (value * bytes) :=
  execute [VStr (T "SET"); key; val] sock.

Definition delete (key : value) (sock : bytes) : bytes * outcome (value * bytes) :=
  execute [VStr (T "DELETE"); key] sock.

Definition flush (sock : bytes) : bytes * outcome (value * bytes) :=
  execute [VStr (T "FLUSH")] sock.

Definition mget (keys : list value) (sock : bytes) : bytes * outcome (value * bytes) :=
  execute (VStr (T "MGET") :: keys) sock.

Definition mset (items : list value) (sock : bytes) : bytes * outcome (value * bytes) :=
  execute (VStr (T "MSET") :: items) sock.

End Execute.

End Client.

(** ** The limits of the interpreter

    The definitions above follow the program alone.  The interpreter that
    runs it sets three limits, and the program reaches each of them on input
    a peer can send.  [Limited] holds the functions they bear on, as CPython
    3.11 on a 64-bit platform runs them; the others are as above.

    - The recursion limit.  [handle_request] calls itself through
      [handle_array] or [handle_dictionary] and the list comprehension of
      that handler, once for every level of nesting, and [_write] calls
      itself directly, once for every level.  [depth] is the number of
      levels the recursion limit leaves room for when the function is
      called: a call with room for none raises [RecursionError].  (Under
      the default limit of a thousand frames that is some 330 levels for
      [handle_request], which takes three frames a level.)
    - The limit on the conversion between integers and text.  [int(s)] and
      ['%s' % n] raise [ValueError] for more than [max_str_digits] decimal
      digits.
    - The size of a bytes object.  [read(n)] converts [n] to a [Py_ssize_t]
      and, when the buffer holds fewer than [n] bytes, allocates [n] bytes
      before it reads: it raises [OverflowError] when [n] does not fit or is
      more than a bytes object can hold, and [MemoryError] when the
      allocation fails; [read(-1)] allocates what is left of the stream.
      [alloc_max] is the size of the largest bytes object the interpreter
      can allocate at the time of the call.

    What the decoder returns under the limits it returns without them
    ([limited_request_ok]): the limits add exceptions, they change no
    result. *)

Module Limited.

(** [sys.int_info.default_max_str_digits] *)
Definition max_str_digits : nat := 4300.

(** [sys.maxsize], the largest [Py_ssize_t] *)
Definition ssize_max : Z := 2 ^ 63 - 1.

(** The largest size of a bytes object: [sys.maxsize] less its header. *)
Definition bytes_max : Z := ssize_max - 33.

(** The number of decimal digits in a text. *)
Definition digits (s : str) : nat := length (filter is_digit s).

(** ['%s' % n] for an integer *)
Definition format_int (n : Z) : outcome str :=
  if (max_str_digits <? digits (str_of_int n))%nat then Raise ValueError
  else Ok (str_of_int n).

(** [socket_file.read(n)] *)
Definition read (alloc_max : Z) (n : Z) (sock : bytes) : outcome (bytes * bytes) :=
  if (n <? - ssize_max - 1) || (ssize_max <? n) then Raise OverflowError
  else if n <? -1 then Raise ValueError
  else if n =? -1 then
    if alloc_max <? Z.of_nat (length sock) then Raise MemoryError
    else Ok (sock, [])
  else if bytes_max <? n then Raise OverflowError
  else if alloc_max <? n then Raise MemoryError
  else Ok (firstn (Z.to_nat n) sock, skipn (Z.to_nat n) sock).

Section Codec.
Context {ucd : UnicodeData}.
Variable alloc_max : Z.

(** [int(s)] for a [str]: the digits are counted before they are read. *)
Definition py_int (s : str) : outcome Z :=
  match to_ascii_digits s with
  | Some s' =>
    if (max_str_digits <? digits s')%nat then Raise ValueError else py_int s
  | None => Raise ValueError
  end.

Definition handle_integer (sock : bytes) : outcome (value * bytes) :=
  '(s, rest) <- read_text_line sock ;;
  n <- py_int s ;;
  Ok (VInt n, rest).

Definition handle_binary (sock : bytes) : outcome (value * bytes) :=
  '(s, rest) <- read_text_line sock ;;
  number_of_bytes <- py_int s ;;
  if number_of_bytes =? -1 then Ok (VNone, rest)
  else
    let number_of_bytes := number_of_bytes + 2 in
    '(data, rest') <- read alloc_max number_of_bytes rest ;;
    Ok (VBytes (drop_last2 data), rest').

Definition handle_array (request : bytes -> outcome (value * bytes))
           (sock : bytes) : outcome (value * bytes) :=
  '(s, rest) <- read_text_line sock ;;
  number_of_elements <- py_int s ;;
  '(elements, rest') <- read_frames request (Z.to_nat number_of_elements) rest ;;
  Ok (VList elements, rest').

Definition handle_dictionary (request : bytes -> outcome (value * bytes))
           (sock : bytes) : outcome (value * bytes) :=
  '(s, rest) <- read_text_line sock ;;
  number_of_elements <- py_int s ;;
  '(elements, rest') <-
     read_frames request (Z.to_nat (number_of_elements * 2)) rest ;;
  d <- dict_of_pairs (zip (slice_even elements) (slice_odd elements)) [] ;;
  Ok (VDict d, rest').

(** [handle_request], called when the recursion limit leaves room for
    [depth] levels of it. *)
Fixpoint handle_request (depth : nat) (sock : bytes) : outcome (value * bytes) :=
  match depth with
  | O => Raise RecursionError
  | S depth' =>
    match sock with
    | [] => Raise Disconnect
    | first_byte :: sock' =>
      tag <- decode_utf8 [first_byte] ;;
      if str_eqb tag (T "+") then handle_simple_string sock'
      else if str_eqb tag (T "-") then handle_error_message sock'
      else if str_eqb tag (T ":") then handle_integer sock'
      else if str_eqb tag (T "$") then handle_binary sock'
      else if str_eqb tag (T "*") then handle_array (handle_request depth') sock'
      else if str_eqb tag (T "%") then
        handle_dictionary (handle_request depth') sock'
      else Raise (CommandError (T "bad request"))
    end
  end.

(** [_write], called when the recursion limit leaves room for [depth]
    levels of it. *)
Fixpoint _write (depth : nat) (data : value) : outcome bytes :=
  match depth with
  | O => Raise RecursionError
  | S depth' =>
    let write_bytes (b : bytes) :=
      n <- format_int (Z.of_nat (length b)) ;;
      encode_utf8 (T "$" ++ n ++ CRLF_text ++ repr_bytes b ++ CRLF_text) in
    match data with
    | VStr s => b <- encode_utf8 s ;; write_bytes b
    | VBytes b => write_bytes b
    | VInt n => s <- format_int n ;; encode_utf8 (T ":" ++ s ++ CRLF_text)
    | VError message => encode_utf8 (T "-" ++ message ++ CRLF_text)
    | VList items | VTuple items =>
      n <- format_int (Z.of_nat (length items)) ;;
      h <- encode_utf8 (T "*" ++ n ++ CRLF_text) ;;
      body <- (fix go (l : list value) : outcome bytes :=
                 match l with
                 | [] => Ok []
                 | x :: r => a <- _write depth' x ;; b <- go r ;; Ok (a ++ b)
                 end) items ;;
      Ok (h ++ body)
    | VDict entries =>
      n <- format_int (Z.of_nat (length entries)) ;;
      h <- encode_utf8 (T "%" ++ n ++ CRLF_text) ;;
      body <- (fix go (l : list (value * value)) : outcome bytes :=
                 match l with
                 | [] => Ok []
                 | (k, v) :: r =>
                   a <- _write depth' k ;; b <- _write depth' v ;; c <- go r ;;
                   Ok (a ++ b ++ c)
                 end) entries ;;
      Ok (h ++ body)
    | VNone => Raise TypeError
    end
  end.

Definition write_response (depth : nat) (data : value) : outcome bytes :=
  _write depth data.

End Codec.

(** The limits in force during a session. *)
Record limits : Type := {
  (** levels of [handle_request] the recursion limit leaves room for *)
  read_depth : nat;
  (** levels of [_write] the recursion limit leaves room for *)
  write_depth : nat;
  (** size of the largest bytes object that can be allocated *)
  alloc_max : Z
}.

Section Session.
Context {ucd : UnicodeData}.
Variable L : limits.

(** [connection_handler]: nothing in it catches [RecursionError],
    [OverflowError] or [MemoryError]. *)
Fixpoint connection_handler (fuel : nat) (sock : bytes) (_kv : dict)
  : Server.session_end * bytes * dict :=
  match fuel with
  | O => (Server.Unfinished, [], _kv)
  | S fuel' =>
    match handle_request (alloc_max L) (read_depth L) sock with
    | Raise Disconnect => (Server.Closed, [], _kv)
    | Raise e => (Server.Crashed e, [], _kv)
    | OutOfFuel => (Server.Unfinished, [], _kv)
    | Ok (data, sock') =>
      let '(r, _kv') := Server.get_response data _kv in
      let resp :=
        match r with
        | Raise (CommandError message) => Ok (VError message)
        | _ => r
        end in
      match resp with
      | Ok resp =>
        match write_response (write_depth L) resp with
        | Ok out =>
          let '(e, outs, _kv'') := connection_handler fuel' sock' _kv' in
          (e, out ++ outs, _kv'')
        | Raise e => (Server.Crashed e, [], _kv')
        | OutOfFuel => (Server.Unfinished, [], _kv')
        end
      | Raise e => (Server.Crashed e, [], _kv')
      | OutOfFuel => (Server.Unfinished, [], _kv')
      end
    end
  end.

(** A whole session on the bytes the peer sends before it closes. *)
Definition session (sock : bytes) (_kv : dict) : Server.session_end * bytes * dict :=
  connection_handler (S (length sock)) sock _kv.

End Session.

End Limited.

(** * Vocabulary of the properties *)

Import Server.

(** ** The store *)

(** A list of entries represents a dictionary when its keys are hashable and
    pairwise different; the operations of the model keep it so. *)
Fixpoint dict_wf (d : dict) : bool :=
  match d with
  | [] => true
  | (k, _) :: r => hashable k && negb (dict_mem k r) && dict_wf r
  end.

(** The value [GET] answers for a key: the stored one, or [None]. *)
Definition stored (k : value) (kv : dict) : value :=
  match dict_get k kv with Some v => v | None => VNone end.

(** The arguments of [MSET] taken two by two; a last unpaired one is left out. *)
Fixpoint pairs_of (items : list value) : list (value * value) :=
  match items with
  | k :: v :: r => (k, v) :: pairs_of r
  | _ => []
  end.

(** One [SET] after the other, in order. *)
Definition set_each (ps : list (value * value)) (kv : dict) : dict :=
  fold_left (fun kv p => snd (set (fst p) (snd p) kv)) ps kv.

(** ** The codec *)

(** The bodies of an array and of a map, as [_write] produces them. *)
Definition write_items : list value -> outcome bytes :=
  fix go (l : list value) : outcome bytes :=
    match l with
    | [] => Ok []
    | x :: r => a <- _write x ;; b <- go r ;; Ok (a ++ b)
    end.

Definition write_entries : list (value * value) -> outcome bytes :=
  fix go (l : list (value * value)) : outcome bytes :=
    match l with
    | [] => Ok []
    | (k, v) :: r =>
      a <- _write k ;; b <- _write v ;; c <- go r ;; Ok (a ++ b ++ c)
    end.

(** An outcome that is a result, [TypeError] or [UnicodeEncodeError]. *)
Definition write_outcome {A} (o : outcome A) : Prop :=
  match o with
  | Ok _ => True
  | Raise e => e = TypeError \/ e = UnicodeEncodeError
  | OutOfFuel => False
  end.

(** Text that can stand on a line of its own: ASCII, without CR or LF. *)
Definition line_char (c : codepoint) : bool :=
  ((c <? 128) && negb (c =? cp_CR) && negb (c =? cp_LF))%N.
Definition line_text (s : str) : Prop := forallb line_char s = true.

(** The bytes of an ASCII text. *)
Definition ascii_bytes (s : str) : bytes := map ascii_of_N s.

(** The line that carries the integer [n]: its digits, then CR LF. *)
Definition int_line (n : Z) : bytes := ascii_bytes (str_of_int n) ++ CRLF.

(** The value of a sequence of digits read from the left. *)
Fixpoint uint_val (d : Decimal.uint) (acc : Z) : Z :=
  match d with
  | Decimal.Nil => acc
  | Decimal.D0 r => uint_val r (10 * acc + 0)
  | Decimal.D1 r => uint_val r (10 * acc + 1)
  | Decimal.D2 r => uint_val r (10 * acc + 2)
  | Decimal.D3 r => uint_val r (10 * acc + 3)
  | Decimal.D4 r => uint_val r (10 * acc + 4)
  | Decimal.D5 r => uint_val r (10 * acc + 5)
  | Decimal.D6 r => uint_val r (10 * acc + 6)
  | Decimal.D7 r => uint_val r (10 * acc + 7)
  | Decimal.D8 r => uint_val r (10 * acc + 8)
  | Decimal.D9 r => uint_val r (10 * acc + 9)
  end.

(** The values whose kind the encoder keeps and writes as the decoder reads
    it: an integer, a list of such values, a dictionary from integers to such
    values. *)
Fixpoint int_tree (v : value) : bool :=
  match v with
  | VInt _ => true
  | VList l => forallb int_tree l
  | VDict d =>
    dict_wf d
    && (fix all (d : list (value * value)) : bool :=
          match d with
          | [] => true
          | (k, x) :: r =>
            match k with VInt _ => true | _ => false end && int_tree x && all r
          end) d
  | _ => false
  end.

(** The frames of a dictionary, in the order they are written. *)
Definition entry_frames (d : list (value * value)) : list value :=
  flat_map (fun e => [fst e; snd e]) d.

(** A scalar value: a code point that is not a surrogate.  Decoding UTF-8
    yields nothing else, and nothing else fails to encode. *)
Definition is_scalar (c : codepoint) : bool :=
  ((c <? 1114112) && negb (is_surrogate c))%N.
Definition scalar_text (s : str) : bool := forallb is_scalar s.

(** Every text inside a value, lists included, is made of scalar values. *)
Fixpoint text_ok (v : value) : bool :=
  match v with
  | VStr s => scalar_text s
  | VList l => forallb text_ok l
  | _ => true
  end.

Section Vocabulary.
Context {ucd : UnicodeData}.

(** The upper-case mapping of the database stays within scalar values. *)
Definition upper_scalar : Prop :=
  forall c, is_scalar c = true -> scalar_text (uni_upper c) = true.

End Vocabulary.

(** ** The session loop *)

(** The session that wrote [reply] and then went on as [r]. *)
Definition after_reply (reply : bytes) (r : session_end * bytes * dict)
  : session_end * bytes * dict :=
  let '(e, out, kv) := r in (e, reply ++ out, kv).

(** The only [CommandError] the decoder raises is the one for a bad tag. *)
Definition decoder_exn (e : exn) : Prop :=
  forall m, e = CommandError m -> m = T "bad request".

(** How a session can end. *)
Definition session_end_ok (e : session_end) : Prop :=
  e <> Unfinished
  /\ forall m, e = Crashed (CommandError m) -> m = T "bad request".

(** ** Frames and decoded values *)

(** The six tags of the protocol. *)
Definition tags : bytes := B "+-:$*%".

(** Frames as a peer writes them. *)
Definition simple_frame (s : str) : bytes := "+"%char :: ascii_bytes s ++ CRLF.
Definition int_frame (n : Z) : bytes := ":"%char :: int_line n.
Definition bulk_frame (p : bytes) : bytes :=
  "$"%char :: int_line (Z.of_nat (length p)) ++ p ++ CRLF.
Definition array_frame (elements : list bytes) : bytes :=
  "*"%char :: int_line (Z.of_nat (length elements)) ++ concat elements.

(** The reply that carries the message of a [CommandError]. *)
Definition error_reply (m : str) : bytes := "-"%char :: ascii_bytes m ++ CRLF.

(** The message for a command that is not in the table. *)
Definition unknown_command (command : str) : str :=
  T "Command " ++ command ++ T " does not exist".

(** What the decoder can yield: no [Error] and no tuple, texts made of scalar
    values, dictionaries with hashable and different keys. *)
Fixpoint decoded_ok (v : value) : bool :=
  match v with
  | VNone | VInt _ | VBytes _ => true
  | VStr s => scalar_text s
  | VList l => forallb decoded_ok l
  | VDict d =>
    dict_wf d
    && (fix all (d : list (value * value)) : bool :=
          match d with
          | [] => true
          | (k, x) :: r => decoded_ok k && decoded_ok x && all r
          end) d
  | VError _ | VTuple _ => false
  end.

Definition entry_ok (e : value * value) : bool :=
  decoded_ok (fst e) && decoded_ok (snd e).

(** A store whose keys and values are such values. *)
Definition store_ok (kv : dict) : bool := decoded_ok (VDict kv).

(** A value that is or contains [None]. *)
Fixpoint has_none (v : value) : bool :=
  match v with
  | VNone => true
  | VList l | VTuple l => existsb has_none l
  | VDict d =>
    (fix any (d : list (value * value)) : bool :=
       match d with
       | [] => false
       | (k, x) :: r => has_none k || has_none x || any r
       end) d
  | _ => false
  end.

(** The outcome of writing a value that the decoder can yield. *)
Definition written (v : value) : Prop :=
  if has_none v then _write v = Raise TypeError
  else exists bs, _write v = Ok bs.

(** ** The client and the server *)

(** Text that [repr] writes as it is: printable ASCII without quote or
    backslash. *)
Definition plain_char (c : codepoint) : bool :=
  ((32 <=? c) && (c <=? 126) && negb (c =? cp_squote) && negb (c =? cp_backslash))%N.
Definition plain_text (s : str) : bool := forallb plain_char s.

(** What the server reads as the name of a command that the client wrote
    as the text [name]: the first bytes of [b'name'], as many as the name is
    long. *)
Definition name_read (name : str) : bytes :=
  drop_last2 (ascii_bytes (T "b'" ++ name)).

(** The frame [_write] makes of the text [name]: the length of the name,
    then the text [b'name']. *)
Definition client_name_frame (name : str) : bytes :=
  "$"%char :: int_line (Z.of_nat (length name))
  ++ ascii_bytes (T "b'" ++ name) ++ "'"%char :: CRLF.

(** The request [execute] writes for a command without arguments. *)
Definition client_request (name : str) : bytes :=
  "*"%char :: int_line 1 ++ client_name_frame name.

Section ExchangeVocabulary.
Context {ucd : UnicodeData}.

(** [bs] is a frame of [v]: read at the head of any stream, with a
    recursion bound that covers it, it yields [v] and leaves what follows. *)
Definition frame_of (v : value) (bs : bytes) : Prop :=
  forall fuel rest,
    (length bs <= fuel)%nat -> handle_request fuel (bs ++ rest) = Ok (v, rest).

(** One call of a client command on a connection to a server whose store is
    [kv].  The call writes its request and then reads; the server reads the
    request in a session of its own, and the session ends when its handler
    returns or raises, which closes the connection.  So what the call sends
    is the whole input of the session, and what the session wrote is the
    whole stream the call reads.  The result of the call and the store
    afterwards. *)
Definition against_server
           (call : bytes -> bytes * outcome (value * bytes)) (kv : dict)
  : outcome (value * bytes) * dict :=
  let request := fst (call []) in
  let '(_, reply, kv') := session request kv in
  (snd (call reply), kv').

End ExchangeVocabulary.

(** ** The limits of the interpreter *)

(** An integer that is written with at most [max_str_digits] digits. *)
Definition fits (n : Z) : bool :=
  (Limited.digits (str_of_int n) <=? Limited.max_str_digits)%nat.

(** A number of bytes that [read] can be asked for. *)
Definition readable (alloc_max n : Z) : bool :=
  (0 <=? n) && (n <=? alloc_max) && (n <=? Limited.bytes_max).

(** The nested calls that reading or writing a value takes: one for the
    value, and those of its deepest element. *)
Fixpoint levels (v : value) : nat :=
  match v with
  | VList l | VTuple l =>
    S ((fix deepest (l : list value) : nat :=
          match l with
          | [] => O
          | x :: r => Nat.max (levels x) (deepest r)
          end) l)
  | VDict d =>
    S ((fix deepest (d : list (value * value)) : nat :=
          match d with
          | [] => O
          | (k, x) :: r => Nat.max (levels k) (Nat.max (levels x) (deepest r))
          end) d)
  | _ => 1%nat
  end.

(** Every integer in a value, and the length of every list and map in it,
    is written with at most [max_str_digits] digits. *)
Fixpoint fits_value (v : value) : bool :=
  match v with
  | VInt n => fits n
  | VList l | VTuple l => fits (Z.of_nat (length l)) && forallb fits_value l
  | VDict d =>
    fits (Z.of_nat (length d))
    && (fix all (d : list (value * value)) : bool :=
          match d with
          | [] => true
          | (k, x) :: r => fits_value k && fits_value x && all r
          end) d
  | _ => true
  end.

(** The bodies of an array and of a map, as [Limited._write] produces
    them. *)
Definition write_items_at (depth : nat) : list value -> outcome bytes :=
  fix go (l : list value) : outcome bytes :=
    match l with
    | [] => Ok []
    | x :: r => a <- Limited._write depth x ;; b <- go r ;; Ok (a ++ b)
    end.

Definition write_entries_at (depth : nat) : list (value * value) -> outcome bytes :=
  fix go (l : list (value * value)) : outcome bytes :=
    match l with
    | [] => Ok []
    | (k, v) :: r =>
      a <- Limited._write depth k ;; b <- Limited._write depth v ;; c <- go r ;;
      Ok (a ++ b ++ c)
    end.


Section LimitVocabulary.
Context {ucd : UnicodeData}.

(** [bs] is a frame of [v] for a call of [handle_request] that has room for
    [depth] nested calls: read at the head of any stream, it yields [v] and
    leaves what follows. *)
Definition frame_at (alloc_max : Z) (depth : nat) (v : value) (bs : bytes) : Prop :=
  forall rest, Limited.handle_request alloc_max depth (bs ++ rest) = Ok (v, rest).

(** What the round trip of one value says, for a call of [_write] with
    room for [wd] nested calls and a call of [handle_request] with room for
    [rd]. *)
Definition comes_back (alloc_max : Z) (wd rd : nat) (v : value) : Prop :=
  exists bs, Limited._write wd v = Ok bs /\ frame_at alloc_max rd v bs.

End LimitVocabulary.


(** ** Concrete inputs *)

Definition nested_example : value :=
  VList [VInt 1;
         VList [VDict [(VInt 2, VList [VInt (-3); VList []]); (VInt 0, VInt 7)]]].

Definition frame_foo : bytes := B "*1" ++ CRLF ++ B "+foo" ++ CRLF.
Definition frame_set : bytes :=
  B "*3" ++ CRLF ++ B "+SET" ++ CRLF ++ B "+k" ++ CRLF ++ B ":5" ++ CRLF.
Definition frame_get_no_key : bytes := B "*1" ++ CRLF ++ B "+GET" ++ CRLF.
Definition frame_get_k : bytes := B "*2" ++ CRLF ++ B "+GET" ++ CRLF ++ B "+k" ++ CRLF.

(** The arguments of [execute('GET', 'k')] and the request it sends. *)
Definition get_args : list value := [VStr (T "GET"); VStr (T "k")].
Definition get_request : bytes :=
  B "*2" ++ CRLF ++ B "$3" ++ CRLF ++ B "b'GET'" ++ CRLF
  ++ B "$1" ++ CRLF ++ B "b'k'" ++ CRLF.

Definition key_a : value := VBytes (B "a").
Definition key_b : value := VBytes (B "b").
Definition key_c : value := VBytes (B "c").
Definition val_1 : value := VBytes (B "1").
Definition val_2 : value := VBytes (B "2").

(** A map with the key 1 twice, as pairs and as the frames of its keys and
    values. *)
Definition dup_pairs : list (value * value) := [(VInt 1, VInt 2); (VInt 1, VInt 3)].
Definition dup_frames : list bytes := [int_frame 1; int_frame 2; int_frame 1; int_frame 3].

(** [get k], with the name and the key as bulk strings. *)
Definition bulk_get_k : list bytes := [bulk_frame (B "get"); bulk_frame (B "k")].

(** [set k 5] and [Get k], as arrays of simple strings. *)
Definition set_k_5 : bytes :=
  array_frame [simple_frame (T "set"); simple_frame (T "k"); int_frame 5].
Definition get_k : bytes := array_frame [simple_frame (T "Get"); simple_frame (T "k")].

(** Room for a request and its arguments, for a reply without nesting, and
    for a thousand bytes. *)
Definition small_limits : Limited.limits :=
  {| Limited.read_depth := 2; Limited.write_depth := 1; Limited.alloc_max := 1000 |}.

(** ** Induction on values, through the lists they contain *)

Section ValueInduction.
Variable P : value -> Prop.
Hypothesis HNone : P VNone.
Hypothesis HInt : forall n, P (VInt n).
Hypothesis HStr : forall s, P (VStr s).
Hypothesis HBytes : forall b, P (VBytes b).
Hypothesis HError : forall m, P (VError m).
Hypothesis HList : forall l, Forall P l -> P (VList l).
Hypothesis HTuple : forall l, Forall P l -> P (VTuple l).
Hypothesis HDict :
  forall d, Forall (fun e => P (fst e) /\ P (snd e)) d -> P (VDict d).

Fixpoint value_nested_ind (v : value) : P v :=
  match v with
  | VNone => HNone
  | VInt n => HInt n
  | VStr s => HStr s
  | VBytes b => HBytes b
  | VError m => HError m
  | VList l =>
    HList l ((fix all (l : list value) : Forall P l :=
                match l with
                | [] => Forall_nil P
                | x :: r => Forall_cons x (value_nested_ind x) (all r)
                end) l)
  | VTuple l =>
    HTuple l ((fix all (l : list value) : Forall P l :=
                 match l with
                 | [] => Forall_nil P
                 | x :: r => Forall_cons x (value_nested_ind x) (all r)
                 end) l)
  | VDict d =>
    HDict d ((fix all (d : list (value * value))
              : Forall (fun e => P (fst e) /\ P (snd e)) d :=
                match d with
                | [] => Forall_nil _
                | (k, x) :: r =>
                  Forall_cons (k, x)
                    (conj (value_nested_ind k) (value_nested_ind x)) (all r)
                end) d)
  end.

End ValueInduction.

(** ** Proof steps *)

(** Case analysis on the first computation of a sequence [x <- m ;; k]. *)
Ltac break_bind H :=
  match type of H with
  | context [bind ?m _] =>
    let E := fresh "E" in
    destruct m as [?|?|] eqn:E; simpl in H; try discriminate
  end.

Ltac break_pair :=
  repeat match goal with
         | p : (_ * _)%type |- _ => destruct p
         end.

Ltac bool_hyps :=
  repeat match goal with
         | H : (_ && _)%bool = true |- _ => apply andb_prop in H; destruct H
         | H : (_ <=? _)%N = true |- _ => apply N.leb_le in H
         | H : (_ <? _)%N = true |- _ => apply N.ltb_lt in H
         | H : (_ <? _)%N = false |- _ => apply N.ltb_ge in H
         | H : (_ =? _)%N = true |- _ => apply N.eqb_eq in H
         | H : (_ =? _)%N = false |- _ => apply N.eqb_neq in H
         end.

(** * Properties *)

(** ** Keys and dictionaries *)

Lemma key_eqb_true (a b : value) :
  key_eqb a b = true <->
  exists x, to_key a = Some x /\ to_key b = Some x.
Proof.
  unfold key_eqb.
  destruct (to_key a) as [x|], (to_key b) as [y|]; split;
    try discriminate; try (intros [z [H1 H2]]; discriminate).
  - destruct (hkey_eq_dec x y) as [->|]; [eauto | discriminate].
  - intros [z [H1 H2]]; injection H1 as ->; injection H2 as ->.
    destruct (hkey_eq_dec z z); congruence.
Qed.

Lemma key_eqb_refl (k : value) : hashable k = true -> key_eqb k k = true.
Proof.
  unfold hashable; intros H; apply key_eqb_true.
  destruct (to_key k) as [x|]; [eauto | discriminate].
Qed.

Lemma key_eqb_sym (a b : value) : key_eqb a b = key_eqb b a.
Proof.
  destruct (key_eqb a b) eqn:E, (key_eqb b a) eqn:E'; auto.
  - apply key_eqb_true in E as [x [H1 H2]].
    assert (key_eqb b a = true) by (apply key_eqb_true; eauto); congruence.
  - apply key_eqb_true in E' as [x [H1 H2]].
    assert (key_eqb a b = true) by (apply key_eqb_true; eauto); congruence.
Qed.

Lemma key_eqb_congr (a b c : value) :
  key_eqb a b = true -> key_eqb a c = key_eqb b c.
Proof.
  intros H; apply key_eqb_true in H as [x [Ha Hb]].
  unfold key_eqb; now rewrite Ha, Hb.
Qed.

Lemma key_eqb_hashable (a b : value) : key_eqb a b = true -> hashable a = true.
Proof.
  intros H; apply key_eqb_true in H as [x [Ha _]].
  unfold hashable; now rewrite Ha.
Qed.

Lemma dict_get_set_same (k v : value) (d : dict) :
  hashable k = true -> dict_get k (dict_set k v d) = Some v.
Proof.
  intros Hk; induction d as [|[k' v'] r IH]; simpl.
  - now rewrite key_eqb_refl.
  - destruct (key_eqb k' k) eqn:E; simpl; now rewrite E.
Qed.

Lemma dict_get_set_other (k' k v : value) (d : dict) :
  key_eqb k' k = false -> dict_get k' (dict_set k v d) = dict_get k' d.
Proof.
  intros Hne; induction d as [|[e x] r IH]; simpl.
  - now rewrite key_eqb_sym, Hne.
  - destruct (key_eqb e k) eqn:E; simpl.
    + rewrite (key_eqb_congr e k k' E), (key_eqb_sym k k'), Hne; reflexivity.
    + destruct (key_eqb e k'); auto.
Qed.

Lemma dict_get_del_same (k : value) (d : dict) : dict_get k (dict_del k d) = None.
Proof.
  induction d as [|[e x] r IH]; simpl; auto.
  destruct (key_eqb e k) eqn:E; simpl; auto; now rewrite E.
Qed.

Lemma dict_get_del_other (k' k : value) (d : dict) :
  key_eqb k' k = false -> dict_get k' (dict_del k d) = dict_get k' d.
Proof.
  intros Hne; induction d as [|[e x] r IH]; simpl; auto.
  destruct (key_eqb e k) eqn:E; simpl.
  - rewrite (key_eqb_congr e k k' E), (key_eqb_sym k k'), Hne; exact IH.
  - destruct (key_eqb e k'); auto.
Qed.

Lemma dict_mem_del_same (k : value) (d : dict) : dict_mem k (dict_del k d) = false.
Proof. unfold dict_mem; now rewrite dict_get_del_same. Qed.

Lemma dict_mem_set_other (k' k v : value) (d : dict) :
  key_eqb k' k = false -> dict_mem k' (dict_set k v d) = dict_mem k' d.
Proof. intros H; unfold dict_mem; now rewrite dict_get_set_other. Qed.

Lemma dict_mem_del_other (k' k : value) (d : dict) :
  key_eqb k' k = false -> dict_mem k' (dict_del k d) = dict_mem k' d.
Proof. intros H; unfold dict_mem; now rewrite dict_get_del_other. Qed.

Lemma dict_mem_congr (a b : value) (d : dict) :
  key_eqb a b = true -> dict_mem a d = dict_mem b d.
Proof.
  intros H; unfold dict_mem; induction d as [|[e x] r IH]; simpl; auto.
  rewrite (key_eqb_sym e a), (key_eqb_congr a b e H), (key_eqb_sym b e).
  destruct (key_eqb e b); auto.
Qed.

Lemma dict_set_wf (k v : value) (d : dict) :
  hashable k = true -> dict_wf d = true -> dict_wf (dict_set k v d) = true.
Proof.
  intros Hk; induction d as [|[e x] r IH]; simpl; intros Hwf.
  - now rewrite Hk.
  - apply andb_prop in Hwf as [Hwf Hr]; apply andb_prop in Hwf as [He Hm].
    destruct (key_eqb e k) eqn:E; simpl.
    + now rewrite He, Hm, Hr.
    + rewrite He, (dict_mem_set_other e k v r E), Hm, IH; auto.
Qed.

Lemma dict_del_wf (k : value) (d : dict) :
  dict_wf d = true -> dict_wf (dict_del k d) = true.
Proof.
  induction d as [|[e x] r IH]; simpl; intros Hwf; auto.
  apply andb_prop in Hwf as [Hwf Hr]; apply andb_prop in Hwf as [He Hm].
  destruct (key_eqb e k) eqn:E; simpl; auto.
  rewrite He, (dict_mem_del_other e k r E), Hm, IH; auto.
Qed.

(** On a dictionary, [del d[k]] removes one entry, the one of [k]. *)
Lemma dict_del_length (k : value) (d : dict) :
  dict_wf d = true -> dict_mem k d = true ->
  S (length (dict_del k d)) = length d.
Proof.
  induction d as [|[e x] r IH]; simpl; intros Hwf Hm; [discriminate|].
  apply andb_prop in Hwf as [Hwf Hr]; apply andb_prop in Hwf as [He Her].
  unfold dict_mem in Hm; simpl in Hm.
  destruct (key_eqb e k) eqn:E; simpl.
  - f_equal. clear IH Hm.
    rewrite (dict_mem_congr e k r E) in Her.
    induction r as [|[e' x'] r' IHr]; simpl; auto.
    unfold dict_mem in Her; simpl in Her; simpl in Hr.
    apply andb_prop in Hr as [_ Hr'].
    destruct (key_eqb e' k) eqn:E'; [discriminate|]; simpl.
    f_equal; apply IHr; auto.
  - f_equal; apply IH; auto.
Qed.

(** ** The store *)

Lemma get_hashable (k : value) (kv : dict) :
  hashable k = true -> get k kv = (Ok (stored k kv), kv).
Proof. intros H; unfold get, py_dict_get, stored; now rewrite H. Qed.

Lemma set_hashable (k v : value) (kv : dict) :
  hashable k = true -> set k v kv = (Ok (VInt 1), dict_set k v kv).
Proof. intros H; unfold set, py_dict_setitem; now rewrite H. Qed.

Lemma delete_hashable (k : value) (kv : dict) :
  hashable k = true ->
  delete k kv = if dict_mem k kv then (Ok (VInt 1), dict_del k kv)
                else (Ok (VInt 0), kv).
Proof. intros H; unfold delete, py_dict_contains; now rewrite H. Qed.

(** C7. For a key [k] (hashable, as the byte keys of the store are) and a
    value [v], in any store: [SET(k, v)] returns 1 and [GET(k)] then returns
    [v]; after [DELETE(k)], [GET(k)] returns [None]; [DELETE(k)] returns 1
    when [k] was present and 0 when it was absent, and a second [DELETE(k)]
    in a row returns 0. *)
Theorem set_get_delete (kv : dict) (k v : value) :
  hashable k = true ->
  fst (set k v kv) = Ok (VInt 1)
  /\ fst (get k (snd (set k v kv))) = Ok v
  /\ fst (get k (snd (delete k kv))) = Ok VNone
  /\ (dict_mem k kv = true -> fst (delete k kv) = Ok (VInt 1))
  /\ (dict_mem k kv = false -> fst (delete k kv) = Ok (VInt 0))
  /\ fst (delete k (snd (delete k kv))) = Ok (VInt 0).
Proof.
  intros Hk.
  assert (Hgone : dict_get k (snd (delete k kv)) = None).
  { rewrite delete_hashable by assumption.
    destruct (dict_mem k kv) eqn:E; simpl.
    - apply dict_get_del_same.
    - unfold dict_mem in E; destruct (dict_get k kv); [discriminate | reflexivity]. }
  repeat split.
  - now rewrite set_hashable.
  - rewrite set_hashable, get_hashable by assumption; simpl.
    unfold stored; now rewrite dict_get_set_same.
  - rewrite get_hashable by assumption; simpl.
    unfold stored; now rewrite Hgone.
  - intros E; rewrite delete_hashable by assumption; now rewrite E.
  - intros E; rewrite delete_hashable by assumption; now rewrite E.
  - rewrite (delete_hashable k (snd (delete k kv))) by assumption.
    unfold dict_mem; now rewrite Hgone.
Qed.

Lemma mget_results_hashable (keys : list value) (kv : dict) :
  forallb hashable keys = true ->
  mget_results keys kv = Ok (map (fun k => stored k kv) keys).
Proof.
  induction keys as [|k r IH]; simpl; intros H; auto.
  apply andb_prop in H as [Hk Hr].
  unfold py_dict_get; rewrite Hk; simpl; rewrite IH by assumption; reflexivity.
Qed.

Lemma zip_slices (items : list value) :
  zip (slice_even items) (slice_odd items) = pairs_of items.
Proof.
  unfold zip.
  assert (H : forall n (l : list value), (length l <= n)%nat ->
             combine (slice_even l) (slice_odd l) = pairs_of l).
  { induction n as [|n IH]; intros [|x [|y r]] Hl; simpl in *; auto; try lia.
    f_equal; apply IH; lia. }
  apply (H (length items)); lia.
Qed.

Lemma mset_loop_hashable (ps : list (value * value)) (kv : dict) :
  forallb hashable (map fst ps) = true ->
  mset_loop ps kv = (Ok tt, set_each ps kv).
Proof.
  revert kv; induction ps as [|[k v] r IH]; simpl; intros kv H; auto.
  apply andb_prop in H as [Hk Hr].
  unfold set_each; simpl; rewrite set_hashable by assumption; simpl.
  unfold py_dict_setitem; rewrite Hk; now apply IH.
Qed.

Lemma mset_hashable (items : list value) (kv : dict) :
  forallb hashable (map fst (pairs_of items)) = true ->
  mset items kv = (Ok (VInt 1), set_each (pairs_of items) kv).
Proof.
  intros H; unfold mset; rewrite zip_slices, mset_loop_hashable by assumption.
  reflexivity.
Qed.

Lemma pairs_of_odd (items : list value) (x : value) :
  Nat.even (length items) = true -> pairs_of (items ++ [x]) = pairs_of items.
Proof.
  assert (H : forall n (l : list value), (length l <= n)%nat ->
             Nat.even (length l) = true -> pairs_of (l ++ [x]) = pairs_of l).
  { induction n as [|n IH]; intros [|a [|b r]] Hl He; simpl in *;
      auto; try lia; try discriminate.
    f_equal; apply IH; [lia | assumption]. }
  apply (H (length items)); lia.
Qed.

(** C8. [MGET] answers one result per requested key, in the order of the
    keys, each the result [GET] gives for that key (so a repeated key is
    answered each time); and [MSET(a, va, b, vb)] followed by
    [MGET(a, b, c)], for different keys of which [c] is not in the store,
    returns [[va, vb, None]]. *)
Theorem mget_order (kv : dict) :
  (forall keys, forallb hashable keys = true ->
     exists results,
       mget keys kv = (Ok (VList results), kv)
       /\ Forall2 (fun k r => get k kv = (Ok r, kv)) keys results)
  /\ (forall a b c va vb,
        forallb hashable [a; b; c] = true ->
        key_eqb a b = false -> key_eqb c a = false -> key_eqb c b = false ->
        dict_mem c kv = false ->
        fst (mset [a; va; b; vb] kv) = Ok (VInt 1)
        /\ fst (mget [a; b; c] (snd (mset [a; va; b; vb] kv)))
           = Ok (VList [va; vb; VNone])).
Proof.
  split.
  - intros keys H.
    exists (map (fun k => stored k kv) keys); split.
    + unfold mget; now rewrite mget_results_hashable.
    + induction keys as [|k r IH]; simpl; constructor.
      * simpl in H; apply andb_prop in H as [Hk _]; now apply get_hashable.
      * simpl in H; apply andb_prop in H as [_ Hr]; now apply IH.
  - intros a b c va vb H Hab Hca Hcb Hc.
    assert (Ha : hashable a = true) by (simpl in H; now apply andb_prop in H as [? _]).
    assert (Hb : hashable b = true).
    { simpl in H; apply andb_prop in H as [_ H]; now apply andb_prop in H as [? _]. }
    rewrite mset_hashable by (simpl; now rewrite Ha, Hb).
    split; [reflexivity|].
    unfold mget; rewrite mget_results_hashable by assumption; simpl.
    unfold set_each; simpl; rewrite !set_hashable by assumption; simpl.
    unfold stored.
    rewrite (dict_get_set_other a b) by assumption.
    rewrite dict_get_set_same by assumption.
    rewrite dict_get_set_same by assumption.
    rewrite !dict_get_set_other by assumption.
    unfold dict_mem in Hc; destruct (dict_get c kv); [discriminate | reflexivity].
Qed.

(** C9. [MSET] applies a [SET] for each pair (key, value) of its arguments,
    in order, and returns 1; given an odd number of arguments it does what it
    does without the last one: the unpaired argument is dropped, nothing is
    raised, and the result is 1 again. *)
Theorem mset_pairs :
  (forall items kv,
     forallb hashable (map fst (pairs_of items)) = true ->
     mset items kv = (Ok (VInt 1), set_each (pairs_of items) kv))
  /\ (forall items x kv,
        Nat.even (length items) = true ->
        mset (items ++ [x]) kv = mset items kv).
Proof.
  split.
  - intros; now apply mset_hashable.
  - intros items x kv He; unfold mset.
    now rewrite !zip_slices, pairs_of_odd.
Qed.

(** C10. Frame: [GET] and [MGET] leave the store as it is; [SET(k, v)]
    changes the binding of no key other than [k]; [DELETE(k)] changes the
    binding of no key other than [k]. *)
Theorem store_frame (kv : dict) :
  (forall k, snd (get k kv) = kv)
  /\ (forall keys, snd (mget keys kv) = kv)
  /\ (forall k v k', key_eqb k' k = false ->
        dict_get k' (snd (set k v kv)) = dict_get k' kv)
  /\ (forall k k', key_eqb k' k = false ->
        dict_get k' (snd (delete k kv)) = dict_get k' kv).
Proof.
  repeat split; auto.
  - intros k v k' H; unfold set, py_dict_setitem.
    destruct (hashable k); simpl; auto using dict_get_set_other.
  - intros k k' H; unfold delete, py_dict_contains.
    destruct (hashable k); simpl; auto.
    destruct (dict_mem k kv); simpl; auto using dict_get_del_other.
Qed.

(** ** One frame at a time: the tags *)

Section CodecFacts.
Context {ucd : UnicodeData}.

Lemma handle_request_simple fuel sock :
  handle_request (S fuel) ("+"%char :: sock) = handle_simple_string sock.
Proof. reflexivity. Qed.

Lemma handle_request_error fuel sock :
  handle_request (S fuel) ("-"%char :: sock) = handle_error_message sock.
Proof. reflexivity. Qed.

Lemma handle_request_integer fuel sock :
  handle_request (S fuel) (":"%char :: sock) = handle_integer sock.
Proof. reflexivity. Qed.

Lemma handle_request_binary fuel sock :
  handle_request (S fuel) ("$"%char :: sock) = handle_binary sock.
Proof. reflexivity. Qed.

Lemma handle_request_array fuel sock :
  handle_request (S fuel) ("*"%char :: sock)
  = handle_array (handle_request fuel) sock.
Proof. reflexivity. Qed.

Lemma handle_request_dictionary fuel sock :
  handle_request (S fuel) ("%"%char :: sock)
  = handle_dictionary (handle_request fuel) sock.
Proof. reflexivity. Qed.

(** ** Truncated bulk strings *)

Lemma drop_last2_length (b : bytes) : length (drop_last2 b) = (length b - 2)%nat.
Proof. unfold drop_last2; rewrite length_firstn; lia. Qed.

(** ** Null *)

(** C3, as the code has it.  Encoding [None] raises [TypeError] (the buffer
    is a [BytesIO] and is given a [str]), so no byte is produced; decoding
    the frame [$-1\r\n] yields [None] and consumes nothing after the frame. *)
Theorem null_frame :
  encode VNone = Raise TypeError
  /\ forall rest : bytes,
       decode (B "$-1" ++ CRLF ++ rest) = Ok (VNone, rest).
Proof.
  split; [reflexivity|].
  intros rest; unfold decode; reflexivity.
Qed.

End CodecFacts.

(** ** Decoding always ends: the recursion bound of [decode] suffices *)

Section Termination.
Context {ucd : UnicodeData}.

Lemma readline_length (sock l r : bytes) :
  readline sock = (l, r) -> length sock = (length l + length r)%nat.
Proof.
  revert l r; induction sock as [|c s IH]; simpl; intros l r H.
  - injection H as <- <-; reflexivity.
  - destruct (Ascii.eqb c LF).
    + injection H as <- <-; simpl; lia.
    + destruct (readline s) as [l' r'].
      injection H as <- <-; simpl; rewrite (IH l' r'); auto.
Qed.

Lemma read_text_line_length (sock rest : bytes) (s : str) :
  read_text_line sock = Ok (s, rest) -> (length rest <= length sock)%nat.
Proof.
  unfold read_text_line; destruct (readline sock) as [l r] eqn:E; intros H.
  break_bind H; injection H as _ <-.
  apply readline_length in E; lia.
Qed.

Lemma read_text_line_fuel (sock : bytes) : read_text_line sock <> OutOfFuel.
Proof.
  unfold read_text_line, decode_utf8; destruct (readline sock) as [l r].
  destruct (utf8_decode l); simpl; discriminate.
Qed.

Lemma py_int_fuel (s : str) : py_int s <> OutOfFuel.
Proof.
  unfold py_int; destruct (to_ascii_digits s); [|discriminate].
  destruct (parse_int s0); discriminate.
Qed.

Lemma read_length (n : Z) (sock data rest : bytes) :
  read n sock = Ok (data, rest) -> (length rest <= length sock)%nat.
Proof.
  unfold read; destruct (n <? -1); [discriminate|].
  destruct (n =? -1); intros H; injection H as _ <-; simpl; [lia|].
  rewrite length_skipn; lia.
Qed.

Lemma read_fuel (n : Z) (sock : bytes) : read n sock <> OutOfFuel.
Proof.
  unfold read; destruct (n <? -1); [discriminate|].
  destruct (n =? -1); discriminate.
Qed.

Lemma dict_of_pairs_fuel (ps : list (value * value)) (d : dict) :
  dict_of_pairs ps d <> OutOfFuel.
Proof.
  revert d; induction ps as [|[k v] r IH]; simpl; intros d; [discriminate|].
  destruct (hashable k); [apply IH | discriminate].
Qed.

Lemma read_frames_length request (n : nat) :
  forall sock vs rest,
    (forall s v r, (length s <= length sock)%nat ->
                   request s = Ok (v, r) -> (length r < length s)%nat) ->
    read_frames request n sock = Ok (vs, rest) ->
    (length rest <= length sock)%nat.
Proof.
  induction n as [|n IH]; simpl; intros sock vs rest Hreq H.
  - injection H as _ <-; lia.
  - break_bind H; break_pair. break_bind H; break_pair.
    injection H as _ <-.
    apply Hreq in E; [|lia].
    apply IH in E0; [lia|].
    intros s0 v0 r0 Hs; apply Hreq; lia.
Qed.

Lemma read_frames_fuel request (n : nat) :
  forall sock,
    (forall s v r, (length s <= length sock)%nat ->
                   request s = Ok (v, r) -> (length r < length s)%nat) ->
    (forall s, (length s <= length sock)%nat -> request s <> OutOfFuel) ->
    read_frames request n sock <> OutOfFuel.
Proof.
  induction n as [|n IH]; simpl; intros sock Hlen Hfuel; [discriminate|].
  destruct (request sock) as [[v s']| |] eqn:E; simpl; try discriminate.
  - assert (Hs' : (length s' < length sock)%nat) by (eapply Hlen; eauto).
    destruct (read_frames request n s') as [[vs s'']| |] eqn:E'; simpl;
      try discriminate.
    exfalso; revert E'; apply IH.
    + intros s v0 r Hs; apply Hlen; lia.
    + intros s Hs; apply Hfuel; lia.
  - exfalso; revert E; apply Hfuel; lia.
Qed.

(** The six handlers, selected by the tag; anything else is a bad request. *)
Lemma handle_request_cases (fuel : nat) (a : byte) (sock : bytes) :
  handle_request (S fuel) (a :: sock) = Raise UnicodeDecodeError
  \/ handle_request (S fuel) (a :: sock) = Raise (CommandError (T "bad request"))
  \/ handle_request (S fuel) (a :: sock) = handle_simple_string sock
  \/ handle_request (S fuel) (a :: sock) = handle_integer sock
  \/ handle_request (S fuel) (a :: sock) = handle_binary sock
  \/ handle_request (S fuel) (a :: sock) = handle_array (handle_request fuel) sock
  \/ handle_request (S fuel) (a :: sock)
     = handle_dictionary (handle_request fuel) sock.
Proof.
  cbn [handle_request].
  destruct (decode_utf8 [a]) as [tag| |] eqn:E; cbn [bind]; auto.
  - repeat match goal with
           | |- context [if ?c then _ else _] => destruct c; [tauto|]
           end.
    tauto.
  - unfold decode_utf8 in E; destruct (utf8_decode [a]); try discriminate.
    injection E as <-; auto.
  - unfold decode_utf8 in E; destruct (utf8_decode [a]); discriminate.
Qed.

Lemma handle_request_length (fuel : nat) :
  forall sock v rest,
    handle_request fuel sock = Ok (v, rest) -> (length rest < length sock)%nat.
Proof.
  induction fuel as [|fuel IH]; intros sock v rest H; [discriminate|].
  destruct sock as [|a sock]; [discriminate|].
  simpl length.
  destruct (handle_request_cases fuel a sock)
    as [E|[E|[E|[E|[E|[E|E]]]]]]; rewrite E in H; clear E; try discriminate.
  - unfold handle_simple_string in H. break_bind H; break_pair.
    injection H as _ <-. apply read_text_line_length in E; lia.
  - unfold handle_integer in H. break_bind H; break_pair. break_bind H.
    injection H as _ <-. apply read_text_line_length in E; lia.
  - unfold handle_binary in H. break_bind H; break_pair. break_bind H.
    apply read_text_line_length in E.
    destruct (a0 =? -1).
    + injection H as _ <-; lia.
    + break_bind H; break_pair. injection H as _ <-.
      apply read_length in E1; lia.
  - unfold handle_array in H. break_bind H; break_pair. break_bind H.
    break_bind H; break_pair. injection H as _ <-.
    apply read_text_line_length in E.
    apply read_frames_length in E1; [lia|].
    intros s0 v0 r _; apply IH.
  - unfold handle_dictionary in H. break_bind H; break_pair. break_bind H.
    break_bind H; break_pair. break_bind H. injection H as _ <-.
    apply read_text_line_length in E.
    apply read_frames_length in E1; [lia|].
    intros s0 v0 r _; apply IH.
Qed.

Lemma handle_request_fuel (fuel : nat) :
  forall sock, (length sock < fuel)%nat -> handle_request fuel sock <> OutOfFuel.
Proof.
  induction fuel as [|fuel IH]; intros sock Hlen; [lia|].
  destruct sock as [|a sock]; [discriminate|].
  simpl in Hlen.
  assert (Hframes : forall n s, (length s <= length sock)%nat ->
                      read_frames (handle_request fuel) n s <> OutOfFuel).
  { intros n s Hs; apply read_frames_fuel.
    - intros s0 v r _; apply handle_request_length.
    - intros s0 Hs0; apply IH; lia. }
  destruct (handle_request_cases fuel a sock)
    as [E|[E|[E|[E|[E|[E|E]]]]]]; rewrite E; clear E; try discriminate.
  - unfold handle_simple_string.
    destruct (read_text_line sock) as [[s r]| |] eqn:E; simpl; try discriminate.
    now apply read_text_line_fuel in E.
  - unfold handle_integer.
    destruct (read_text_line sock) as [[s r]| |] eqn:E; simpl; try discriminate.
    + destruct (py_int s) eqn:E'; simpl; try discriminate.
      now apply py_int_fuel in E'.
    + now apply read_text_line_fuel in E.
  - unfold handle_binary.
    destruct (read_text_line sock) as [[s r]| |] eqn:E; simpl; try discriminate.
    + destruct (py_int s) as [n| |] eqn:E'; simpl; try discriminate.
      * destruct (n =? -1); [discriminate|].
        destruct (read (n + 2) r) as [[d r']| |] eqn:E''; simpl; try discriminate.
        now apply read_fuel in E''.
      * now apply py_int_fuel in E'.
    + now apply read_text_line_fuel in E.
  - unfold handle_array.
    destruct (read_text_line sock) as [[s r]| |] eqn:E; simpl; try discriminate.
    + destruct (py_int s) as [n| |] eqn:E'; simpl; try discriminate.
      * apply read_text_line_length in E.
        destruct (read_frames (handle_request fuel) (Z.to_nat n) r)
          as [[vs r']| |] eqn:E''; simpl; try discriminate.
        now apply Hframes in E''.
      * now apply py_int_fuel in E'.
    + now apply read_text_line_fuel in E.
  - unfold handle_dictionary.
    destruct (read_text_line sock) as [[s r]| |] eqn:E; simpl; try discriminate.
    + destruct (py_int s) as [n| |] eqn:E'; simpl; try discriminate.
      * apply read_text_line_length in E.
        destruct (read_frames (handle_request fuel) (Z.to_nat (n * 2)) r)
          as [[vs r']| |] eqn:E''; simpl; try discriminate.
        -- destruct (dict_of_pairs (zip (slice_even vs) (slice_odd vs)) [])
             eqn:E3; simpl; try discriminate.
           now apply dict_of_pairs_fuel in E3.
        -- now apply Hframes in E''.
      * now apply py_int_fuel in E'.
    + now apply read_text_line_fuel in E.
Qed.

(** [decode] returns a value or raises an exception on every stream. *)
Lemma decode_total (sock : bytes) : decode sock <> OutOfFuel.
Proof. unfold decode; apply handle_request_fuel; lia. Qed.

Lemma decode_length (sock rest : bytes) (v : value) :
  decode sock = Ok (v, rest) -> (length rest < length sock)%nat.
Proof. apply handle_request_length. Qed.

End Termination.

(** ** What [_write] can raise *)

Lemma _write_list (l : list value) :
  _write (VList l)
  = (h <- encode_utf8 (T "*" ++ str_of_int (Z.of_nat (length l)) ++ CRLF_text) ;;
     body <- write_items l ;; Ok (h ++ body)).
Proof. reflexivity. Qed.

Lemma _write_tuple (l : list value) : _write (VTuple l) = _write (VList l).
Proof. reflexivity. Qed.

Lemma _write_dict (d : list (value * value)) :
  _write (VDict d)
  = (h <- encode_utf8 (T "%" ++ str_of_int (Z.of_nat (length d)) ++ CRLF_text) ;;
     body <- write_entries d ;; Ok (h ++ body)).
Proof. reflexivity. Qed.

Lemma encode_utf8_outcome (s : str) : write_outcome (encode_utf8 s).
Proof. unfold encode_utf8; destruct (utf8_encode s); simpl; auto. Qed.

Lemma write_outcome_bind {A C} (m : outcome A) (k : A -> outcome C) :
  write_outcome m -> (forall a, m = Ok a -> write_outcome (k a)) ->
  write_outcome (bind m k).
Proof. destruct m; simpl; auto. Qed.

Lemma _write_outcome (v : value) : write_outcome (_write v).
Proof.
  induction v as [ | n | s | b | m | l IH | l IH | d IH ] using value_nested_ind.
  - simpl; auto.
  - apply encode_utf8_outcome.
  - cbn [_write]; apply write_outcome_bind;
      [apply encode_utf8_outcome | intros; apply encode_utf8_outcome].
  - apply encode_utf8_outcome.
  - apply encode_utf8_outcome.
  - rewrite _write_list.
    apply write_outcome_bind; [apply encode_utf8_outcome | intros h _].
    apply write_outcome_bind; [|simpl; auto].
    induction IH as [|x r Hx _ IHr]; simpl; auto.
    apply write_outcome_bind; [assumption | intros a _].
    apply write_outcome_bind; [assumption | simpl; auto].
  - rewrite _write_tuple, _write_list.
    apply write_outcome_bind; [apply encode_utf8_outcome | intros h _].
    apply write_outcome_bind; [|simpl; auto].
    induction IH as [|x r Hx _ IHr]; simpl; auto.
    apply write_outcome_bind; [assumption | intros a _].
    apply write_outcome_bind; [assumption | simpl; auto].
  - rewrite _write_dict.
    apply write_outcome_bind; [apply encode_utf8_outcome | intros h _].
    apply write_outcome_bind; [|simpl; auto].
    induction IH as [|[k x] r [Hk Hx] _ IHr]; simpl; auto.
    apply write_outcome_bind; [assumption | intros a _].
    apply write_outcome_bind; [assumption | intros a' _].
    apply write_outcome_bind; [assumption | simpl; auto].
Qed.

(** ** The dispatcher and the session loop *)

Section Sessions.
Context {ucd : UnicodeData}.

Lemma read_text_line_raises (sock : bytes) (e : exn) :
  read_text_line sock = Raise e -> e = UnicodeDecodeError.
Proof.
  unfold read_text_line, decode_utf8; destruct (readline sock) as [l r].
  destruct (utf8_decode l); simpl; [discriminate|].
  intros H; now injection H.
Qed.

Lemma py_int_raises (s : str) (e : exn) : py_int s = Raise e -> e = ValueError.
Proof.
  unfold py_int; destruct (to_ascii_digits s) as [s'|].
  - destruct (parse_int s'); [discriminate|]; intros H; now injection H.
  - intros H; now injection H.
Qed.

Lemma read_raises (n : Z) (sock : bytes) (e : exn) :
  read n sock = Raise e -> e = ValueError.
Proof.
  unfold read; destruct (n <? -1); [intros H; now injection H|].
  destruct (n =? -1); discriminate.
Qed.

Lemma dict_of_pairs_raises (ps : list (value * value)) (d : dict) (e : exn) :
  dict_of_pairs ps d = Raise e -> e = TypeError.
Proof.
  revert d; induction ps as [|[k v] r IH]; simpl; intros d; [discriminate|].
  destruct (hashable k); [apply IH | intros H; now injection H].
Qed.

Lemma read_frames_raises request (Q : exn -> Prop) (n : nat) :
  (forall s e, request s = Raise e -> Q e) ->
  forall sock e, read_frames request n sock = Raise e -> Q e.
Proof.
  intros Hreq; induction n as [|n IH]; simpl; intros sock e H; [discriminate|].
  destruct (request sock) as [[v s']|e'|] eqn:E; simpl in H; try discriminate.
  - destruct (read_frames request n s') as [[vs s'']|e'|] eqn:E'; simpl in H;
      try discriminate.
    injection H as <-; eauto.
  - injection H as <-; eauto.
Qed.

Lemma handle_request_raises (fuel : nat) :
  forall sock e, handle_request fuel sock = Raise e -> decoder_exn e.
Proof.
  induction fuel as [|fuel IH]; intros sock e H; [discriminate|].
  destruct sock as [|a sock];
    [injection H as <-; intros m Hm; discriminate|].
  assert (Hframes : forall n s e', read_frames (handle_request fuel) n s = Raise e' ->
                                    decoder_exn e').
  { intros n; apply read_frames_raises; exact IH. }
  destruct (handle_request_cases fuel a sock)
    as [E|[E|[E|[E|[E|[E|E]]]]]]; rewrite E in H; clear E.
  - injection H as <-; intros m Hm; discriminate.
  - injection H as <-; intros m Hm; now injection Hm as <-.
  - unfold handle_simple_string in H.
    destruct (read_text_line sock) as [[s r]|e'|] eqn:E; simpl in H; try discriminate.
    injection H as <-; apply read_text_line_raises in E; subst; intros m Hm; discriminate.
  - unfold handle_integer in H.
    destruct (read_text_line sock) as [[s r]|e'|] eqn:E; simpl in H; try discriminate.
    + destruct (py_int s) as [n|e'|] eqn:E'; simpl in H; try discriminate.
      injection H as <-; apply py_int_raises in E'; subst; intros m Hm; discriminate.
    + injection H as <-; apply read_text_line_raises in E; subst; intros m Hm; discriminate.
  - unfold handle_binary in H.
    destruct (read_text_line sock) as [[s r]|e'|] eqn:E; simpl in H; try discriminate.
    + destruct (py_int s) as [n|e'|] eqn:E'; simpl in H; try discriminate.
      * destruct (n =? -1); [discriminate|].
        destruct (read (n + 2) r) as [[d r']|e'|] eqn:E''; simpl in H; try discriminate.
        injection H as <-; apply read_raises in E''; subst; intros m Hm; discriminate.
      * injection H as <-; apply py_int_raises in E'; subst; intros m Hm; discriminate.
    + injection H as <-; apply read_text_line_raises in E; subst; intros m Hm; discriminate.
  - unfold handle_array in H.
    destruct (read_text_line sock) as [[s r]|e'|] eqn:E; simpl in H; try discriminate.
    + destruct (py_int s) as [n|e'|] eqn:E'; simpl in H; try discriminate.
      * destruct (read_frames (handle_request fuel) (Z.to_nat n) r)
          as [[vs r']|e'|] eqn:E''; simpl in H; try discriminate.
        injection H as <-; eauto.
      * injection H as <-; apply py_int_raises in E'; subst; intros m Hm; discriminate.
    + injection H as <-; apply read_text_line_raises in E; subst; intros m Hm; discriminate.
  - unfold handle_dictionary in H.
    destruct (read_text_line sock) as [[s r]|e'|] eqn:E; simpl in H; try discriminate.
    + destruct (py_int s) as [n|e'|] eqn:E'; simpl in H; try discriminate.
      * destruct (read_frames (handle_request fuel) (Z.to_nat (n * 2)) r)
          as [[vs r']|e'|] eqn:E''; simpl in H; try discriminate.
        -- destruct (dict_of_pairs (zip (slice_even vs) (slice_odd vs)) [])
             as [d|e'|] eqn:E3; simpl in H; try discriminate.
           injection H as <-; apply dict_of_pairs_raises in E3; subst.
           intros m Hm; discriminate.
        -- injection H as <-; eauto.
      * injection H as <-; apply py_int_raises in E'; subst; intros m Hm; discriminate.
    + injection H as <-; apply read_text_line_raises in E; subst; intros m Hm; discriminate.
Qed.

Lemma connection_handler_S (fuel : nat) (sock : bytes) (kv : dict) :
  connection_handler (S fuel) sock kv
  = match decode sock with
    | Raise Disconnect => (Closed, [], kv)
    | Raise e => (Crashed e, [], kv)
    | OutOfFuel => (Unfinished, [], kv)
    | Ok (data, sock') =>
      let '(r, kv') := get_response data kv in
      let resp :=
        match r with
        | Raise (CommandError message) => Ok (VError message)
        | _ => r
        end in
      match resp with
      | Ok resp =>
        match write_response resp with
        | Ok out => after_reply out (connection_handler fuel sock' kv')
        | Raise e => (Crashed e, [], kv')
        | OutOfFuel => (Unfinished, [], kv')
        end
      | Raise e => (Crashed e, [], kv')
      | OutOfFuel => (Unfinished, [], kv')
      end
    end.
Proof. reflexivity. Qed.

(** The loop bound of [session] suffices: a larger one changes nothing. *)
Lemma connection_handler_fuel (n : nat) :
  forall f1 f2 sock kv,
    (length sock <= n)%nat -> (length sock < f1)%nat -> (length sock < f2)%nat ->
    connection_handler f1 sock kv = connection_handler f2 sock kv.
Proof.
  induction n as [|n IH]; intros f1 f2 sock kv Hn H1 H2;
    (destruct f1 as [|f1]; [lia|]); (destruct f2 as [|f2]; [lia|]);
    rewrite !connection_handler_S;
    destruct (decode sock) as [[data sock']|e|] eqn:E; auto;
    apply decode_length in E.
  - lia.
  - destruct (get_response data kv) as [r kv'].
    rewrite (IH f1 f2 sock' kv') by lia; reflexivity.
Qed.

Lemma session_step (sock : bytes) (kv : dict) :
  session sock kv = connection_handler (S (S (length sock))) sock kv.
Proof.
  unfold session; apply (connection_handler_fuel (length sock)); lia.
Qed.

(** One turn of the loop whose request the dispatcher answers with [resp]
    or refuses with a [CommandError]: the reply is written and the session
    goes on with the next frame. *)
Lemma session_reply (sock rest reply : bytes) (data resp : value) (kv kv' : dict) :
  decode sock = Ok (data, rest) ->
  (get_response data kv = (Ok resp, kv')
   \/ exists m, get_response data kv = (Raise (CommandError m), kv')
                /\ resp = VError m) ->
  write_response resp = Ok reply ->
  session sock kv = after_reply reply (session rest kv').
Proof.
  intros Hd Hr Hw; rewrite session_step, connection_handler_S, Hd.
  assert (Hlen := decode_length _ _ _ Hd).
  destruct Hr as [Hr | [m [Hr ->]]]; rewrite Hr; cbv beta iota zeta;
    rewrite Hw;
    rewrite (connection_handler_fuel (length rest) (S (length sock))
               (S (length rest)) rest kv') by lia;
    reflexivity.
Qed.

End Sessions.

(** ** Error replies can always be encoded *)

Lemma is_scalar_intro (c : N) :
  (c < 55296 \/ 57343 < c)%N -> (c < 1114112)%N -> is_scalar c = true.
Proof.
  intros H1 H2; unfold is_scalar, is_surrogate.
  apply andb_true_intro; split; [now apply N.ltb_lt|].
  apply negb_true_iff, andb_false_iff; rewrite !N.leb_gt; lia.
Qed.

Lemma N_of_ascii_bound (a : ascii) : (N_of_ascii a < 256)%N.
Proof. apply N_ascii_bounded. Qed.

Lemma utf8_decode_scalar (n : nat) :
  forall bs s, (length bs <= n)%nat -> utf8_decode bs = Some s -> scalar_text s = true.
Proof.
  induction n as [|n IH]; intros [|a0 r0] s Hlen H; simpl in Hlen; try lia;
    try (injection H as <-; reflexivity).
  cbn [utf8_decode] in H; cbv zeta in H.
  assert (Hcons : forall c r,
                    option_map (cons c) (utf8_decode r) = Some s ->
                    (length r <= n)%nat ->
                    is_scalar c = true -> scalar_text s = true).
  { intros c r Hs Hr Hc; destruct (utf8_decode r) as [s'|] eqn:E; [|discriminate].
    injection Hs as <-; unfold scalar_text; cbn [forallb]; rewrite Hc.
    now apply (IH r). }
  assert (B0 := N_of_ascii_bound a0).
  destruct (N_of_ascii a0 <? 128)%N eqn:E0.
  { apply (Hcons _ _ H); [lia|]; bool_hyps; apply is_scalar_intro; lia. }
  destruct ((194 <=? N_of_ascii a0) && (N_of_ascii a0 <=? 223))%N eqn:E1.
  { destruct r0 as [|a1 r1]; [discriminate|].
    destruct (continuation (N_of_ascii a1)) eqn:C1; [|discriminate].
    simpl in Hlen; apply (Hcons _ _ H); [lia|].
    unfold continuation, low6 in *; bool_hyps; apply is_scalar_intro; lia. }
  destruct ((224 <=? N_of_ascii a0) && (N_of_ascii a0 <=? 239))%N eqn:E2.
  { destruct r0 as [|a1 [|a2 r2]]; try discriminate.
    match type of H with (if ?c then _ else _) = _ => destruct c eqn:C end;
      [|discriminate].
    simpl in Hlen; apply (Hcons _ _ H); [lia|].
    unfold continuation, low6 in *.
    destruct (N_of_ascii a0 =? 224)%N eqn:Ea; destruct (N_of_ascii a0 =? 237)%N eqn:Eb;
      bool_hyps; apply is_scalar_intro; lia. }
  destruct ((240 <=? N_of_ascii a0) && (N_of_ascii a0 <=? 244))%N eqn:E3;
    [|discriminate].
  destruct r0 as [|a1 [|a2 [|a3 r3]]]; try discriminate.
  match type of H with (if ?c then _ else _) = _ => destruct c eqn:C end;
    [|discriminate].
  simpl in Hlen; apply (Hcons _ _ H); [lia|].
  unfold continuation, low6 in *.
  destruct (N_of_ascii a0 =? 240)%N eqn:Ea; destruct (N_of_ascii a0 =? 244)%N eqn:Eb;
    bool_hyps; apply is_scalar_intro; lia.
Qed.

Lemma utf8_encode_scalar (s : str) :
  scalar_text s = true -> exists b, utf8_encode s = Some b.
Proof.
  unfold scalar_text; induction s as [|c r IH]; cbn [forallb utf8_encode]; eauto.
  intros H; apply andb_prop in H as [Hc Hr].
  destruct (IH Hr) as [b ->].
  unfold utf8_encode_cp, is_scalar in *; apply andb_prop in Hc as [H1 H2].
  apply negb_true_iff in H2; rewrite H2, H1.
  destruct (c <? 128)%N; eauto. destruct (c <? 2048)%N; eauto.
  destruct (c <? 65536)%N; eauto.
Qed.

Lemma rstrip_crlf_forallb (P : codepoint -> bool) (s : str) :
  forallb P s = true -> forallb P (rstrip_crlf s) = true.
Proof.
  induction s as [|c r IH]; cbn [forallb rstrip_crlf]; auto.
  intros H; apply andb_prop in H as [Hc Hr]; specialize (IH Hr).
  destruct (rstrip_crlf r) as [|x r'].
  - destruct ((c =? cp_CR) || (c =? cp_LF))%N; cbn [forallb]; auto.
    now rewrite Hc.
  - cbn [forallb] in *; now rewrite Hc.
Qed.

Section Texts.
Context {ucd : UnicodeData}.

Lemma read_text_line_scalar (sock rest : bytes) (s : str) :
  read_text_line sock = Ok (s, rest) -> scalar_text s = true.
Proof.
  unfold read_text_line, decode_utf8; destruct (readline sock) as [l r].
  destruct (utf8_decode l) as [s'|] eqn:E; simpl; [|discriminate].
  intros H; injection H as <- _.
  apply rstrip_crlf_forallb, (utf8_decode_scalar (length l) l); auto.
Qed.

Lemma read_frames_text_ok request (n : nat) :
  (forall s v r, request s = Ok (v, r) -> text_ok v = true) ->
  forall sock vs rest,
    read_frames request n sock = Ok (vs, rest) -> forallb text_ok vs = true.
Proof.
  intros Hreq; induction n as [|n IH]; simpl; intros sock vs rest H.
  - now injection H as <- _.
  - destruct (request sock) as [[v s']| |] eqn:E; simpl in H; try discriminate.
    destruct (read_frames request n s') as [[vs' s'']| |] eqn:E'; simpl in H;
      try discriminate.
    injection H as <- _; cbn [forallb].
    rewrite (Hreq _ _ _ E), (IH _ _ _ E'); reflexivity.
Qed.

Lemma handle_request_text_ok (fuel : nat) :
  forall sock v rest, handle_request fuel sock = Ok (v, rest) -> text_ok v = true.
Proof.
  induction fuel as [|fuel IH]; intros sock v rest H; [discriminate|].
  destruct sock as [|a sock]; [discriminate|].
  destruct (handle_request_cases fuel a sock)
    as [E|[E|[E|[E|[E|[E|E]]]]]]; rewrite E in H; clear E; try discriminate.
  - unfold handle_simple_string in H.
    destruct (read_text_line sock) as [[s r]| |] eqn:E; simpl in H; try discriminate.
    injection H as <- _; now apply read_text_line_scalar in E.
  - unfold handle_integer in H.
    destruct (read_text_line sock) as [[s r]| |] eqn:E; simpl in H; try discriminate.
    destruct (py_int s); simpl in H; try discriminate.
    now injection H as <- _.
  - unfold handle_binary in H.
    destruct (read_text_line sock) as [[s r]| |] eqn:E; simpl in H; try discriminate.
    destruct (py_int s) as [n| |]; simpl in H; try discriminate.
    destruct (n =? -1); [now injection H as <- _|].
    destruct (read (n + 2) r) as [[d r']| |]; simpl in H; try discriminate.
    now injection H as <- _.
  - unfold handle_array in H.
    destruct (read_text_line sock) as [[s r]| |] eqn:E; simpl in H; try discriminate.
    destruct (py_int s) as [n| |]; simpl in H; try discriminate.
    destruct (read_frames (handle_request fuel) (Z.to_nat n) r)
      as [[vs r']| |] eqn:E'; simpl in H; try discriminate.
    injection H as <- _; cbn [text_ok].
    now apply (read_frames_text_ok _ _ IH) in E'.
  - unfold handle_dictionary in H.
    destruct (read_text_line sock) as [[s r]| |] eqn:E; simpl in H; try discriminate.
    destruct (py_int s) as [n| |]; simpl in H; try discriminate.
    destruct (read_frames (handle_request fuel) (Z.to_nat (n * 2)) r)
      as [[vs r']| |] eqn:E'; simpl in H; try discriminate.
    destruct (dict_of_pairs (zip (slice_even vs) (slice_odd vs)) []);
      simpl in H; try discriminate.
    now injection H as <- _.
Qed.

Lemma scalar_text_app (a b : str) :
  scalar_text (a ++ b) = scalar_text a && scalar_text b.
Proof. apply forallb_app. Qed.

Lemma ascii_scalar (s : str) :
  forallb (fun c => (c <? 128)%N) s = true -> scalar_text s = true.
Proof.
  unfold scalar_text; rewrite !forallb_forall; intros H c Hc.
  specialize (H c Hc); apply N.ltb_lt in H; apply is_scalar_intro; lia.
Qed.

Lemma repr_byte_ascii (quote : codepoint) (a : byte) :
  (quote <? 128)%N = true ->
  forallb (fun c => (c <? 128)%N) (repr_byte quote a) = true.
Proof.
  intros Hq; unfold repr_byte; assert (Ha := N_of_ascii_bound a).
  set (c := N_of_ascii a) in *.
  assert (Hh : forall n, (n < 16)%N -> (hex_digit n <? 128)%N = true).
  { intros n Hn; unfold hex_digit; destruct (n <? 10)%N; apply N.ltb_lt; lia. }
  destruct ((c =? quote) || (c =? cp_backslash))%N eqn:E1.
  { cbn [forallb]; rewrite andb_true_r.
    apply orb_prop in E1 as [E|E]; apply N.eqb_eq in E; rewrite E; auto. }
  destruct (c =? 9)%N; [reflexivity|].
  destruct (c =? 10)%N; [reflexivity|].
  destruct (c =? 13)%N; [reflexivity|].
  destruct ((c <? 32) || (127 <=? c))%N eqn:E2.
  { cbn [forallb]; rewrite !Hh; [reflexivity | |].
    - apply N.mod_lt; lia.
    - apply N.Div0.div_lt_upper_bound; lia. }
  cbn [forallb]; rewrite andb_true_r.
  apply orb_false_elim in E2 as [_ E2]; apply N.leb_gt in E2; apply N.ltb_lt; lia.
Qed.

Lemma repr_bytes_ascii (b : bytes) :
  forallb (fun c => (c <? 128)%N) (repr_bytes b) = true.
Proof.
  unfold repr_bytes.
  set (quote := if has_byte cp_squote b && negb (has_byte cp_dquote b)
                then cp_dquote else cp_squote).
  assert (Hq : (quote <? 128)%N = true) by (subst quote; destruct (_ && _); reflexivity).
  clearbody quote.
  cbn [forallb]; rewrite Hq, forallb_app; cbn [forallb]; rewrite Hq.
  change (98 <? 128)%N with true; cbn [andb]; rewrite andb_true_r.
  induction b as [|a r IH]; [reflexivity|].
  cbn [flat_map]; rewrite forallb_app, IH, andb_true_r.
  now apply repr_byte_ascii.
Qed.

Lemma str_upper_scalar (s : str) :
  upper_scalar -> scalar_text s = true -> scalar_text (str_upper s) = true.
Proof.
  intros Hu; unfold str_upper; induction s as [|c r IH]; [reflexivity|].
  unfold scalar_text in *; cbn [forallb flat_map]; intros H.
  apply andb_prop in H as [Hc Hr]; rewrite forallb_app, (IH Hr), andb_true_r.
  unfold upper_cp; destruct (c <? 128)%N eqn:E; [|now apply Hu].
  apply N.ltb_lt in E.
  destruct ((97 <=? c) && (c <=? 122))%N; cbn [forallb]; rewrite andb_true_r;
    apply is_scalar_intro; lia.
Qed.

Lemma mget_results_raises (keys : list value) (kv : dict) (e : exn) :
  mget_results keys kv = Raise e -> e = TypeError.
Proof.
  induction keys as [|k r IH]; simpl; [discriminate|].
  unfold py_dict_get; destruct (hashable k); simpl; [|intros H; now injection H].
  destruct (mget_results r kv); simpl; try discriminate; auto.
Qed.

Lemma mset_loop_raises (ps : list (value * value)) (kv : dict) (e : exn) :
  fst (mset_loop ps kv) = Raise e -> e = TypeError.
Proof.
  revert kv; induction ps as [|[k v] r IH]; simpl; intros kv; [discriminate|].
  unfold py_dict_setitem; destruct (hashable k); simpl;
    [apply IH | intros H; now injection H].
Qed.

(** A handler of the command table raises nothing but [TypeError]. *)
Lemma get_commands_raises (c : str) (h : handler) (args : list value)
      (kv : dict) (e : exn) :
  lookup c get_commands = Some h -> fst (h args kv) = Raise e -> e = TypeError.
Proof.
  unfold get_commands, lookup.
  repeat match goal with
         | |- context [if ?b then _ else _] => destruct b
         end; intros H; try discriminate; injection H as <-.
  - destruct args as [|a [|]]; simpl; try (intros H; now injection H).
    unfold py_dict_get; destruct (hashable a); [discriminate | intros H; now injection H].
  - destruct args as [|a [|b [|]]]; simpl; try (intros H; now injection H).
    unfold set, py_dict_setitem; destruct (hashable a);
      [discriminate | intros H; now injection H].
  - destruct args; simpl; [discriminate | intros H; now injection H].
  - destruct args as [|a [|]]; simpl; try (intros H; now injection H).
    unfold delete, py_dict_contains; destruct (hashable a);
      [|intros H; now injection H].
    destruct (dict_mem a kv); discriminate.
  - unfold mget; simpl.
    destruct (mget_results args kv) eqn:E; simpl; try discriminate.
    intros H; injection H as <-; now apply mget_results_raises in E.
  - unfold mset.
    assert (Hf := mset_loop_raises (zip (slice_even args) (slice_odd args)) kv).
    destruct (mset_loop (zip (slice_even args) (slice_odd args)) kv)
      as [[u|e'|] kv']; simpl in *; try discriminate.
    intros H; injection H as <-; now apply Hf.
Qed.

(** The message of a [CommandError] of the dispatcher can be encoded. *)
Lemma get_response_message (data : value) (kv kv' : dict) (m : str) :
  upper_scalar -> text_ok data = true ->
  get_response data kv = (Raise (CommandError m), kv') ->
  scalar_text m = true.
Proof.
  intros Hu Hok; unfold get_response.
  destruct (negb (is_list data) && negb (has_split data));
    [intros H; now injection H as <- _|].
  destruct (is_empty data); [intros H; now injection H as <- _|].
  destruct (first_and_rest data) as [[first args]|] eqn:Ef; [|discriminate].
  assert (Hfirst : text_ok first = true).
  { destruct data as [ | | [|c r] | [|a r] | | [|x r] | | ]; try discriminate;
      injection Ef as <- _; cbn [text_ok scalar_text forallb] in *;
      try reflexivity; apply andb_prop in Hok as [H1 _]; auto.
    now rewrite H1. }
  destruct first; cbn [py_upper]; try discriminate.
  - cbn [find_command].
    destruct (lookup (str_upper s) get_commands) as [h|] eqn:El.
    + intros H; exfalso.
      assert (Hh := get_commands_raises _ h args kv (CommandError m) El).
      rewrite H in Hh; discriminate Hh; reflexivity.
    + intros H; injection H as <- _.
      change (scalar_text (T "Command " ++ str_upper s ++ T " does not exist")
              = true).
      rewrite !scalar_text_app, str_upper_scalar by assumption; reflexivity.
  - cbn [find_command]; intros H; injection H as <- _.
    change (scalar_text (T "Command " ++ repr_bytes (bytes_upper b)
                         ++ T " does not exist") = true).
    rewrite !scalar_text_app, (ascii_scalar _ (repr_bytes_ascii _)); reflexivity.
Qed.

End Texts.

Lemma str_eqb_eq (a b : str) : str_eqb a b = true <-> a = b.
Proof.
  unfold str_eqb; destruct (list_eq_dec N.eq_dec a b); split; auto; discriminate.
Qed.

Section Dispatcher.
Context {ucd : UnicodeData}.

(** No handler of the command table, and so no call of [get_response], is
    left unfinished by the model. *)
Lemma mget_results_fuel (keys : list value) (kv : dict) :
  mget_results keys kv <> OutOfFuel.
Proof.
  induction keys as [|k r IH]; simpl; [discriminate|].
  unfold py_dict_get; destruct (hashable k); simpl; [|discriminate].
  destruct (mget_results r kv); simpl; try discriminate; auto.
Qed.

Lemma mset_loop_fuel (ps : list (value * value)) (kv : dict) :
  fst (mset_loop ps kv) <> OutOfFuel.
Proof.
  revert kv; induction ps as [|[k v] r IH]; simpl; intros kv; [discriminate|].
  unfold py_dict_setitem; destruct (hashable k); simpl; [apply IH | discriminate].
Qed.

Lemma get_commands_fuel (c : str) (h : handler) (args : list value) (kv : dict) :
  lookup c get_commands = Some h -> fst (h args kv) <> OutOfFuel.
Proof.
  unfold get_commands, lookup.
  repeat match goal with
         | |- context [if ?b then _ else _] => destruct b
         end; intros H; try discriminate; injection H as <-.
  - destruct args as [|a [|]]; simpl; try discriminate.
    unfold py_dict_get; destruct (hashable a); discriminate.
  - destruct args as [|a [|b [|]]]; simpl; try discriminate.
    unfold set, py_dict_setitem; destruct (hashable a); discriminate.
  - destruct args; simpl; discriminate.
  - destruct args as [|a [|]]; simpl; try discriminate.
    unfold delete, py_dict_contains; destruct (hashable a); [|discriminate].
    destruct (dict_mem a kv); discriminate.
  - unfold mget; simpl.
    destruct (mget_results args kv) eqn:E; simpl; try discriminate.
    now apply mget_results_fuel in E.
  - unfold mset.
    destruct (mset_loop (zip (slice_even args) (slice_odd args)) kv)
      as [[u|e|] kv'] eqn:E; simpl; try discriminate.
    assert (Hf := mset_loop_fuel (zip (slice_even args) (slice_odd args)) kv).
    rewrite E in Hf; exfalso; now apply Hf.
Qed.

Lemma get_response_fuel (data : value) (kv : dict) :
  fst (get_response data kv) <> OutOfFuel.
Proof.
  unfold get_response.
  destruct (negb (is_list data) && negb (has_split data)); [discriminate|].
  destruct (is_empty data); [discriminate|].
  destruct (first_and_rest data) as [[first args]|]; [|discriminate].
  destruct (py_upper first) as [command|e|] eqn:E; try discriminate.
  - destruct command as [c|b]; cbn [find_command]; [|discriminate].
    destruct (lookup c get_commands) as [h|] eqn:El; [|discriminate].
    now apply get_commands_fuel with (c := c).
  - destruct first; discriminate.
Qed.

Lemma after_reply_end (reply : bytes) (r : session_end * bytes * dict) :
  fst (fst (after_reply reply r)) = fst (fst r).
Proof. destruct r as [[e out] kv]; reflexivity. Qed.

Lemma connection_handler_end (fuel : nat) :
  forall sock kv,
    (length sock < fuel)%nat ->
    session_end_ok (fst (fst (connection_handler fuel sock kv))).
Proof.
  induction fuel as [|fuel IH]; intros sock kv Hlen; [lia|].
  rewrite connection_handler_S.
  destruct (decode sock) as [[data sock']|e|] eqn:E.
  - apply decode_length in E.
    assert (Hr := get_response_fuel data kv).
    destruct (get_response data kv) as [r kv']; simpl in Hr.
    assert (Hw : forall resp,
               session_end_ok
                 (fst (fst (match write_response resp with
                            | Ok out => after_reply out (connection_handler fuel sock' kv')
                            | Raise e => (Crashed e, [], kv')
                            | OutOfFuel => (Unfinished, [], kv')
                            end)))).
    { intros resp; assert (Ho := _write_outcome resp).
      unfold write_response; destruct (_write resp) as [out|e|]; simpl in Ho.
      - rewrite after_reply_end; apply IH; lia.
      - split; simpl; [discriminate|].
        intros m Hm; destruct Ho; subst; discriminate.
      - contradiction. }
    destruct r as [resp|e|]; cbv zeta; [apply Hw | | contradiction].
    destruct e; try apply Hw;
      (split; simpl; [discriminate | intros m Hm; discriminate]).
  - apply handle_request_raises in E.
    destruct e; split; simpl; try discriminate.
    intros m Hm; injection Hm as <-; now apply E.
  - now apply decode_total in E.
Qed.

(** Every session ends, and every way it can end. *)
Lemma session_end_cases (sock : bytes) (kv : dict) :
  session_end_ok (fst (fst (session sock kv))).
Proof. unfold session; apply connection_handler_end; lia. Qed.

(** C6, as the code has it.  For a request that is a list whose first
    element is text: dispatch does not depend on the case of the command
    name; an unknown command [X] raises
    [CommandError("Command X does not exist")].  A [CommandError] raised by
    the dispatcher never ends the session: it is written back as the error
    reply [-message\r\n] and the session goes on with the next request.  The
    only [CommandError] that ends a session is the decoder's, for a bad
    tag.  (The reply can always be encoded because the upper-case mapping of
    Unicode yields scalar values, [upper_scalar].) *)
Theorem dispatch_command_errors :
  (forall s1 s2 args kv,
     str_upper s1 = str_upper s2 ->
     get_response (VList (VStr s1 :: args)) kv
     = get_response (VList (VStr s2 :: args)) kv)
  /\ (forall s args kv,
        lookup (str_upper s) get_commands = None ->
        get_response (VList (VStr s :: args)) kv
        = (Raise (CommandError
                    (T "Command " ++ str_upper s ++ T " does not exist")), kv))
  /\ (forall sock data rest kv kv' m,
        upper_scalar ->
        decode sock = Ok (data, rest) ->
        get_response data kv = (Raise (CommandError m), kv') ->
        exists reply,
          encode_utf8 (T "-" ++ m ++ CRLF_text) = Ok reply
          /\ session sock kv = after_reply reply (session rest kv'))
  /\ (forall sock kv m,
        fst (fst (session sock kv)) = Crashed (CommandError m) ->
        m = T "bad request").
Proof.
  repeat split.
  - intros s1 s2 args kv H; unfold get_response; simpl; now rewrite H.
  - intros s args kv H; unfold get_response.
    cbn [is_list has_split negb andb is_empty first_and_rest py_upper
         find_command format_s].
    now rewrite H.
  - intros sock data rest kv kv' m Hu Hd Hr.
    assert (Hm : scalar_text (T "-" ++ m ++ CRLF_text) = true).
    { rewrite !scalar_text_app.
      rewrite (get_response_message data kv kv' m Hu); auto.
      now apply handle_request_text_ok in Hd. }
    destruct (utf8_encode_scalar _ Hm) as [reply Hw].
    exists reply; unfold encode_utf8; rewrite Hw; split; [reflexivity|].
    apply session_reply with (data := data) (resp := VError m); eauto.
    unfold write_response; cbn [_write]; unfold encode_utf8; now rewrite Hw.
  - intros sock kv m H; now apply (session_end_cases sock kv).
Qed.

(** C5, as the code has it.  A request that is one text is not split: the
    result of [data.split()] is dropped, the command looked up is the first
    character of the text, upper-cased, and no command has a name of one
    character; so ['GET k'] is refused with "Command G does not exist".  A
    request that is neither a list nor text or bytes is refused with
    "Argument must be list or string". *)
Theorem text_request_not_split (kv : dict) :
  get_response (VStr (T "GET k")) kv
  = (Raise (CommandError (T "Command G does not exist")), kv)
  /\ (forall c r,
        (c < 128)%N ->
        get_response (VStr (c :: r)) kv
        = (Raise (CommandError
                    (T "Command " ++ upper_cp c ++ T " does not exist")), kv))
  /\ (forall data,
        is_list data = false -> has_split data = false ->
        get_response data kv
        = (Raise (CommandError (T "Argument must be list or string")), kv)).
Proof.
  repeat split.
  - intros c r Hc; unfold get_response; simpl.
    rewrite List.app_nil_r.
    assert (Hone : exists x, upper_cp c = [x]).
    { unfold upper_cp; apply N.ltb_lt in Hc; rewrite Hc.
      destruct ((97 <=? c) && (c <=? 122))%N; eauto. }
    destruct Hone as [x ->].
    repeat match goal with
           | |- context [str_eqb ?a ?b] =>
             let E := fresh "E" in
             destruct (str_eqb a b) eqn:E;
               [apply str_eqb_eq in E; discriminate|]
           end.
    reflexivity.
  - intros data Hl Hs; unfold get_response; now rewrite Hl, Hs.
Qed.

(** The decoder never yields an [Error]. *)
Lemma handle_request_not_error (fuel : nat) :
  forall sock v rest m, handle_request fuel sock = Ok (v, rest) -> v <> VError m.
Proof.
  destruct fuel as [|fuel]; intros sock v rest m H; [discriminate|].
  destruct sock as [|a sock]; [discriminate|].
  destruct (handle_request_cases fuel a sock)
    as [E|[E|[E|[E|[E|[E|E]]]]]]; rewrite E in H; clear E; try discriminate.
  - unfold handle_simple_string in H.
    break_bind H; break_pair; injection H as <- _; discriminate.
  - unfold handle_integer in H.
    break_bind H; break_pair; break_bind H; injection H as <- _; discriminate.
  - unfold handle_binary in H.
    break_bind H; break_pair; break_bind H.
    match type of H with (if ?c then _ else _) = _ => destruct c end.
    + injection H as <- _; discriminate.
    + break_bind H; break_pair; injection H as <- _; discriminate.
  - unfold handle_array in H.
    break_bind H; break_pair; break_bind H; break_bind H; break_pair.
    injection H as <- _; discriminate.
  - unfold handle_dictionary in H.
    break_bind H; break_pair; break_bind H; break_bind H; break_pair.
    break_bind H; injection H as <- _; discriminate.
Qed.

(** C4, as the code has it.  [execute] returns what the decoder returns and
    raises no error of its own: the decoder never yields an [Error], and an
    error frame is decoded to its message as plain text, which [execute]
    returns. *)
Theorem execute_error_reply (args : list value) (sock request : bytes) :
  write_response (VTuple args) = Ok request ->
  Client.execute args sock = (request, decode sock)
  /\ forall line message rest,
       sock = "-"%char :: line ->
       read_text_line line = Ok (message, rest) ->
       Client.execute args sock = (request, Ok (VStr message, rest)).
Proof.
  intros Hw.
  assert (Hex : Client.execute args sock = (request, decode sock)).
  { unfold Client.execute; rewrite Hw; f_equal.
    destruct (decode sock) as [[resp rest]|e|] eqn:E; try reflexivity.
    cbn [bind]; destruct resp; try reflexivity.
    exfalso; exact (handle_request_not_error _ _ _ _ message E eq_refl). }
  split; [exact Hex|].
  intros line message rest -> Hl; rewrite Hex; f_equal.
  unfold decode; rewrite handle_request_error.
  unfold handle_error_message; rewrite Hl; reflexivity.
Qed.

End Dispatcher.

(** ** Lines of ASCII text, and integers in decimal *)

Lemma line_char_spec (c : codepoint) :
  line_char c = true -> (c < 128)%N /\ c <> cp_CR /\ c <> cp_LF.
Proof.
  unfold line_char; intros H.
  apply andb_prop in H as [H H3]; apply andb_prop in H as [H1 H2].
  apply N.ltb_lt in H1.
  apply negb_true_iff, N.eqb_neq in H2; apply negb_true_iff, N.eqb_neq in H3.
  auto.
Qed.

Lemma N_of_ascii_of_N (c : N) : (c < 256)%N -> N_of_ascii (ascii_of_N c) = c.
Proof. apply N_ascii_embedding. Qed.

Lemma utf8_decode_cons_ascii (a : byte) (r : bytes) :
  (N_of_ascii a <? 128)%N = true ->
  utf8_decode (a :: r) = option_map (cons (N_of_ascii a)) (utf8_decode r).
Proof. intros H; cbn [utf8_decode]; cbv zeta; now rewrite H. Qed.

Lemma utf8_decode_ascii (s : str) :
  Forall (fun c => (c < 128)%N) s -> utf8_decode (ascii_bytes s) = Some s.
Proof.
  induction 1 as [|c r Hc _ IH]; [reflexivity|].
  unfold ascii_bytes in *; cbn [map].
  rewrite utf8_decode_cons_ascii; rewrite N_of_ascii_of_N by lia.
  - now rewrite IH.
  - now apply N.ltb_lt.
Qed.

Lemma utf8_encode_ascii (s : str) :
  Forall (fun c => (c < 128)%N) s -> utf8_encode s = Some (ascii_bytes s).
Proof.
  induction 1 as [|c r Hc _ IH]; [reflexivity|].
  cbn [utf8_encode]; rewrite IH; unfold utf8_encode_cp.
  apply N.ltb_lt in Hc; rewrite Hc; reflexivity.
Qed.

Lemma line_text_ascii (s : str) : line_text s -> Forall (fun c => (c < 128)%N) s.
Proof.
  unfold line_text; rewrite forallb_forall, Forall_forall.
  intros H c Hc; now apply line_char_spec, H.
Qed.

Lemma readline_line (l rest : bytes) :
  ~ In LF l -> readline (l ++ LF :: rest) = (l ++ [LF], rest).
Proof.
  induction l as [|c l IH]; cbn [readline app]; intros H.
  - now rewrite Ascii.eqb_refl.
  - destruct (Ascii.eqb c LF) eqn:E.
    + apply Ascii.eqb_eq in E; subst; exfalso; apply H; now left.
    + rewrite IH; [reflexivity | intros Hin; apply H; now right].
Qed.

Lemma rstrip_crlf_line (s : str) : line_text s -> rstrip_crlf (s ++ CRLF_text) = s.
Proof.
  unfold line_text; induction s as [|c r IH]; [reflexivity|].
  cbn [forallb]; intros H; apply andb_prop in H as [Hc Hr].
  cbn [app rstrip_crlf]; rewrite (IH Hr).
  apply line_char_spec in Hc as [_ [H1 H2]].
  apply N.eqb_neq in H1; apply N.eqb_neq in H2.
  destruct r; [now rewrite H1, H2 | reflexivity].
Qed.

Lemma ascii_bytes_no_LF (s : str) : line_text s -> ~ In LF (ascii_bytes s ++ [CR]).
Proof.
  intros H Hin; apply in_app_or in Hin as [Hin | [Hin | []]]; [|discriminate].
  unfold ascii_bytes in Hin; apply in_map_iff in Hin as [c [Hc Hin]].
  unfold line_text in H; rewrite forallb_forall in H.
  apply H, line_char_spec in Hin as [H1 [_ H3]].
  apply H3; rewrite <- (N_of_ascii_of_N c) by lia; now rewrite Hc.
Qed.

(** Reading back a line of text. *)
Lemma read_text_line_line (s : str) (rest : bytes) :
  line_text s -> read_text_line (ascii_bytes s ++ CRLF ++ rest) = Ok (s, rest).
Proof.
  intros H; unfold read_text_line.
  change (ascii_bytes s ++ CRLF ++ rest)
    with (ascii_bytes s ++ [CR] ++ LF :: rest).
  rewrite app_assoc, readline_line by now apply ascii_bytes_no_LF.
  rewrite <- !app_assoc.
  change (ascii_bytes s ++ [CR] ++ [LF]) with (ascii_bytes s ++ ascii_bytes CRLF_text).
  unfold ascii_bytes; rewrite <- map_app; fold (ascii_bytes (s ++ CRLF_text)).
  unfold decode_utf8; rewrite utf8_decode_ascii.
  - simpl; now rewrite rstrip_crlf_line.
  - apply Forall_app; split; [now apply line_text_ascii|].
    repeat constructor.
Qed.

(** Writing a line of text. *)
Lemma encode_utf8_line (tag : codepoint) (s : str) :
  (tag < 128)%N -> line_text s ->
  encode_utf8 (tag :: s ++ CRLF_text) = Ok (ascii_of_N tag :: ascii_bytes s ++ CRLF).
Proof.
  intros Ht Hs; unfold encode_utf8; rewrite utf8_encode_ascii.
  - unfold ascii_bytes; cbn [map]; now rewrite map_app.
  - constructor; [assumption|].
    apply Forall_app; split; [now apply line_text_ascii | repeat constructor].
Qed.

(** *** Decimal digits *)

Lemma uint_val_of_uint_acc (d : Decimal.uint) :
  forall acc, Z.pos (Pos.of_uint_acc d acc) = uint_val d (Z.pos acc).
Proof.
  induction d; intros acc; cbn [Pos.of_uint_acc uint_val];
    try reflexivity; rewrite IHd; f_equal; lia.
Qed.

Lemma uint_val_of_uint (d : Decimal.uint) : Z.of_N (Pos.of_uint d) = uint_val d 0.
Proof.
  induction d; cbn [Pos.of_uint uint_val]; try reflexivity; try exact IHd;
    cbn [Z.of_N]; rewrite uint_val_of_uint_acc; reflexivity.
Qed.

Lemma scan_digits_uint (d : Decimal.uint) :
  forall acc, scan_digits (uint_str d) acc = Some (uint_val d acc, []).
Proof.
  induction d; intros acc; cbn [uint_str uint_val]; try reflexivity;
    (cbn [scan_digits]; cbv beta iota zeta;
     match goal with
     | |- (if is_digit ?c then _ else _) = _ =>
       change (is_digit c) with true; cbv iota
     end;
     rewrite IHd; reflexivity).
Qed.

Lemma uint_str_line (d : Decimal.uint) : line_text (uint_str d).
Proof.
  unfold line_text; induction d; cbn [uint_str forallb]; try reflexivity;
    rewrite IHd; reflexivity.
Qed.

Lemma str_of_int_line (n : Z) : line_text (str_of_int n).
Proof.
  unfold str_of_int; destruct (Z.to_int n) as [d|d].
  - apply uint_str_line.
  - unfold line_text; cbn [forallb]; rewrite (uint_str_line d); reflexivity.
Qed.

Section Integers.
Context {ucd : UnicodeData}.

Lemma to_ascii_digits_ascii (s : str) :
  Forall (fun c => (c < 128)%N) s -> to_ascii_digits s = Some s.
Proof.
  induction 1 as [|c r Hc _ IH]; [reflexivity|].
  cbn [to_ascii_digits]; rewrite IH; unfold to_ascii_cp.
  apply N.ltb_lt in Hc; now rewrite Hc.
Qed.

(** Digits that start a text are read as the number they write. *)
Lemma parse_int_uint (d : Decimal.uint) :
  d <> Decimal.Nil -> parse_int (uint_str d) = Some (uint_val d 0).
Proof.
  intros Hd; destruct d; try contradiction;
    unfold parse_int; cbn [uint_str skip_spaces];
    match goal with
    | |- context [is_space ?c] => change (is_space c) with false; cbv iota
    end;
    match goal with
    | |- context [(?c =? cp_minus)%N] =>
      change (c =? cp_minus)%N with false;
      change (c =? cp_plus)%N with false; cbv iota
    end;
    match goal with
    | |- context [is_digit ?c] => change (is_digit c) with true; cbv iota
    end;
    rewrite scan_digits_uint; reflexivity.
Qed.

Lemma parse_int_neg_uint (d : Decimal.uint) :
  d <> Decimal.Nil -> parse_int (cp_minus :: uint_str d) = Some (- uint_val d 0).
Proof.
  intros Hd; destruct d; try contradiction;
    unfold parse_int; cbn [uint_str skip_spaces];
    change (is_space cp_minus) with false; cbv iota;
    change (cp_minus =? cp_minus)%N with true; cbv iota;
    match goal with
    | |- context [is_digit ?c] => change (is_digit c) with true; cbv iota
    end;
    rewrite scan_digits_uint; reflexivity.
Qed.

Lemma pos_to_uint_not_nil (p : positive) : Pos.to_uint p <> Decimal.Nil.
Proof.
  intros H; assert (E := DecimalPos.Unsigned.of_to p).
  rewrite H in E; discriminate.
Qed.

Lemma parse_int_str_of_int (n : Z) : parse_int (str_of_int n) = Some n.
Proof.
  unfold str_of_int; assert (E := DecimalZ.of_to n).
  destruct n as [|p|p]; cbn [Z.to_int] in *.
  - reflexivity.
  - rewrite parse_int_uint by apply pos_to_uint_not_nil.
    cbn [Z.of_int] in E; unfold Z.of_uint in E.
    now rewrite <- uint_val_of_uint, E.
  - rewrite parse_int_neg_uint by apply pos_to_uint_not_nil.
    cbn [Z.of_int] in E; unfold Z.of_uint in E.
    rewrite <- uint_val_of_uint; f_equal; lia.
Qed.

Lemma py_int_str_of_int (n : Z) : py_int (str_of_int n) = Ok n.
Proof.
  unfold py_int.
  rewrite to_ascii_digits_ascii by apply line_text_ascii, str_of_int_line.
  now rewrite parse_int_str_of_int.
Qed.

(** A header line read back: the integer it carries. *)
Lemma read_int_line (n : Z) (rest : bytes) :
  read_text_line (int_line n ++ rest) = Ok (str_of_int n, rest).
Proof.
  unfold int_line; rewrite <- app_assoc.
  apply read_text_line_line, str_of_int_line.
Qed.

End Integers.

(** ** The frames of a map *)

Lemma entry_frames_cons (k x : value) (r : list (value * value)) :
  entry_frames ((k, x) :: r) = k :: x :: entry_frames r.
Proof. reflexivity. Qed.

Lemma zip_entry_frames (d : list (value * value)) :
  zip (slice_even (entry_frames d)) (slice_odd (entry_frames d)) = d.
Proof.
  unfold zip; induction d as [|[k x] r IH]; [reflexivity|].
  rewrite entry_frames_cons; cbn [slice_even slice_odd combine].
  now f_equal.
Qed.

Lemma entry_frames_length (d : list (value * value)) :
  length (entry_frames d) = (2 * length d)%nat.
Proof.
  induction d as [|[k x] r IH]; [reflexivity|].
  rewrite entry_frames_cons; cbn [length]; rewrite IH; lia.
Qed.

Lemma dict_mem_false_in (q k v : value) (d : dict) :
  dict_mem q d = false -> In (k, v) d -> key_eqb k q = false.
Proof.
  unfold dict_mem; induction d as [|[e x] r IH]; cbn [dict_get In]; [tauto|].
  intros H [Hin|Hin].
  - injection Hin as -> ->; destruct (key_eqb k q); [discriminate | reflexivity].
  - destruct (key_eqb e q); [discriminate | now apply IH].
Qed.

Lemma dict_set_absent (k v : value) (d : dict) :
  dict_mem k d = false -> dict_set k v d = d ++ [(k, v)].
Proof.
  unfold dict_mem; induction d as [|[e x] r IH]; cbn [dict_get dict_set app];
    [reflexivity|].
  destruct (key_eqb e k); [discriminate|]; intros H; now rewrite IH.
Qed.

Lemma dict_wf_middle (acc r : dict) (k v : value) :
  dict_wf (acc ++ (k, v) :: r) = true ->
  hashable k = true /\ dict_mem k acc = false.
Proof.
  induction acc as [|[e x] acc IH]; cbn [app dict_wf]; intros H.
  - apply andb_prop in H as [H _]; apply andb_prop in H as [H _]; auto.
  - apply andb_prop in H as [H Hwf]; apply andb_prop in H as [_ He].
    apply negb_true_iff in He.
    destruct (IH Hwf) as [Hk Hm]; split; [assumption|].
    assert (Hke : key_eqb k e = false).
    { apply (dict_mem_false_in e k v _ He), in_or_app; right; now left. }
    unfold dict_mem in *; cbn [dict_get]; now rewrite key_eqb_sym, Hke.
Qed.

Lemma dict_of_pairs_wf (ps : list (value * value)) :
  forall acc, dict_wf (acc ++ ps) = true -> dict_of_pairs ps acc = Ok (acc ++ ps).
Proof.
  induction ps as [|[k v] r IH]; intros acc H; cbn [dict_of_pairs].
  - now rewrite List.app_nil_r.
  - destruct (dict_wf_middle acc r k v H) as [Hk Hm].
    rewrite Hk, dict_set_absent by assumption.
    rewrite IH; rewrite <- app_assoc; [reflexivity | exact H].
Qed.

(** ** The decoder reads a prefix of the stream *)

Section Prefix.
Context {ucd : UnicodeData}.

Lemma readline_prefix (sock l r : bytes) : readline sock = (l, r) -> sock = l ++ r.
Proof.
  revert l r; induction sock as [|c s IH]; simpl; intros l r H.
  - now injection H as <- <-.
  - destruct (Ascii.eqb c LF).
    + now injection H as <- <-.
    + destruct (readline s) as [l' r']; injection H as <- <-.
      simpl; f_equal; now apply IH.
Qed.

Lemma read_text_line_prefix (sock rest : bytes) (s : str) :
  read_text_line sock = Ok (s, rest) -> exists line, sock = line ++ rest.
Proof.
  unfold read_text_line; destruct (readline sock) as [l r] eqn:E; intros H.
  break_bind H; injection H as _ <-.
  exists l; now apply readline_prefix.
Qed.

Lemma read_prefix (n : Z) (sock data rest : bytes) :
  read n sock = Ok (data, rest) -> sock = data ++ rest.
Proof.
  unfold read; destruct (n <? -1); [discriminate|].
  destruct (n =? -1); intros H; injection H as <- <-.
  - now rewrite List.app_nil_r.
  - now rewrite firstn_skipn.
Qed.

Lemma read_frames_prefix request (n : nat) :
  (forall s v r, request s = Ok (v, r) -> exists f, s = f ++ r) ->
  forall sock vs rest,
    read_frames request n sock = Ok (vs, rest) -> exists f, sock = f ++ rest.
Proof.
  intros Hreq; induction n as [|n IH]; simpl; intros sock vs rest H.
  - injection H as _ <-; now exists [].
  - destruct (request sock) as [[v s']| |] eqn:E; simpl in H; try discriminate.
    destruct (read_frames request n s') as [[vs' s'']| |] eqn:E'; simpl in H;
      try discriminate.
    injection H as _ <-.
    apply Hreq in E as [f1 ->]; apply IH in E' as [f2 ->].
    exists (f1 ++ f2); now rewrite app_assoc.
Qed.

Lemma handle_request_prefix (fuel : nat) :
  forall sock v rest,
    handle_request fuel sock = Ok (v, rest) -> exists f, sock = f ++ rest.
Proof.
  induction fuel as [|fuel IH]; intros sock v rest H; [discriminate|].
  destruct sock as [|a sock]; [discriminate|].
  assert (Hcons : (exists f, sock = f ++ rest) -> exists f, a :: sock = f ++ rest).
  { intros [f ->]; now exists (a :: f). }
  apply Hcons.
  destruct (handle_request_cases fuel a sock)
    as [E|[E|[E|[E|[E|[E|E]]]]]]; rewrite E in H; clear E; try discriminate.
  - unfold handle_simple_string in H.
    destruct (read_text_line sock) as [[s r]| |] eqn:E; simpl in H; try discriminate.
    injection H as _ <-; now apply read_text_line_prefix in E.
  - unfold handle_integer in H.
    destruct (read_text_line sock) as [[s r]| |] eqn:E; simpl in H; try discriminate.
    destruct (py_int s); simpl in H; try discriminate.
    injection H as _ <-; now apply read_text_line_prefix in E.
  - unfold handle_binary in H.
    destruct (read_text_line sock) as [[s r]| |] eqn:E; simpl in H; try discriminate.
    apply read_text_line_prefix in E as [l ->].
    destruct (py_int s) as [n| |]; simpl in H; try discriminate.
    destruct (n =? -1); [injection H as _ <-; eauto|].
    destruct (read (n + 2) r) as [[d r']| |] eqn:E'; simpl in H; try discriminate.
    injection H as _ <-; apply read_prefix in E' as ->.
    exists (l ++ d); now rewrite app_assoc.
  - unfold handle_array in H.
    destruct (read_text_line sock) as [[s r]| |] eqn:E; simpl in H; try discriminate.
    apply read_text_line_prefix in E as [l ->].
    destruct (py_int s) as [n| |]; simpl in H; try discriminate.
    destruct (read_frames (handle_request fuel) (Z.to_nat n) r)
      as [[vs r']| |] eqn:E'; simpl in H; try discriminate.
    injection H as _ <-.
    apply (read_frames_prefix _ _ IH) in E' as [f ->].
    exists (l ++ f); now rewrite app_assoc.
  - unfold handle_dictionary in H.
    destruct (read_text_line sock) as [[s r]| |] eqn:E; simpl in H; try discriminate.
    apply read_text_line_prefix in E as [l ->].
    destruct (py_int s) as [n| |]; simpl in H; try discriminate.
    destruct (read_frames (handle_request fuel) (Z.to_nat (n * 2)) r)
      as [[vs r']| |] eqn:E'; simpl in H; try discriminate.
    destruct (dict_of_pairs (zip (slice_even vs) (slice_odd vs)) []);
      simpl in H; try discriminate.
    injection H as _ <-.
    apply (read_frames_prefix _ _ IH) in E' as [f ->].
    exists (l ++ f); now rewrite app_assoc.
Qed.

(** X1.  What [handle_request] returns as the rest of the stream is the
    stream without a first part, which is not empty: a frame is read from the
    head of the stream, takes at least its tag, and what follows it is left
    as it was. *)
Theorem decode_reads_a_prefix (sock rest : bytes) (v : value) :
  decode sock = Ok (v, rest) ->
  exists frame, frame <> [] /\ sock = frame ++ rest.
Proof.
  intros H; assert (Hl := decode_length _ _ _ H).
  apply handle_request_prefix in H as [f ->].
  exists f; split; [|reflexivity].
  intros ->; simpl in Hl; lia.
Qed.

(** ** Tags *)

Lemma utf8_decode_high (a : byte) :
  (128 <= N_of_ascii a)%N -> utf8_decode [a] = None.
Proof.
  intros H; cbn [utf8_decode]; cbv zeta.
  destruct (N_of_ascii a <? 128)%N eqn:E; [apply N.ltb_lt in E; lia|].
  repeat match goal with
         | |- (if ?c then _ else _) = _ => destruct c; try reflexivity
         end.
Qed.

(** X2.  A first byte that is not one of the six tags is refused: with
    [CommandError('bad request')] when it is ASCII, with [UnicodeDecodeError]
    otherwise; the session ends there, nothing is written and the store is
    as it was. *)
Theorem bad_tag (a : byte) (sock : bytes) (kv : dict) :
  ~ In a tags ->
  let e := if (N_of_ascii a <? 128)%N
           then CommandError (T "bad request") else UnicodeDecodeError in
  decode (a :: sock) = Raise e
  /\ session (a :: sock) kv = (Crashed e, [], kv).
Proof.
  intros Hin e.
  assert (Hd : decode (a :: sock) = Raise e).
  { subst e; unfold decode; cbn [handle_request length].
    destruct (N_of_ascii a <? 128)%N eqn:E.
    - unfold decode_utf8; rewrite utf8_decode_cons_ascii by assumption.
      cbn [utf8_decode option_map bind].
      repeat match goal with
             | |- context [str_eqb ?x ?y] =>
               let Ex := fresh "E" in
               destruct (str_eqb x y) eqn:Ex;
                 [exfalso; apply str_eqb_eq in Ex; injection Ex as Ex;
                  apply Hin; rewrite <- (ascii_N_embedding a), Ex; simpl; tauto|]
             end.
      reflexivity.
    - apply N.ltb_ge in E; unfold decode_utf8.
      now rewrite utf8_decode_high. }
  split; [exact Hd|].
  unfold session; rewrite connection_handler_S, Hd.
  subst e; destruct (N_of_ascii a <? 128)%N; reflexivity.
Qed.

End Prefix.

(** ** Well-formed frames *)

Lemma drop_last2_app (p : bytes) (t1 t2 : byte) : drop_last2 (p ++ [t1; t2]) = p.
Proof.
  unfold drop_last2; rewrite length_app; cbn [length].
  replace (length p + 2 - 2)%nat with (length p + 0)%nat by lia.
  now rewrite firstn_app_2, List.app_nil_r.
Qed.

Lemma read_exact (p rest : bytes) :
  read (Z.of_nat (length p)) (p ++ rest) = Ok (p, rest).
Proof.
  unfold read.
  destruct (Z.of_nat (length p) <? -1) eqn:E1; [apply Z.ltb_lt in E1; lia|].
  destruct (Z.of_nat (length p) =? -1) eqn:E2; [apply Z.eqb_eq in E2; lia|].
  rewrite Nat2Z.id.
  replace (length p) with (length p + 0)%nat at 1 2 by lia.
  rewrite firstn_app_2, skipn_app, skipn_all2, Nat.add_0_r by lia.
  replace (length p - length p)%nat with 0%nat by lia.
  now rewrite List.app_nil_r.
Qed.

Section Frames.
Context {ucd : UnicodeData}.

Lemma frame_simple (s : str) : line_text s -> frame_of (VStr s) (simple_frame s).
Proof.
  intros Hs [|fuel] rest Hlen; [simpl in Hlen; lia|].
  unfold simple_frame; cbn [app]; rewrite <- app_assoc.
  rewrite handle_request_simple; unfold handle_simple_string.
  now rewrite read_text_line_line.
Qed.

Lemma frame_error (s : str) :
  line_text s -> frame_of (VStr s) (error_reply s).
Proof.
  intros Hs [|fuel] rest Hlen; [simpl in Hlen; lia|].
  unfold error_reply; cbn [app]; rewrite <- app_assoc.
  rewrite handle_request_error; unfold handle_error_message.
  now rewrite read_text_line_line.
Qed.

(** X3.  A line [+s\r\n], for a text [s] of ASCII characters without CR or
    LF, is a frame of the text [s]; so is the line [-s\r\n]: an error frame
    is read as the same plain text, not as an [Error]. *)
Theorem simple_string_frame (s : str) :
  line_text s ->
  frame_of (VStr s) (simple_frame s) /\ frame_of (VStr s) (error_reply s).
Proof. intros Hs; split; [now apply frame_simple | now apply frame_error]. Qed.

Lemma frame_bulk_any (p : bytes) (t1 t2 : byte) :
  frame_of (VBytes p)
           ("$"%char :: int_line (Z.of_nat (length p)) ++ p ++ [t1; t2]).
Proof.
  intros [|fuel] rest Hlen; [simpl in Hlen; lia|].
  cbn [app]; rewrite handle_request_binary; unfold handle_binary.
  rewrite <- app_assoc, read_int_line; cbn [bind].
  rewrite py_int_str_of_int; cbn [bind].
  destruct (Z.of_nat (length p) =? -1) eqn:E; [apply Z.eqb_eq in E; lia|].
  replace (Z.of_nat (length p) + 2) with (Z.of_nat (length (p ++ [t1; t2])))
    by (rewrite length_app; simpl; lia).
  rewrite <- app_assoc, (app_assoc p), read_exact; cbn [bind].
  now rewrite drop_last2_app.
Qed.

(** X4.  A bulk string is read by its length alone: [$n\r\n], then [n]
    bytes of any value (CR and LF included), then any two bytes, is a frame
    of those [n] bytes; the two bytes that close it are not looked at. *)
Theorem bulk_string_frame (p : bytes) (t1 t2 : byte) :
  frame_of (VBytes p)
           ("$"%char :: int_line (Z.of_nat (length p)) ++ p ++ [t1; t2]).
Proof. apply frame_bulk_any. Qed.

(** *** Arrays and maps *)

Lemma decode_frame (v : value) (bs rest : bytes) :
  frame_of v bs -> decode (bs ++ rest) = Ok (v, rest).
Proof. intros H; unfold decode; apply H; rewrite length_app; lia. Qed.

End Frames.

(** ** Maps *)

Lemma dict_get_congr (a b : value) (d : dict) :
  key_eqb a b = true -> dict_get a d = dict_get b d.
Proof.
  intros H; induction d as [|[e x] r IH]; simpl; auto.
  rewrite (key_eqb_sym e a), (key_eqb_congr a b e H), (key_eqb_sym b e).
  now rewrite IH.
Qed.

Lemma dict_get_set (k k0 v0 : value) (d : dict) :
  hashable k0 = true ->
  dict_get k (dict_set k0 v0 d) = if key_eqb k0 k then Some v0 else dict_get k d.
Proof.
  intros Hk0; destruct (key_eqb k0 k) eqn:E.
  - rewrite <- (dict_get_congr k0 k) by assumption.
    now apply dict_get_set_same.
  - apply dict_get_set_other; now rewrite key_eqb_sym.
Qed.

Lemma dict_get_app (k : value) (a b : dict) :
  dict_get k (a ++ b)
  = match dict_get k a with Some v => Some v | None => dict_get k b end.
Proof.
  induction a as [|[e x] r IH]; simpl; auto.
  destruct (key_eqb e k); auto.
Qed.

Lemma dict_of_pairs_get (ps : list (value * value)) :
  forall acc d k,
    dict_of_pairs ps acc = Ok d ->
    dict_get k d
    = match dict_get k (rev ps) with Some v => Some v | None => dict_get k acc end.
Proof.
  induction ps as [|[k0 v0] r IH]; intros acc d k H; cbn [dict_of_pairs] in H.
  - now injection H as <-.
  - destruct (hashable k0) eqn:Hk0; [|discriminate].
    rewrite (IH _ _ k H); cbn [rev]; rewrite dict_get_app, dict_get_set by assumption.
    cbn [dict_get]; destruct (dict_get k (rev r)); [reflexivity|].
    destruct (key_eqb k0 k); reflexivity.
Qed.

Lemma dict_of_pairs_wf_acc (ps : list (value * value)) :
  forall acc d, dict_of_pairs ps acc = Ok d -> dict_wf acc = true -> dict_wf d = true.
Proof.
  induction ps as [|[k0 v0] r IH]; intros acc d H Hacc; cbn [dict_of_pairs] in H.
  - now injection H as <-.
  - destruct (hashable k0) eqn:Hk0; [|discriminate].
    apply (IH _ _ H); now apply dict_set_wf.
Qed.

Lemma dict_of_pairs_unhashable (ps : list (value * value)) :
  forall acc, forallb hashable (map fst ps) = false ->
              dict_of_pairs ps acc = Raise TypeError.
Proof.
  induction ps as [|[k0 v0] r IH]; intros acc H; cbn in H; [discriminate|].
  cbn [dict_of_pairs]; destruct (hashable k0); [now apply IH | reflexivity].
Qed.

Lemma dict_of_pairs_hashable (ps : list (value * value)) :
  forall acc, forallb hashable (map fst ps) = true ->
              exists d, dict_of_pairs ps acc = Ok d.
Proof.
  induction ps as [|[k0 v0] r IH]; intros acc H; cbn in H; cbn [dict_of_pairs]; eauto.
  apply andb_prop in H as [-> Hr]; now apply IH.
Qed.

(** ** What the decoder yields *)

Lemma decoded_ok_dict (d : list (value * value)) :
  decoded_ok (VDict d) = dict_wf d && forallb entry_ok d.
Proof.
  cbn [decoded_ok]; f_equal.
  induction d as [|[k x] r IH]; [reflexivity|].
  cbn [forallb]; unfold entry_ok at 1; cbn [fst snd]; now rewrite IH.
Qed.

Lemma pairs_of_ok (l : list value) :
  forallb decoded_ok l = true -> forallb entry_ok (pairs_of l) = true.
Proof.
  assert (H : forall n (l : list value), (length l <= n)%nat ->
             forallb decoded_ok l = true -> forallb entry_ok (pairs_of l) = true).
  { induction n as [|n IH]; intros [|a [|b r]] Hl Hok; simpl in *; auto; try lia.
    apply andb_prop in Hok as [Ha Hok]; apply andb_prop in Hok as [Hb Hr].
    unfold entry_ok at 1; cbn [fst snd]; rewrite Ha, Hb; apply IH; [lia | assumption]. }
  apply (H (length l)); lia.
Qed.

Lemma dict_set_ok (k v : value) (d : dict) :
  decoded_ok v = true -> decoded_ok k = true ->
  forallb entry_ok d = true -> forallb entry_ok (dict_set k v d) = true.
Proof.
  intros Hv Hk; induction d as [|[e x] r IH]; cbn [dict_set forallb]; intros H.
  - unfold entry_ok; cbn [fst snd]; now rewrite Hk, Hv.
  - apply andb_prop in H as [He Hr]; unfold entry_ok in He; cbn [fst snd] in He.
    apply andb_prop in He as [He Hx].
    destruct (key_eqb e k); cbn [forallb]; unfold entry_ok at 1; cbn [fst snd].
    + now rewrite He, Hv, Hr.
    + now rewrite He, Hx, IH.
Qed.

Lemma dict_of_pairs_ok (ps : list (value * value)) :
  forall acc d,
    dict_of_pairs ps acc = Ok d ->
    forallb entry_ok ps = true -> forallb entry_ok acc = true ->
    forallb entry_ok d = true.
Proof.
  induction ps as [|[k v] r IH]; intros acc d H Hps Hacc; cbn [dict_of_pairs] in H.
  - now injection H as <-.
  - destruct (hashable k); [|discriminate].
    cbn [forallb] in Hps; apply andb_prop in Hps as [Hkv Hr].
    unfold entry_ok in Hkv; cbn [fst snd] in Hkv; apply andb_prop in Hkv as [Hk Hv].
    apply (IH _ _ H Hr); now apply dict_set_ok.
Qed.

Section Decoded.
Context {ucd : UnicodeData}.

Lemma read_frames_all (P : value -> bool) request (n : nat) :
  (forall s v r, request s = Ok (v, r) -> P v = true) ->
  forall sock vs rest,
    read_frames request n sock = Ok (vs, rest) -> forallb P vs = true.
Proof.
  intros Hreq; induction n as [|n IH]; simpl; intros sock vs rest H.
  - now injection H as <- _.
  - destruct (request sock) as [[v s']| |] eqn:E; simpl in H; try discriminate.
    destruct (read_frames request n s') as [[vs' s'']| |] eqn:E'; simpl in H;
      try discriminate.
    injection H as <- _; cbn [forallb].
    rewrite (Hreq _ _ _ E), (IH _ _ _ E'); reflexivity.
Qed.

Lemma handle_request_decoded_ok (fuel : nat) :
  forall sock v rest, handle_request fuel sock = Ok (v, rest) -> decoded_ok v = true.
Proof.
  induction fuel as [|fuel IH]; intros sock v rest H; [discriminate|].
  destruct sock as [|a sock]; [discriminate|].
  destruct (handle_request_cases fuel a sock)
    as [E|[E|[E|[E|[E|[E|E]]]]]]; rewrite E in H; clear E; try discriminate.
  - unfold handle_simple_string in H.
    destruct (read_text_line sock) as [[s r]| |] eqn:E; simpl in H; try discriminate.
    injection H as <- _; now apply read_text_line_scalar in E.
  - unfold handle_integer in H.
    destruct (read_text_line sock) as [[s r]| |] eqn:E; simpl in H; try discriminate.
    destruct (py_int s); simpl in H; try discriminate.
    now injection H as <- _.
  - unfold handle_binary in H.
    destruct (read_text_line sock) as [[s r]| |] eqn:E; simpl in H; try discriminate.
    destruct (py_int s) as [n| |]; simpl in H; try discriminate.
    destruct (n =? -1); [now injection H as <- _|].
    destruct (read (n + 2) r) as [[d r']| |]; simpl in H; try discriminate.
    now injection H as <- _.
  - unfold handle_array in H.
    destruct (read_text_line sock) as [[s r]| |] eqn:E; simpl in H; try discriminate.
    destruct (py_int s) as [n| |]; simpl in H; try discriminate.
    destruct (read_frames (handle_request fuel) (Z.to_nat n) r)
      as [[vs r']| |] eqn:E'; simpl in H; try discriminate.
    injection H as <- _; cbn [decoded_ok].
    now apply (read_frames_all decoded_ok _ _ IH) in E'.
  - unfold handle_dictionary in H.
    destruct (read_text_line sock) as [[s r]| |] eqn:E; simpl in H; try discriminate.
    destruct (py_int s) as [n| |]; simpl in H; try discriminate.
    destruct (read_frames (handle_request fuel) (Z.to_nat (n * 2)) r)
      as [[vs r']| |] eqn:E'; simpl in H; try discriminate.
    destruct (dict_of_pairs (zip (slice_even vs) (slice_odd vs)) [])
      as [d| |] eqn:Ed; simpl in H; try discriminate.
    injection H as <- _; rewrite decoded_ok_dict.
    apply (read_frames_all decoded_ok _ _ IH) in E'.
    rewrite zip_slices in Ed.
    rewrite (dict_of_pairs_wf_acc _ _ _ Ed eq_refl).
    rewrite (dict_of_pairs_ok _ _ _ Ed); auto using pairs_of_ok.
Qed.

(** X10.  Whatever the bytes, a value the decoder returns is made of
    [None], integers, bytes, texts of Unicode scalar values, lists, and
    dictionaries whose keys are hashable and pairwise different; it is never
    an [Error] and never a tuple, at any depth. *)
Theorem decoded_values (sock rest : bytes) (v : value) :
  decode sock = Ok (v, rest) -> decoded_ok v = true.
Proof. apply handle_request_decoded_ok. Qed.

End Decoded.

(** ** What can be written *)

Lemma forallb_Forall_lt (s : str) :
  forallb (fun c => (c <? 128)%N) s = true -> Forall (fun c => (c < 128)%N) s.
Proof.
  rewrite forallb_forall, Forall_forall; intros H c Hc; now apply N.ltb_lt, H.
Qed.

(** The frame [_write] produces for a bytes object. *)
Lemma encode_bulk (b : bytes) :
  encode_utf8 (T "$" ++ str_of_int (Z.of_nat (length b)) ++ CRLF_text
               ++ repr_bytes b ++ CRLF_text)
  = Ok ("$"%char :: int_line (Z.of_nat (length b))
        ++ ascii_bytes (repr_bytes b) ++ CRLF).
Proof.
  unfold encode_utf8; rewrite utf8_encode_ascii.
  - unfold int_line, ascii_bytes; rewrite !map_app, <- !app_assoc; reflexivity.
  - repeat (apply Forall_app; split); try (repeat constructor; fail).
    + apply line_text_ascii, str_of_int_line.
    + apply forallb_Forall_lt, repr_bytes_ascii.
Qed.

Lemma _write_bytes (b : bytes) :
  _write (VBytes b)
  = Ok ("$"%char :: int_line (Z.of_nat (length b))
        ++ ascii_bytes (repr_bytes b) ++ CRLF).
Proof. apply encode_bulk. Qed.

Lemma _write_int (n : Z) : _write (VInt n) = Ok (":"%char :: int_line n).
Proof. apply (encode_utf8_line 58%N); [reflexivity | apply str_of_int_line]. Qed.

Lemma write_header (tag : codepoint) (n : nat) :
  (tag < 128)%N ->
  encode_utf8 (tag :: str_of_int (Z.of_nat n) ++ CRLF_text)
  = Ok (ascii_of_N tag :: int_line (Z.of_nat n)).
Proof. intros H; apply encode_utf8_line; [assumption | apply str_of_int_line]. Qed.

Lemma write_items_written (l : list value) :
  Forall (fun x => decoded_ok x = true -> written x) l ->
  forallb decoded_ok l = true ->
  if existsb has_none l then write_items l = Raise TypeError
  else exists body, write_items l = Ok body.
Proof.
  induction 1 as [|x r Hx _ IH]; cbn [forallb existsb write_items]; intros Hok.
  - now exists [].
  - apply andb_prop in Hok as [Hox Hor].
    specialize (Hx Hox); specialize (IH Hor); unfold written in Hx.
    fold write_items.
    destruct (has_none x); cbn [orb].
    + now rewrite Hx.
    + destruct Hx as [a ->]; cbn [bind].
      destruct (existsb has_none r).
      * now rewrite IH.
      * destruct IH as [b ->]; cbn [bind]; eauto.
Qed.

Lemma has_none_dict (d : list (value * value)) :
  has_none (VDict d) = existsb (fun e => has_none (fst e) || has_none (snd e)) d.
Proof.
  cbn [has_none]; induction d as [|[k x] r IH]; [reflexivity|].
  cbn [existsb fst snd]; now rewrite IH.
Qed.

Lemma write_entries_written (d : list (value * value)) :
  Forall (fun e => (decoded_ok (fst e) = true -> written (fst e))
                   /\ (decoded_ok (snd e) = true -> written (snd e))) d ->
  forallb entry_ok d = true ->
  if existsb (fun e => has_none (fst e) || has_none (snd e)) d
  then write_entries d = Raise TypeError
  else exists body, write_entries d = Ok body.
Proof.
  induction 1 as [|[k x] r [Hk Hx] _ IH]; cbn [forallb existsb write_entries];
    intros Hok.
  - now exists [].
  - apply andb_prop in Hok as [Hoe Hor].
    unfold entry_ok in Hoe; cbn [fst snd] in *; apply andb_prop in Hoe as [Hok Hox].
    specialize (Hk Hok); specialize (Hx Hox); specialize (IH Hor).
    unfold written in Hk, Hx; fold write_entries.
    destruct (has_none k); cbn [orb]; [now rewrite Hk|].
    destruct Hk as [a ->]; cbn [bind].
    destruct (has_none x); cbn [orb]; [now rewrite Hx|].
    destruct Hx as [b ->]; cbn [bind].
    destruct (existsb _ r).
    + now rewrite IH.
    + destruct IH as [c ->]; cbn [bind]; eauto.
Qed.

Lemma decoded_written (v : value) : decoded_ok v = true -> written v.
Proof.
  induction v as [ | n | s | b | m | l IH | l IH | d IH ] using value_nested_ind;
    intros Hok; unfold written; try discriminate.
  - reflexivity.
  - cbn [has_none]; rewrite _write_int; eauto.
  - cbn [has_none _write decoded_ok] in *.
    destruct (utf8_encode_scalar s Hok) as [b Hb].
    unfold encode_utf8 at 1; rewrite Hb; cbn [bind].
    fold encode_utf8; rewrite encode_bulk; eauto.
  - cbn [has_none]; rewrite _write_bytes; eauto.
  - cbn [has_none decoded_ok] in *; rewrite _write_list.
    change (T "*") with [42%N]; cbn [app].
    rewrite write_header by reflexivity; cbn [bind].
    assert (H := write_items_written l IH Hok).
    destruct (existsb has_none l); [now rewrite H|].
    destruct H as [body ->]; cbn [bind]; eauto.
  - rewrite decoded_ok_dict in Hok; apply andb_prop in Hok as [_ Hok].
    rewrite has_none_dict, _write_dict.
    change (T "%") with [37%N]; cbn [app].
    rewrite write_header by reflexivity; cbn [bind].
    assert (H := write_entries_written d IH Hok).
    destruct (existsb _ d); [now rewrite H|].
    destruct H as [body ->]; cbn [bind]; eauto.
Qed.

Section Written.
Context {ucd : UnicodeData}.

(** X11.  A value that was decoded can be written back unless it is or
    contains [None]: then, and only then, writing it raises [TypeError]; no
    other exception is possible. *)
Theorem decoded_value_written (sock rest : bytes) (v : value) :
  decode sock = Ok (v, rest) ->
  (has_none v = true /\ encode v = Raise TypeError)
  \/ (has_none v = false /\ exists bs, encode v = Ok bs).
Proof.
  intros H; apply handle_request_decoded_ok, decoded_written in H.
  unfold written, encode, write_response in *.
  destruct (has_none v); [left | right]; auto.
Qed.

(** ** Bulk strings written by [_write] *)

Lemma repr_byte_length (q : codepoint) (a : byte) : (1 <= length (repr_byte q a))%nat.
Proof.
  unfold repr_byte.
  repeat match goal with
         | |- context [if ?c then _ else _] => destruct c
         end; simpl; lia.
Qed.

Lemma repr_bytes_length (b : bytes) : (length b + 3 <= length (repr_bytes b))%nat.
Proof.
  unfold repr_bytes.
  set (q := if has_byte cp_squote b && negb (has_byte cp_dquote b)
            then cp_dquote else cp_squote); clearbody q.
  cbn [length]; rewrite length_app; cbn [length].
  enough (length b <= length (flat_map (repr_byte q) b))%nat by lia.
  induction b as [|a r IH]; [simpl; lia|].
  cbn [flat_map length]; rewrite length_app.
  assert (H := repr_byte_length q a); lia.
Qed.

(** X12.  The frame written for a bytes object declares the length of the
    payload and then carries its [repr], which is at least three characters
    longer.  Read back, it gives the first characters of the [repr], as many
    as the payload was long, and leaves at least three bytes of the frame
    unread: no bulk string written by the encoder is read back whole. *)
Theorem bulk_string_written (b : bytes) :
  let r := ascii_bytes (repr_bytes b) in
  exists frame,
    encode (VBytes b) = Ok frame
    /\ decode frame
       = Ok (VBytes (firstn (length b) r), skipn (length b + 2) r ++ CRLF)
    /\ (3 <= length (skipn (length b + 2) r ++ CRLF))%nat.
Proof.
  intros r.
  assert (Hr : (length b + 3 <= length r)%nat).
  { subst r; unfold ascii_bytes; rewrite length_map; apply repr_bytes_length. }
  eexists; split; [apply _write_bytes|]; split.
  - unfold decode; cbn [length]; rewrite handle_request_binary; unfold handle_binary.
    rewrite read_int_line; cbn [bind]; rewrite py_int_str_of_int; cbn [bind].
    destruct (Z.of_nat (length b) =? -1) eqn:E; [apply Z.eqb_eq in E; lia|].
    unfold read.
    destruct (Z.of_nat (length b) + 2 <? -1) eqn:E1; [apply Z.ltb_lt in E1; lia|].
    destruct (Z.of_nat (length b) + 2 =? -1) eqn:E2; [apply Z.eqb_eq in E2; lia|].
    replace (Z.to_nat (Z.of_nat (length b) + 2)) with (length b + 2)%nat by lia.
    fold r; cbn [bind].
    rewrite firstn_app, skipn_app.
    replace (length b + 2 - length r)%nat with 0%nat by lia.
    cbn [firstn skipn]; rewrite List.app_nil_r.
    unfold drop_last2; rewrite length_firstn, firstn_firstn.
    replace (Nat.min (Nat.min (length b + 2) (length r) - 2) (length b + 2))
      with (length b) by lia.
    reflexivity.
  - rewrite length_app, length_skipn; change (length CRLF) with 2%nat; lia.
Qed.

End Written.

(** ** The store as the commands leave it *)

(** The store holds what was decoded, under hashable and different keys. *)
Lemma store_ok_spec (kv : dict) :
  store_ok kv = true <-> dict_wf kv = true /\ forallb entry_ok kv = true.
Proof. unfold store_ok; rewrite decoded_ok_dict; apply andb_true_iff. Qed.

Lemma dict_get_ok (k : value) (d : dict) (v : value) :
  forallb entry_ok d = true -> dict_get k d = Some v -> decoded_ok v = true.
Proof.
  induction d as [|[e x] r IH]; cbn [dict_get forallb]; [discriminate|].
  intros H; apply andb_prop in H as [He Hr].
  destruct (key_eqb e k); [|now apply IH].
  intros Hv; injection Hv as <-.
  unfold entry_ok in He; cbn [snd] in He; now apply andb_prop in He as [_ ?].
Qed.

Lemma stored_ok (k : value) (d : dict) :
  forallb entry_ok d = true -> decoded_ok (stored k d) = true.
Proof.
  intros H; unfold stored; destruct (dict_get k d) eqn:E; [|reflexivity].
  now apply (dict_get_ok k d).
Qed.

Lemma dict_del_ok (k : value) (d : dict) :
  forallb entry_ok d = true -> forallb entry_ok (dict_del k d) = true.
Proof.
  unfold dict_del; induction d as [|e r IH]; cbn [filter forallb]; auto.
  intros H; apply andb_prop in H as [He Hr].
  destruct (negb (key_eqb (fst e) k)); cbn [forallb]; auto.
  now rewrite He, IH.
Qed.

Lemma dict_set_store_ok (k v : value) (kv : dict) :
  hashable k = true -> decoded_ok k = true -> decoded_ok v = true ->
  store_ok kv = true -> store_ok (dict_set k v kv) = true.
Proof.
  intros Hh Hk Hv H; apply store_ok_spec in H as [Hw He]; apply store_ok_spec.
  split; [now apply dict_set_wf | now apply dict_set_ok].
Qed.

Lemma mget_results_ok (keys : list value) (kv : dict) (vs : list value) :
  forallb entry_ok kv = true ->
  mget_results keys kv = Ok vs -> forallb decoded_ok vs = true.
Proof.
  intros Hkv; revert vs; induction keys as [|k r IH]; cbn [mget_results]; intros vs H.
  - now injection H as <-.
  - unfold py_dict_get in H; destruct (hashable k); [|discriminate].
    cbn [bind] in H.
    destruct (mget_results r kv) as [vs'| |]; cbn [bind] in H; try discriminate.
    injection H as <-; cbn [forallb].
    fold (stored k kv); rewrite stored_ok, IH; auto.
Qed.

Lemma mset_loop_ok (ps : list (value * value)) :
  forall kv,
    forallb entry_ok ps = true -> store_ok kv = true ->
    store_ok (snd (mset_loop ps kv)) = true.
Proof.
  induction ps as [|[k v] r IH]; cbn [mset_loop]; intros kv Hps Hkv; auto.
  cbn [forallb] in Hps; apply andb_prop in Hps as [Hkv' Hr].
  unfold entry_ok in Hkv'; cbn [fst snd] in Hkv'; apply andb_prop in Hkv' as [Hk Hv].
  unfold py_dict_setitem; destruct (hashable k) eqn:Hh; [|exact Hkv].
  apply IH; [assumption | now apply dict_set_store_ok].
Qed.

(** Every handler of the command table keeps the store in order and
    answers a value that can have been decoded. *)
Lemma get_commands_ok (c : str) (h : handler) (args : list value) (kv : dict) :
  lookup c get_commands = Some h ->
  forallb decoded_ok args = true -> store_ok kv = true ->
  store_ok (snd (h args kv)) = true
  /\ forall resp, fst (h args kv) = Ok resp -> decoded_ok resp = true.
Proof.
  intros Hl Hargs Hkv.
  assert (Hs := proj1 (store_ok_spec kv) Hkv); destruct Hs as [Hwf Hent].
  revert Hl; unfold get_commands, lookup.
  repeat match goal with
         | |- context [if ?b then _ else _] => destruct b
         end; intros H; try discriminate; injection H as <-.
  - destruct args as [|a [|]]; cbn [call1 fst snd]; try (split; [assumption | discriminate]).
    unfold get, py_dict_get; split; [assumption|].
    cbn [fst]; destruct (hashable a); [|discriminate].
    intros resp H; injection H as <-; now apply stored_ok.
  - destruct args as [|a [|b [|]]]; cbn [call2 fst snd];
      try (split; [assumption | discriminate]).
    cbn [forallb] in Hargs; apply andb_prop in Hargs as [Ha Hb].
    apply andb_prop in Hb as [Hb _].
    unfold set, py_dict_setitem; destruct (hashable a) eqn:Hh; cbn [fst snd].
    + split; [now apply dict_set_store_ok | intros resp H; now injection H as <-].
    + split; [assumption | discriminate].
  - destruct args; cbn [call0 fst snd]; [|split; [assumption | discriminate]].
    unfold flush; cbn [fst snd]; split; [reflexivity|].
    intros resp H; now injection H as <-.
  - destruct args as [|a [|]]; cbn [call1 fst snd]; try (split; [assumption | discriminate]).
    unfold delete, py_dict_contains; destruct (hashable a);
      [|split; [assumption | discriminate]].
    destruct (dict_mem a kv); cbn [fst snd].
    + split; [|intros resp H; now injection H as <-].
      apply store_ok_spec; split; [now apply dict_del_wf | now apply dict_del_ok].
    + split; [assumption | intros resp H; now injection H as <-].
  - unfold mget; cbn [fst snd]; split; [assumption|].
    intros resp H.
    destruct (mget_results args kv) as [vs| |] eqn:E; cbn [bind] in H; try discriminate.
    injection H as <-; cbn [decoded_ok]; now apply (mget_results_ok args kv).
  - unfold mset.
    assert (Hm := mset_loop_ok (zip (slice_even args) (slice_odd args)) kv).
    rewrite zip_slices in *.
    specialize (Hm (pairs_of_ok args Hargs) Hkv).
    destruct (mset_loop (pairs_of args) kv) as [[u|e|] kv']; cbn [fst snd] in *;
      (split; [assumption|]); try discriminate.
    intros resp H; now injection H as <-.
Qed.

Lemma first_and_rest_ok (data first : value) (args : list value) :
  decoded_ok data = true -> first_and_rest data = Some (first, args) ->
  decoded_ok first = true /\ forallb decoded_ok args = true.
Proof.
  destruct data as [ | | [|c r] | [|a r] | | [|x r] | | ]; try discriminate;
    intros Hok H; injection H as <- <-.
  - cbn [decoded_ok scalar_text forallb] in *.
    apply andb_prop in Hok as [Hc Hr]; split; [now rewrite Hc|].
    rewrite forallb_forall in *; intros v Hv.
    apply in_map_iff in Hv as [c' [<- Hc']]; cbn [decoded_ok scalar_text forallb].
    now rewrite (Hr c' Hc').
  - split; [reflexivity|].
    rewrite forallb_forall; intros v Hv.
    now apply in_map_iff in Hv as [c' [<- Hc']].
  - cbn [decoded_ok forallb] in Hok; now apply andb_prop in Hok.
Qed.

Section Store.
Context {ucd : UnicodeData}.

Lemma get_response_ok (data : value) (kv : dict) :
  decoded_ok data = true -> store_ok kv = true ->
  store_ok (snd (get_response data kv)) = true
  /\ forall resp, fst (get_response data kv) = Ok resp -> decoded_ok resp = true.
Proof.
  intros Hd Hkv; unfold get_response.
  destruct (negb (is_list data) && negb (has_split data));
    [split; [assumption | discriminate]|].
  destruct (is_empty data); [split; [assumption | discriminate]|].
  destruct (first_and_rest data) as [[first args]|] eqn:Ef;
    [|split; [assumption | discriminate]].
  destruct (first_and_rest_ok _ _ _ Hd Ef) as [_ Hargs].
  destruct (py_upper first) as [[c|b]| |]; cbn [find_command];
    try (split; [assumption | discriminate]).
  destruct (lookup c get_commands) as [h|] eqn:El;
    [|split; [assumption | discriminate]].
  now apply (get_commands_ok c).
Qed.

Lemma connection_handler_store_ok (fuel : nat) :
  forall sock kv,
    store_ok kv = true ->
    store_ok (snd (connection_handler fuel sock kv)) = true.
Proof.
  induction fuel as [|fuel IH]; intros sock kv Hkv; [assumption|].
  rewrite connection_handler_S.
  destruct (decode sock) as [[data sock']|e|] eqn:E;
    [|destruct e; assumption | assumption].
  apply handle_request_decoded_ok in E.
  destruct (get_response_ok data kv E Hkv) as [Hkv' _].
  destruct (get_response data kv) as [r kv']; cbn [snd] in Hkv'.
  assert (Hw : forall resp,
             store_ok (snd (match write_response resp with
                            | Ok out => after_reply out (connection_handler fuel sock' kv')
                            | Raise e => (Crashed e, [], kv')
                            | OutOfFuel => (Unfinished, [], kv')
                            end)) = true).
  { intros resp; destruct (write_response resp); try assumption.
    specialize (IH sock' kv' Hkv').
    unfold after_reply; now destruct (connection_handler fuel sock' kv') as [[e out] kv'']. }
  destruct r as [resp|e|]; cbv zeta; [apply Hw | | assumption].
  destruct e; try apply Hw; assumption.
Qed.

(** X13.  Whatever bytes a session receives, it leaves the store a
    dictionary (hashable, pairwise different keys) whose keys and values are
    values the decoder can yield, if it found it so; and what a command
    answers is such a value too. *)
Theorem store_invariant (kv : dict) :
  store_ok kv = true ->
  (forall sock, store_ok (snd (session sock kv)) = true)
  /\ (forall sock data rest resp,
        decode sock = Ok (data, rest) ->
        fst (get_response data kv) = Ok resp -> decoded_ok resp = true).
Proof.
  intros Hkv; split.
  - intros sock; now apply connection_handler_store_ok.
  - intros sock data rest resp Hd Hr.
    apply handle_request_decoded_ok in Hd.
    now apply (get_response_ok data kv Hd Hkv).
Qed.

End Store.

(** ** FLUSH and the number of keys *)

Lemma dict_set_length (k v : value) (d : dict) :
  length (dict_set k v d) = if dict_mem k d then length d else S (length d).
Proof.
  unfold dict_mem; induction d as [|[e x] r IH]; cbn [dict_set dict_get length]; auto.
  destruct (key_eqb e k); cbn [length]; auto.
  rewrite IH; destruct (dict_get k r); reflexivity.
Qed.

(** X14.  The number [FLUSH] answers counts the keys: a [SET] of a key
    that is not in the store makes it one more, a [SET] of a key that is in
    the store leaves it, a [DELETE] of a key that is in the store makes it
    one less.  After a [FLUSH], [GET] answers [None] and another [FLUSH]
    answers 0. *)
Theorem flush_counts (kv : dict) (k v : value) :
  hashable k = true -> dict_wf kv = true ->
  fst (flush (snd (set k v kv)))
  = Ok (VInt (Z.of_nat (length kv) + if dict_mem k kv then 0 else 1))
  /\ fst (flush (snd (delete k kv)))
     = Ok (VInt (Z.of_nat (length kv) - if dict_mem k kv then 1 else 0))
  /\ fst (get k (snd (flush kv))) = Ok VNone
  /\ fst (flush (snd (flush kv))) = Ok (VInt 0).
Proof.
  intros Hk Hwf; split; [|split; [|split]].
  - rewrite set_hashable by assumption; cbn [flush fst snd].
    rewrite dict_set_length; destruct (dict_mem k kv); do 2 f_equal; lia.
  - rewrite delete_hashable by assumption.
    destruct (dict_mem k kv) eqn:E; cbn [flush fst snd]; do 2 f_equal; [|lia].
    rewrite <- (dict_del_length k kv Hwf E); lia.
  - cbn [flush snd]; now rewrite get_hashable.
  - reflexivity.
Qed.

(** ** MSET stops at the first key it cannot hash *)

Lemma pairs_of_entry_frames (ps : list (value * value)) (l : list value) :
  pairs_of (entry_frames ps ++ l) = ps ++ pairs_of l.
Proof.
  induction ps as [|[k v] r IH]; [reflexivity|].
  rewrite entry_frames_cons; cbn [app pairs_of]; now rewrite IH.
Qed.

Lemma mset_loop_app (ps qs : list (value * value)) (kv : dict) :
  forallb hashable (map fst ps) = true ->
  mset_loop (ps ++ qs) kv = mset_loop qs (set_each ps kv).
Proof.
  revert kv; induction ps as [|[k v] r IH]; intros kv H; [reflexivity|].
  cbn in H; apply andb_prop in H as [Hk Hr].
  cbn [app mset_loop]; unfold py_dict_setitem; rewrite Hk.
  rewrite IH by assumption; unfold set_each; cbn [fold_left fst snd].
  now rewrite set_hashable.
Qed.

(** X15.  [MSET] is not all or nothing.  When a key cannot be hashed (it is
    a list or a dictionary), [MSET] raises [TypeError] there: the pairs
    before it have been stored, the pairs after it have not. *)
Theorem mset_stops_at_unhashable_key
        (ps : list (value * value)) (bad x : value) (more : list value) (kv : dict) :
  forallb hashable (map fst ps) = true ->
  hashable bad = false ->
  mset (entry_frames ps ++ bad :: x :: more) kv = (Raise TypeError, set_each ps kv).
Proof.
  intros Hps Hbad; unfold mset.
  rewrite zip_slices, pairs_of_entry_frames; cbn [pairs_of].
  rewrite mset_loop_app by assumption.
  cbn [mset_loop]; unfold py_dict_setitem; now rewrite Hbad.
Qed.

(** ** What the dispatcher raises *)

Section Dispatching.
Context {ucd : UnicodeData}.

Lemma get_response_raises (data : value) (kv kv' : dict) (e : exn) :
  get_response data kv = (Raise e, kv') ->
  (exists m, e = CommandError m /\ kv' = kv
             /\ (m = T "Argument must be list or string"
                 \/ m = T "No command provided"
                 \/ exists command,
                      m = T "Command " ++ command ++ T " does not exist"))
  \/ e = TypeError
  \/ (e = AttributeError /\ kv' = kv).
Proof.
  unfold get_response.
  destruct (negb (is_list data) && negb (has_split data)).
  { intros H; injection H as <- <-; left; eauto 6. }
  destruct (is_empty data).
  { intros H; injection H as <- <-; left; eauto 6. }
  destruct (first_and_rest data) as [[first args]|].
  2:{ intros H; injection H as <- _; auto. }
  destruct (py_upper first) as [command| |] eqn:Eu.
  - destruct (find_command command) as [h|] eqn:Ef.
    + intros H; right; left.
      destruct command as [c|b]; [|discriminate]; cbn [find_command] in Ef.
      apply (get_commands_raises c h args kv e Ef); now rewrite H.
    + intros H; injection H as <- <-; left.
      eexists; split; [reflexivity|]; split; [reflexivity|].
      right; right; exists (format_s command); reflexivity.
  - intros H; injection H as <- <-.
    destruct first; try discriminate; injection Eu as <-; auto.
  - discriminate.
Qed.

(** X16.  A request refused with a [CommandError] has not touched the
    store, and the message is one of three: the request is not a list, text
    or bytes; it is empty; or its command is not in the table.  Anything else
    the dispatcher raises is a [TypeError] or an [AttributeError], and that
    ends the session: no reply is written for the request. *)
Theorem dispatch_errors (sock rest : bytes) (data : value) (kv kv' : dict) (e : exn) :
  decode sock = Ok (data, rest) ->
  get_response data kv = (Raise e, kv') ->
  (exists m, e = CommandError m /\ kv' = kv
             /\ (m = T "Argument must be list or string"
                 \/ m = T "No command provided"
                 \/ exists command,
                      m = T "Command " ++ command ++ T " does not exist"))
  \/ ((e = TypeError \/ e = AttributeError)
      /\ session sock kv = (Crashed e, [], kv')).
Proof.
  intros Hd Hr.
  destruct (get_response_raises _ _ _ _ Hr) as [H | H]; [now left | right].
  assert (He : e = TypeError \/ e = AttributeError) by tauto.
  split; [assumption|].
  rewrite session_step, connection_handler_S, Hd, Hr.
  destruct He as [-> | ->]; reflexivity.
Qed.

End Dispatching.

(** ** The reply to an unknown command *)

Lemma repr_byte_line (q : codepoint) (a : byte) :
  line_char q = true -> forallb line_char (repr_byte q a) = true.
Proof.
  intros Hq; unfold repr_byte; assert (Ha := N_of_ascii_bound a).
  set (c := N_of_ascii a) in *.
  assert (Hh : forall n, (n < 16)%N -> line_char (hex_digit n) = true).
  { intros n Hn; unfold hex_digit, line_char, cp_CR, cp_LF.
    destruct (n <? 10)%N eqn:E; bool_hyps;
      repeat (apply andb_true_intro; split);
      try apply N.ltb_lt; try (apply negb_true_iff, N.eqb_neq); lia. }
  destruct ((c =? q) || (c =? cp_backslash))%N eqn:E1.
  { cbn [forallb]; rewrite andb_true_r.
    apply orb_prop in E1 as [E|E]; apply N.eqb_eq in E; rewrite E; auto. }
  destruct (c =? 9)%N eqn:E9; [reflexivity|].
  destruct (c =? 10)%N eqn:E10; [reflexivity|].
  destruct (c =? 13)%N eqn:E13; [reflexivity|].
  destruct ((c <? 32) || (127 <=? c))%N eqn:E2.
  { cbn [forallb]; rewrite !Hh; [reflexivity | |].
    - apply N.mod_lt; lia.
    - apply N.Div0.div_lt_upper_bound; lia. }
  cbn [forallb]; rewrite andb_true_r.
  apply orb_false_elim in E2 as [_ E2]; apply N.leb_gt in E2.
  unfold line_char, cp_CR, cp_LF; bool_hyps.
  repeat (apply andb_true_intro; split);
    try apply N.ltb_lt; try (apply negb_true_iff, N.eqb_neq); lia.
Qed.

Lemma repr_bytes_line (b : bytes) : line_text (repr_bytes b).
Proof.
  unfold line_text, repr_bytes.
  set (q := if has_byte cp_squote b && negb (has_byte cp_dquote b)
            then cp_dquote else cp_squote).
  assert (Hq : line_char q = true) by (subst q; destruct (_ && _); reflexivity).
  clearbody q.
  cbn [forallb]; rewrite Hq, forallb_app; cbn [forallb]; rewrite Hq.
  change (line_char 98%N) with true; cbn [andb]; rewrite andb_true_r.
  induction b as [|a r IH]; [reflexivity|].
  cbn [flat_map]; rewrite forallb_app, IH, andb_true_r.
  now apply repr_byte_line.
Qed.

Lemma line_text_app (a b : str) : line_text a -> line_text b -> line_text (a ++ b).
Proof. unfold line_text; intros Ha Hb; now rewrite forallb_app, Ha, Hb. Qed.

Lemma unknown_command_line (c : str) : line_text c -> line_text (unknown_command c).
Proof.
  intros H; unfold unknown_command.
  repeat apply line_text_app; auto; reflexivity.
Qed.

(** The error reply for a message that is a line of ASCII text. *)
Lemma write_error_reply (m : str) :
  line_text m -> write_response (VError m) = Ok (error_reply m).
Proof. intros H; apply (encode_utf8_line 45%N); [reflexivity | assumption]. Qed.

(** ** The client of this repository against its server *)

Lemma plain_char_spec (c : codepoint) :
  plain_char c = true ->
  (32 <= c)%N /\ (c <= 126)%N /\ c <> cp_squote /\ c <> cp_backslash.
Proof.
  unfold plain_char; intros H; bool_hyps.
  apply negb_true_iff, N.eqb_neq in H0; apply negb_true_iff, N.eqb_neq in H1.
  auto.
Qed.

Lemma plain_text_line (s : str) : plain_text s = true -> line_text s.
Proof.
  unfold plain_text, line_text; rewrite !forallb_forall; intros H c Hc.
  apply H, plain_char_spec in Hc as [H1 [H2 _]].
  unfold line_char, cp_CR, cp_LF.
  repeat (apply andb_true_intro; split);
    try apply N.ltb_lt; try (apply negb_true_iff, N.eqb_neq); lia.
Qed.

Lemma repr_byte_plain (c : codepoint) :
  plain_char c = true -> repr_byte cp_squote (ascii_of_N c) = [c].
Proof.
  intros H; apply plain_char_spec in H as [H1 [H2 [H3 H4]]].
  unfold repr_byte; rewrite N_of_ascii_of_N by lia.
  apply N.eqb_neq in H3, H4; rewrite H3, H4; cbn [orb].
  destruct (c =? 9)%N eqn:E9; [apply N.eqb_eq in E9; lia|].
  destruct (c =? 10)%N eqn:E10; [apply N.eqb_eq in E10; lia|].
  destruct (c =? 13)%N eqn:E13; [apply N.eqb_eq in E13; lia|].
  destruct ((c <? 32) || (127 <=? c))%N eqn:E; [|reflexivity].
  apply orb_prop in E as [E|E]; [apply N.ltb_lt in E | apply N.leb_le in E]; lia.
Qed.

Lemma has_byte_plain (s : str) :
  plain_text s = true -> has_byte cp_squote (ascii_bytes s) = false.
Proof.
  unfold plain_text, has_byte, ascii_bytes; induction s as [|c r IH]; [reflexivity|].
  cbn [forallb map existsb]; intros H; apply andb_prop in H as [Hc Hr].
  rewrite (IH Hr), orb_false_r.
  apply plain_char_spec in Hc as [H1 [H2 [H3 _]]].
  rewrite N_of_ascii_of_N by lia; now apply N.eqb_neq.
Qed.

Lemma repr_bytes_plain (s : str) :
  plain_text s = true -> repr_bytes (ascii_bytes s) = T "b'" ++ s ++ T "'".
Proof.
  intros H; unfold repr_bytes; rewrite has_byte_plain by assumption.
  cbn [andb]; change (T "b'") with [98%N; cp_squote]; cbn [app]; do 2 f_equal.
  change (T "'") with [cp_squote]; f_equal.
  unfold plain_text, ascii_bytes in *; induction s as [|c r IH]; [reflexivity|].
  cbn [forallb] in H; apply andb_prop in H as [Hc Hr].
  cbn [map flat_map]; rewrite repr_byte_plain, IH by assumption; reflexivity.
Qed.

Lemma ascii_bytes_app (a b : str) : ascii_bytes (a ++ b) = ascii_bytes a ++ ascii_bytes b.
Proof. apply map_app. Qed.

Lemma ascii_bytes_length (s : str) : length (ascii_bytes s) = length s.
Proof. apply length_map. Qed.

(** The frame the client writes for the name of a command. *)
Lemma _write_plain (name : str) :
  plain_text name = true -> _write (VStr name) = Ok (client_name_frame name).
Proof.
  intros H; cbn [_write]; unfold encode_utf8 at 1.
  rewrite utf8_encode_ascii by now apply line_text_ascii, plain_text_line.
  cbn [bind]; fold encode_utf8; rewrite encode_bulk, ascii_bytes_length.
  rewrite repr_bytes_plain by assumption.
  rewrite (app_assoc (T "b'")), ascii_bytes_app, <- app_assoc; reflexivity.
Qed.

Lemma Ok_inj {A} (a b : A) : Ok a = Ok b -> a = b.
Proof. intros H; now injection H. Qed.

Section ClientServer.
Context {ucd : UnicodeData}.

(** How the server reads that frame: two bytes short, and the quote that
    closes the [repr] is left in the stream. *)
Lemma read_plain_name (name : str) (fuel : nat) (tail : bytes) :
  (1 <= fuel)%nat ->
  handle_request fuel (client_name_frame name ++ tail)
  = Ok (VBytes (name_read name), "'"%char :: CRLF ++ tail).
Proof.
  destruct fuel as [|fuel]; [lia | intros _].
  unfold client_name_frame; cbn [app].
  rewrite handle_request_binary; unfold handle_binary.
  rewrite <- app_assoc, read_int_line; cbn [bind].
  rewrite py_int_str_of_int; cbn [bind].
  destruct (Z.of_nat (length name) =? -1) eqn:E; [apply Z.eqb_eq in E; lia|].
  replace (Z.of_nat (length name) + 2)
    with (Z.of_nat (length (ascii_bytes (T "b'" ++ name))))
    by (rewrite ascii_bytes_length, length_app; simpl; lia).
  rewrite <- app_assoc, read_exact; reflexivity.
Qed.

Lemma handle_request_quote (fuel : nat) (sock : bytes) :
  (1 <= fuel)%nat ->
  handle_request fuel ("'"%char :: sock) = Raise (CommandError (T "bad request")).
Proof. destruct fuel; [lia | reflexivity]. Qed.

Lemma client_name_frame_length (name : str) : (1 <= length (client_name_frame name))%nat.
Proof. unfold client_name_frame; cbn [length]; lia. Qed.

Lemma decode_client_request (name : str) (n : nat) (body : bytes) :
  decode ("*"%char :: int_line (Z.of_nat (S n)) ++ client_name_frame name ++ body)
  = match n with
    | O => Ok (VList [VBytes (name_read name)], "'"%char :: CRLF ++ body)
    | S _ => Raise (CommandError (T "bad request"))
    end.
Proof.
  assert (Hl := client_name_frame_length name).
  unfold decode; cbn [length]; rewrite handle_request_array.
  unfold handle_array; rewrite read_int_line; cbn [bind].
  rewrite py_int_str_of_int; cbn [bind].
  rewrite Nat2Z.id; cbn [read_frames].
  rewrite read_plain_name by (rewrite !length_app; lia); cbn [bind].
  destruct n as [|n]; [reflexivity|].
  cbn [read_frames].
  rewrite handle_request_quote by (rewrite !length_app; lia); reflexivity.
Qed.

(** What [execute] writes: the number of its arguments, the frame of the
    name, and what [_write] makes of the other arguments. *)
Lemma write_client_request (name : str) (args : list value) (request : bytes) :
  plain_text name = true ->
  write_response (VTuple (VStr name :: args)) = Ok request ->
  exists body,
    request = "*"%char :: int_line (Z.of_nat (S (length args)))
              ++ client_name_frame name ++ body.
Proof.
  intros Hname Hw.
  unfold write_response in Hw; rewrite _write_tuple, _write_list in Hw.
  change (T "*") with [42%N] in Hw; cbn [app] in Hw.
  rewrite write_header in Hw by reflexivity; cbn [bind write_items] in Hw.
  rewrite _write_plain in Hw by assumption; cbn [bind] in Hw.
  fold write_items in Hw.
  destruct (write_items args) as [body| |]; cbn [bind] in Hw; try discriminate.
  apply Ok_inj in Hw; subst request.
  exists body; change (ascii_of_N 42) with "*"%char; cbn [app length]; reflexivity.
Qed.

(** The session of the server on such a request. *)
Lemma session_client_frames (name : str) (n : nat) (body : bytes) (kv : dict) :
  session ("*"%char :: int_line (Z.of_nat (S n)) ++ client_name_frame name ++ body) kv
  = (Crashed (CommandError (T "bad request")),
     match n with
     | O => error_reply (unknown_command (repr_bytes (bytes_upper (name_read name))))
     | S _ => []
     end,
     kv).
Proof.
  destruct n as [|n].
  - rewrite (session_reply _ ("'"%char :: CRLF ++ body)
               (error_reply (unknown_command (repr_bytes (bytes_upper (name_read name)))))
               (VList [VBytes (name_read name)])
               (VError (unknown_command (repr_bytes (bytes_upper (name_read name)))))
               kv kv).
    + unfold session; rewrite connection_handler_S.
      unfold decode; rewrite handle_request_quote by (simpl; lia).
      cbn [after_reply]; now rewrite List.app_nil_r.
    + apply (decode_client_request name 0).
    + right; eexists; split; reflexivity.
    + apply write_error_reply, unknown_command_line, repr_bytes_line.
  - unfold session; rewrite connection_handler_S.
    now rewrite decode_client_request.
Qed.

(** X20.  What the server makes of a request written by
    [Client.execute].  The name of the command is written as the text
    [b'NAME'] under the length of [NAME], so the server reads it two bytes
    short and finds the closing quote where it expects a tag.  With at least
    one argument the request is a bad request: the session ends at once,
    nothing is written.  Without arguments the server answers that the
    command it read does not exist, and then ends on the quote.  The store is
    never touched. *)
Theorem client_request_at_server
        (name : str) (args : list value) (request : bytes) (kv : dict) :
  plain_text name = true ->
  write_response (VTuple (VStr name :: args)) = Ok request ->
  session request kv
  = (Crashed (CommandError (T "bad request")),
     match args with
     | [] => error_reply (unknown_command (repr_bytes (bytes_upper (name_read name))))
     | _ => []
     end,
     kv).
Proof.
  intros Hname Hw.
  destruct (write_client_request name args request Hname Hw) as [body ->].
  rewrite session_client_frames; now destruct args.
Qed.

(** *** The commands of the client *)

Lemma execute_sends (args : list value) (request sock : bytes) :
  write_response (VTuple args) = Ok request ->
  Client.execute args sock
  = (request,
     '(resp, rest) <- decode sock ;;
     match resp with
     | VError message => Raise (CommandError message)
     | _ => Ok (resp, rest)
     end).
Proof. intros H; unfold Client.execute; now rewrite H. Qed.

Lemma call_against_server (name : str) (args : list value) (request : bytes) (kv : dict) :
  plain_text name = true ->
  write_response (VTuple (VStr name :: args)) = Ok request ->
  against_server (Client.execute (VStr name :: args)) kv
  = (match args with
     | [] => Ok (VStr (unknown_command (repr_bytes (bytes_upper (name_read name)))), [])
     | _ => Raise Disconnect
     end, kv).
Proof.
  intros Hn Hw; unfold against_server.
  rewrite (execute_sends _ request) by assumption; cbn [fst].
  destruct (write_client_request name args request Hn Hw) as [body Hreq].
  rewrite Hreq at 1; rewrite session_client_frames.
  rewrite (execute_sends _ request) by assumption; cbn [snd].
  destruct args as [|a args]; [|reflexivity].
  cbn [length]; f_equal.
  rewrite <- (List.app_nil_r (error_reply _)).
  rewrite (decode_frame _ _ [] (frame_error _
             (unknown_command_line _ (repr_bytes_line _)))).
  reflexivity.
Qed.

(** X21.  No command of the client reaches the store of the server it is
    written for.  [get], [set], [delete], and [mget] and [mset] with at least
    one argument, send a request on which the server session ends without a
    reply, so the call finds the stream closed and raises [Disconnect];
    [flush] is answered that the command [b"B'FLU"] does not exist, which the
    call returns as a text.  The store is as it was in every case. *)
Theorem client_against_server (kv : dict) :
  (forall key request,
     write_response (VTuple [VStr (T "GET"); key]) = Ok request ->
     against_server (Client.get key) kv = (Raise Disconnect, kv))
  /\ (forall key val request,
        write_response (VTuple [VStr (T "SET"); key; val]) = Ok request ->
        against_server (Client.set key val) kv = (Raise Disconnect, kv))
  /\ (forall key request,
        write_response (VTuple [VStr (T "DELETE"); key]) = Ok request ->
        against_server (Client.delete key) kv = (Raise Disconnect, kv))
  /\ (forall key keys request,
        write_response (VTuple (VStr (T "MGET") :: key :: keys)) = Ok request ->
        against_server (Client.mget (key :: keys)) kv = (Raise Disconnect, kv))
  /\ (forall item items request,
        write_response (VTuple (VStr (T "MSET") :: item :: items)) = Ok request ->
        against_server (Client.mset (item :: items)) kv = (Raise Disconnect, kv))
  /\ against_server Client.flush kv
     = (Ok (VStr (unknown_command (T "b" ++ [cp_dquote] ++ T "B'FLU" ++ [cp_dquote])),
            []), kv).
Proof.
  split; [|split; [|split; [|split; [|split]]]].
  - intros key request H.
    apply (call_against_server (T "GET") [key] request kv eq_refl H).
  - intros key val request H.
    apply (call_against_server (T "SET") [key; val] request kv eq_refl H).
  - intros key request H.
    apply (call_against_server (T "DELETE") [key] request kv eq_refl H).
  - intros key keys request H.
    apply (call_against_server (T "MGET") (key :: keys) request kv eq_refl H).
  - intros item items request H.
    apply (call_against_server (T "MSET") (item :: items) request kv eq_refl H).
  - apply (call_against_server (T "FLUSH") [] (client_request (T "FLUSH")) kv eq_refl).
    reflexivity.
Qed.

End ClientServer.

(** ** The codec under the limits of the interpreter *)

Lemma ssize_max_value : Limited.ssize_max = 9223372036854775807.
Proof. reflexivity. Qed.

Lemma bytes_max_value : Limited.bytes_max = 9223372036854775774.
Proof. reflexivity. Qed.

(** Decides the comparisons of [read] by linear arithmetic. *)
Ltac read_cases :=
  unfold Limited.read; rewrite ?ssize_max_value, ?bytes_max_value;
  repeat match goal with
         | |- context [?a <? ?b] =>
           destruct (Z.ltb_spec a b); try lia; cbn [orb]
         | |- context [?a =? ?b] =>
           destruct (Z.eqb_spec a b); try lia
         end;
  try reflexivity.

Lemma readable_spec (alloc_max n : Z) :
  readable alloc_max n = true <-> 0 <= n /\ n <= alloc_max /\ n <= Limited.bytes_max.
Proof.
  unfold readable; rewrite !andb_true_iff, !Z.leb_le; tauto.
Qed.

Lemma limited_read_readable (alloc_max n : Z) (sock : bytes) :
  readable alloc_max n = true -> Limited.read alloc_max n sock = read n sock.
Proof.
  rewrite readable_spec, bytes_max_value; intros [H0 [Ha Hb]].
  unfold read; read_cases.
Qed.

Lemma limited_read_ok (alloc_max n : Z) (sock : bytes) (r : bytes * bytes) :
  Limited.read alloc_max n sock = Ok r -> read n sock = Ok r.
Proof.
  unfold Limited.read, read.
  destruct ((n <? - Limited.ssize_max - 1) || (Limited.ssize_max <? n));
    [discriminate|].
  destruct (n <? -1); [discriminate|].
  destruct (n =? -1); [destruct (alloc_max <? _); [discriminate | trivial]|].
  destruct (Limited.bytes_max <? n); [discriminate|].
  destruct (alloc_max <? n); [discriminate | trivial].
Qed.


Lemma read_all (n : Z) (sock : bytes) :
  0 <= n -> Z.of_nat (length sock) <= n -> read n sock = Ok (sock, []).
Proof.
  intros H0 H; unfold read.
  destruct (n <? -1) eqn:E1; [apply Z.ltb_lt in E1; lia|].
  destruct (n =? -1) eqn:E2; [apply Z.eqb_eq in E2; lia|].
  rewrite firstn_all2, skipn_all2 by lia; reflexivity.
Qed.

Lemma format_int_fits (n : Z) :
  fits n = true -> Limited.format_int n = Ok (str_of_int n).
Proof.
  unfold fits, Limited.format_int; intros H; apply Nat.leb_le in H.
  destruct (Nat.ltb_spec Limited.max_str_digits (Limited.digits (str_of_int n)));
    [lia | reflexivity].
Qed.

Section LimitedCodec.
Context {ucd : UnicodeData}.
Variable alloc_max : Z.

Lemma limited_py_int_fits (n : Z) :
  fits n = true -> Limited.py_int (str_of_int n) = Ok n.
Proof.
  unfold fits, Limited.py_int; intros H; apply Nat.leb_le in H.
  rewrite to_ascii_digits_ascii by apply line_text_ascii, str_of_int_line.
  destruct (Nat.ltb_spec Limited.max_str_digits (Limited.digits (str_of_int n)));
    [lia | apply py_int_str_of_int].
Qed.

Lemma limited_py_int_long (n : Z) :
  fits n = false -> Limited.py_int (str_of_int n) = Raise ValueError.
Proof.
  unfold fits, Limited.py_int; intros H; apply Nat.leb_gt in H.
  rewrite to_ascii_digits_ascii by apply line_text_ascii, str_of_int_line.
  destruct (Nat.ltb_spec Limited.max_str_digits (Limited.digits (str_of_int n)));
    [reflexivity | lia].
Qed.

Lemma limited_py_int_ok (s : str) (n : Z) :
  Limited.py_int s = Ok n -> py_int s = Ok n.
Proof.
  unfold Limited.py_int; destruct (to_ascii_digits s); [|discriminate].
  destruct (_ <? _)%nat; [discriminate | trivial].
Qed.


(** *** One frame at a time *)

Lemma limited_request_simple depth sock :
  Limited.handle_request alloc_max (S depth) ("+"%char :: sock)
  = handle_simple_string sock.
Proof. reflexivity. Qed.

Lemma limited_request_error depth sock :
  Limited.handle_request alloc_max (S depth) ("-"%char :: sock)
  = handle_error_message sock.
Proof. reflexivity. Qed.

Lemma limited_request_integer depth sock :
  Limited.handle_request alloc_max (S depth) (":"%char :: sock)
  = Limited.handle_integer sock.
Proof. reflexivity. Qed.

Lemma limited_request_binary depth sock :
  Limited.handle_request alloc_max (S depth) ("$"%char :: sock)
  = Limited.handle_binary alloc_max sock.
Proof. reflexivity. Qed.

Lemma limited_request_array depth sock :
  Limited.handle_request alloc_max (S depth) ("*"%char :: sock)
  = Limited.handle_array (Limited.handle_request alloc_max depth) sock.
Proof. reflexivity. Qed.

Lemma limited_request_dictionary depth sock :
  Limited.handle_request alloc_max (S depth) ("%"%char :: sock)
  = Limited.handle_dictionary (Limited.handle_request alloc_max depth) sock.
Proof. reflexivity. Qed.

Lemma frame_at_simple (depth : nat) (s : str) :
  line_text s -> frame_at alloc_max (S depth) (VStr s) (simple_frame s).
Proof.
  intros Hs rest; unfold simple_frame; cbn [app]; rewrite <- app_assoc.
  rewrite limited_request_simple; unfold handle_simple_string.
  now rewrite read_text_line_line.
Qed.

Lemma frame_at_int (depth : nat) (n : Z) :
  fits n = true -> frame_at alloc_max (S depth) (VInt n) (int_frame n).
Proof.
  intros Hn rest; unfold int_frame; cbn [app].
  rewrite limited_request_integer; unfold Limited.handle_integer.
  rewrite read_int_line; cbn [bind]; now rewrite limited_py_int_fits.
Qed.

Lemma frame_at_bulk (depth : nat) (p : bytes) :
  fits (Z.of_nat (length p)) = true ->
  readable alloc_max (Z.of_nat (length p) + 2) = true ->
  frame_at alloc_max (S depth) (VBytes p) (bulk_frame p).
Proof.
  intros Hn Hr rest; unfold bulk_frame; cbn [app].
  rewrite limited_request_binary; unfold Limited.handle_binary.
  rewrite <- app_assoc, read_int_line; cbn [bind].
  rewrite limited_py_int_fits by assumption; cbn [bind].
  destruct (Z.of_nat (length p) =? -1) eqn:E; [apply Z.eqb_eq in E; lia|].
  rewrite limited_read_readable by assumption.
  replace (Z.of_nat (length p) + 2) with (Z.of_nat (length (p ++ CRLF)))
    by (rewrite length_app; simpl; lia).
  rewrite <- app_assoc, (app_assoc p), read_exact; cbn [bind].
  unfold CRLF; now rewrite drop_last2_app.
Qed.

Lemma read_frames_at (depth : nat) (vs : list value) (bss : list bytes) :
  Forall2 (frame_at alloc_max depth) vs bss ->
  forall rest,
    read_frames (Limited.handle_request alloc_max depth) (length vs)
                (concat bss ++ rest)
    = Ok (vs, rest).
Proof.
  induction 1 as [|v bs vs bss Hv _ IH]; intros rest; [reflexivity|].
  cbn [concat length read_frames]; rewrite <- app_assoc, Hv; cbn [bind].
  rewrite IH; reflexivity.
Qed.

Lemma frame_at_array (depth : nat) (vs : list value) (bss : list bytes) :
  Forall2 (frame_at alloc_max depth) vs bss ->
  fits (Z.of_nat (length bss)) = true ->
  frame_at alloc_max (S depth) (VList vs) (array_frame bss).
Proof.
  intros H Hn rest; unfold array_frame; cbn [app].
  rewrite limited_request_array; unfold Limited.handle_array.
  rewrite <- app_assoc, read_int_line; cbn [bind].
  rewrite limited_py_int_fits by assumption; cbn [bind].
  rewrite <- (Forall2_length H), Nat2Z.id, read_frames_at by assumption.
  reflexivity.
Qed.

(** With room for no nested call, the first element is not read. *)
Lemma read_frames_no_room (n : nat) (sock : bytes) :
  (0 < n)%nat ->
  read_frames (Limited.handle_request alloc_max 0) n sock = Raise RecursionError.
Proof. destruct n; [lia | reflexivity]. Qed.

(** X6.  An array is read element by element, one level further down:
    [*k\r\n] followed by frames of [k] values, each read by a call with room
    for [depth] nested calls, is a frame of the list of those values for a
    call with room for one more.  A call with room for itself alone raises
    [RecursionError] on every array that is not empty. *)
Theorem array_of_frames (depth : nat) (vs : list value) (bss : list bytes) :
  Forall2 (frame_at alloc_max depth) vs bss ->
  fits (Z.of_nat (length bss)) = true ->
  frame_at alloc_max (S depth) (VList vs) (array_frame bss)
  /\ (bss <> [] ->
      forall rest,
        Limited.handle_request alloc_max 1 (array_frame bss ++ rest)
        = Raise RecursionError).
Proof.
  intros H Hn; split; [now apply frame_at_array|].
  intros Hne rest; unfold array_frame; cbn [app].
  rewrite limited_request_array; unfold Limited.handle_array.
  rewrite <- app_assoc, read_int_line; cbn [bind].
  rewrite limited_py_int_fits by assumption; cbn [bind].
  rewrite read_frames_no_room; [reflexivity|].
  destruct bss; [contradiction | simpl; lia].
Qed.

(** X5.  Declared lengths below zero.  -1 is [None]; -2 is the empty bulk
    string, and nothing is read after the header; -3 reads the stream to its
    end, when it can be allocated, and drops the last two bytes; below that
    [read] raises [ValueError], or [OverflowError] when the length does not
    fit a [Py_ssize_t].  A
    header of more than 4300 digits is refused by [int] with
    [ValueError]. *)
Theorem negative_bulk_length (depth : nat) (n : Z) (rest : bytes) :
  n < 0 -> 0 <= alloc_max ->
  Limited.handle_request alloc_max (S depth) ("$"%char :: int_line n ++ rest)
  = if negb (fits n) then Raise ValueError
    else if n =? -1 then Ok (VNone, rest)
    else if n =? -2 then Ok (VBytes [], rest)
    else if n =? -3 then
      if alloc_max <? Z.of_nat (length rest) then Raise MemoryError
      else Ok (VBytes (drop_last2 rest), [])
    else if n + 2 <? - Limited.ssize_max - 1 then Raise OverflowError
    else Raise ValueError.
Proof.
  intros Hn Ha.
  rewrite limited_request_binary; unfold Limited.handle_binary.
  rewrite read_int_line; cbn [bind].
  destruct (fits n) eqn:Hf; cbn [negb];
    [|now rewrite limited_py_int_long].
  rewrite limited_py_int_fits by assumption; cbn [bind].
  destruct (n =? -1) eqn:E1; [reflexivity|].
  destruct (n =? -2) eqn:E2.
  { apply Z.eqb_eq in E2; subst n.
    rewrite limited_read_readable
      by (apply readable_spec; rewrite bytes_max_value; lia).
    reflexivity. }
  destruct (n =? -3) eqn:E3.
  { apply Z.eqb_eq in E3; subst n; unfold Limited.read; cbn.
    destruct (alloc_max <? Z.of_nat (length rest)); reflexivity. }
  apply Z.eqb_neq in E1, E2, E3; rewrite ssize_max_value; read_cases.
Qed.

(** X7.  A count of zero or less gives the empty list, and the empty
    dictionary for a map; nothing after the header is read.  A count of more
    than 4300 digits is refused by [int] with [ValueError]. *)
Theorem empty_array_and_map (depth : nat) (n : Z) (rest : bytes) :
  n <= 0 ->
  Limited.handle_request alloc_max (S depth) ("*"%char :: int_line n ++ rest)
  = (if fits n then Ok (VList [], rest) else Raise ValueError)
  /\ Limited.handle_request alloc_max (S depth) ("%"%char :: int_line n ++ rest)
     = (if fits n then Ok (VDict [], rest) else Raise ValueError).
Proof.
  intros Hn; split.
  - rewrite limited_request_array; unfold Limited.handle_array.
    rewrite read_int_line; cbn [bind].
    destruct (fits n) eqn:Hf; [|now rewrite limited_py_int_long].
    rewrite limited_py_int_fits by assumption; cbn [bind].
    replace (Z.to_nat n) with 0%nat by lia; reflexivity.
  - rewrite limited_request_dictionary; unfold Limited.handle_dictionary.
    rewrite read_int_line; cbn [bind].
    destruct (fits n) eqn:Hf; [|now rewrite limited_py_int_long].
    rewrite limited_py_int_fits by assumption; cbn [bind].
    replace (Z.to_nat (n * 2)) with 0%nat by lia; reflexivity.
Qed.

(** C2, as the code has it.  When the header of a bulk string declares a
    length [n] and fewer than [n] bytes follow before the stream ends, the
    decoder reports no truncation.  When [n + 2] bytes can be allocated it
    raises nothing: it returns as payload the bytes that follow without
    their last two, which are fewer than [n], and leaves the stream empty.
    When they cannot, [read] raises [OverflowError] or [MemoryError]. *)
Theorem truncated_bulk_string
        (depth : nat) (sock rest : bytes) (header : str) (n : Z) :
  read_text_line sock = Ok (header, rest) ->
  Limited.py_int header = Ok n ->
  Z.of_nat (length rest) < n ->
  let r := Limited.handle_request alloc_max (S depth) ("$"%char :: sock) in
  (n + 2 <= Limited.bytes_max -> n + 2 <= alloc_max ->
   r = Ok (VBytes (drop_last2 rest), [])
   /\ Z.of_nat (length (drop_last2 rest)) < n)
  /\ (Limited.bytes_max < n + 2 -> r = Raise OverflowError)
  /\ (n + 2 <= Limited.bytes_max -> alloc_max < n + 2 -> r = Raise MemoryError).
Proof.
  intros Hline Hint Hlen r; subst r.
  rewrite limited_request_binary; unfold Limited.handle_binary.
  rewrite Hline; cbn [bind]; rewrite Hint; cbn [bind].
  destruct (n =? -1) eqn:E; [apply Z.eqb_eq in E; lia|].
  split; [|split].
  - intros Hb Ha.
    rewrite limited_read_readable by (apply readable_spec; lia).
    rewrite read_all by lia; cbn [bind].
    split; [reflexivity | rewrite drop_last2_length; lia].
  - rewrite bytes_max_value; intros Hb; read_cases.
  - rewrite bytes_max_value; intros Hb Ha; read_cases.
Qed.

End LimitedCodec.

Section LimitedMaps.
Context {ucd : UnicodeData}.
Variable alloc_max : Z.

(** X9.  A map is read pair by pair, one level further down: [%k\r\n]
    followed by frames of [k] keys and values, key first, each read by a
    call with room for [depth] nested calls.  When every key is hashable the
    frame is one of a dictionary in which each key is bound to the value of
    its last pair (a repeated key is bound once, to the later value); when a
    key is a list or a dictionary, decoding raises [TypeError]. *)
Theorem map_frame (depth : nat) (ps : list (value * value)) (bss : list bytes) :
  Forall2 (frame_at alloc_max depth) (entry_frames ps) bss ->
  fits (Z.of_nat (length ps)) = true ->
  (forallb hashable (map fst ps) = true ->
   exists d,
     frame_at alloc_max (S depth) (VDict d)
              ("%"%char :: int_line (Z.of_nat (length ps)) ++ concat bss)
     /\ dict_wf d = true
     /\ forall k, dict_get k d = dict_get k (rev ps))
  /\ (forallb hashable (map fst ps) = false ->
      forall rest,
        Limited.handle_request alloc_max (S depth)
          (("%"%char :: int_line (Z.of_nat (length ps)) ++ concat bss) ++ rest)
        = Raise TypeError).
Proof.
  intros H Hn.
  assert (Hread : forall rest,
             Limited.handle_request alloc_max (S depth)
               (("%"%char :: int_line (Z.of_nat (length ps)) ++ concat bss) ++ rest)
             = (d <- dict_of_pairs ps [] ;; Ok (VDict d, rest))).
  { intros rest; cbn [app].
    rewrite limited_request_dictionary; unfold Limited.handle_dictionary.
    rewrite <- app_assoc, read_int_line; cbn [bind].
    rewrite limited_py_int_fits by assumption; cbn [bind].
    replace (Z.to_nat (Z.of_nat (length ps) * 2)) with (length (entry_frames ps))
      by (rewrite entry_frames_length; lia).
    rewrite (read_frames_at _ _ _ _ H); cbn [bind].
    now rewrite zip_entry_frames. }
  split.
  - intros Hk; destruct (dict_of_pairs_hashable ps [] Hk) as [d Hd].
    exists d; split; [|split].
    + intros rest; rewrite Hread; now rewrite Hd.
    + now apply (dict_of_pairs_wf_acc ps [] d).
    + intros k; rewrite (dict_of_pairs_get ps [] d k Hd).
      destruct (dict_get k (rev ps)); reflexivity.
  - intros Hk rest; rewrite Hread.
    now rewrite dict_of_pairs_unhashable.
Qed.

End LimitedMaps.

(** ** Round trip under the limits *)

Lemma _write_at_int (depth : nat) (n : Z) :
  fits n = true -> Limited._write (S depth) (VInt n) = Ok (int_frame n).
Proof.
  intros H; cbn [Limited._write]; rewrite format_int_fits by assumption.
  cbn [bind]; apply (encode_utf8_line 58%N); [reflexivity | apply str_of_int_line].
Qed.

Lemma _write_at_list (depth : nat) (l : list value) :
  Limited._write (S depth) (VList l)
  = (n <- Limited.format_int (Z.of_nat (length l)) ;;
     h <- encode_utf8 (T "*" ++ n ++ CRLF_text) ;;
     body <- write_items_at depth l ;; Ok (h ++ body)).
Proof. reflexivity. Qed.

Lemma _write_at_dict (depth : nat) (d : list (value * value)) :
  Limited._write (S depth) (VDict d)
  = (n <- Limited.format_int (Z.of_nat (length d)) ;;
     h <- encode_utf8 (T "%" ++ n ++ CRLF_text) ;;
     body <- write_entries_at depth d ;; Ok (h ++ body)).
Proof. reflexivity. Qed.

Lemma levels_list (l : list value) (depth : nat) :
  (levels (VList l) <= S depth)%nat -> Forall (fun x => (levels x <= depth)%nat) l.
Proof.
  cbn [levels]; intros H; apply le_S_n in H.
  induction l as [|x r IH]; constructor.
  - lia.
  - apply IH; lia.
Qed.

Lemma levels_dict (d : list (value * value)) (depth : nat) :
  (levels (VDict d) <= S depth)%nat ->
  Forall (fun e => (levels (fst e) <= depth)%nat /\ (levels (snd e) <= depth)%nat) d.
Proof.
  cbn [levels]; intros H; apply le_S_n in H.
  induction d as [|[k x] r IH]; constructor.
  - cbn [fst snd]; lia.
  - apply IH; lia.
Qed.

Lemma write_items_at_cons (wd : nat) (x : value) (r : list value) (body : bytes) :
  write_items_at wd (x :: r) = Ok body ->
  exists a b,
    Limited._write wd x = Ok a /\ write_items_at wd r = Ok b /\ body = a ++ b.
Proof.
  cbn [write_items_at]; fold (write_items_at wd).
  destruct (Limited._write wd x) as [a| |]; cbn [bind]; try discriminate.
  destruct (write_items_at wd r) as [b| |]; cbn [bind]; try discriminate.
  intros H; apply Ok_inj in H; eauto.
Qed.

Lemma write_entries_at_cons
      (wd : nat) (k x : value) (r : list (value * value)) (body : bytes) :
  write_entries_at wd ((k, x) :: r) = Ok body ->
  exists a b c,
    Limited._write wd k = Ok a /\ Limited._write wd x = Ok b
    /\ write_entries_at wd r = Ok c /\ body = a ++ b ++ c.
Proof.
  cbn [write_entries_at]; fold (write_entries_at wd).
  destruct (Limited._write wd k) as [a| |]; cbn [bind]; try discriminate.
  destruct (Limited._write wd x) as [b| |]; cbn [bind]; try discriminate.
  destruct (write_entries_at wd r) as [c| |]; cbn [bind]; try discriminate.
  intros H; apply Ok_inj in H; eauto 8.
Qed.

Section LimitedRoundTrip.
Context {ucd : UnicodeData}.
Variable alloc_max : Z.

Lemma items_come_back (wd rd : nat) (l : list value) :
  Forall (comes_back alloc_max wd rd) l ->
  exists bss,
    write_items_at wd l = Ok (concat bss)
    /\ Forall2 (frame_at alloc_max rd) l bss.
Proof.
  induction 1 as [|x r [a [Hwa Hra]] _ [bss [Hwb Hrb]]].
  - exists []; split; [reflexivity | constructor].
  - exists (a :: bss); split; [|now constructor].
    cbn [write_items_at concat]; rewrite Hwa; cbn [bind].
    fold (write_items_at wd); rewrite Hwb; reflexivity.
Qed.

Lemma entries_come_back (wd rd : nat) (d : list (value * value)) :
  Forall (fun e => comes_back alloc_max wd rd (fst e)
                   /\ comes_back alloc_max wd rd (snd e)) d ->
  exists bss,
    write_entries_at wd d = Ok (concat bss)
    /\ Forall2 (frame_at alloc_max rd) (entry_frames d) bss.
Proof.
  induction 1 as [|[k x] r [[a [Hwa Hra]] [b [Hwb Hrb]]] _ [bss [Hwc Hrc]]].
  - exists []; split; [reflexivity | constructor].
  - cbn [fst snd] in *.
    exists (a :: b :: bss); split.
    + cbn [write_entries_at concat]; rewrite Hwa, Hwb; cbn [bind].
      fold (write_entries_at wd); rewrite Hwc; reflexivity.
    + rewrite entry_frames_cons; repeat constructor; assumption.
Qed.

Lemma int_tree_comes_back (v : value) :
  forall wd rd,
    int_tree v = true -> fits_value v = true ->
    (levels v <= wd)%nat -> (levels v <= rd)%nat ->
    comes_back alloc_max wd rd v.
Proof.
  induction v as [ | n | s | b | m | l IH | l IH | d IH ] using value_nested_ind;
    intros wd rd Hi Hf Hw Hr; cbn [int_tree] in Hi; try discriminate.
  - destruct wd as [|wd]; [cbn [levels] in Hw; lia|].
    destruct rd as [|rd]; [cbn [levels] in Hr; lia|].
    exists (int_frame n); split;
      [now apply _write_at_int | now apply frame_at_int].
  - destruct wd as [|wd]; [cbn [levels] in Hw; lia|].
    destruct rd as [|rd]; [cbn [levels] in Hr; lia|].
    cbn [fits_value] in Hf; apply andb_prop in Hf as [Hlen Hf].
    apply levels_list in Hw, Hr.
    assert (Hall : Forall (comes_back alloc_max wd rd) l).
    { clear Hlen; induction IH as [|x r Hx _ IHr]; constructor;
        cbn [forallb] in Hi, Hf;
        apply andb_prop in Hi as [Hi1 Hi2]; apply andb_prop in Hf as [Hf1 Hf2];
        inversion Hw; inversion Hr; subst; auto. }
    destruct (items_come_back wd rd l Hall) as [bss [Hwb Hrb]].
    assert (Hl := Forall2_length Hrb).
    exists (array_frame bss); split.
    + rewrite _write_at_list, format_int_fits by assumption; cbn [bind].
      change (T "*") with [42%N]; cbn [app].
      rewrite (encode_utf8_line 42%N) by (reflexivity || apply str_of_int_line).
      cbn [bind]; rewrite Hwb; cbn [bind].
      unfold array_frame; rewrite <- Hl; reflexivity.
    + apply frame_at_array; [assumption | now rewrite <- Hl].
  - destruct wd as [|wd]; [cbn [levels] in Hw; lia|].
    destruct rd as [|rd]; [cbn [levels] in Hr; lia|].
    apply andb_prop in Hi as [Hwf Hi].
    cbn [fits_value] in Hf; apply andb_prop in Hf as [Hlen Hf].
    apply levels_dict in Hw, Hr.
    assert (Hall : Forall (fun e => comes_back alloc_max wd rd (fst e)
                                    /\ comes_back alloc_max wd rd (snd e)) d).
    { clear Hlen Hwf; induction IH as [|[k x] r [Hk Hx] _ IHr]; constructor.
      - apply andb_prop in Hi as [Hi _]; apply andb_prop in Hi as [Hi1 Hi2].
        apply andb_prop in Hf as [Hf _]; apply andb_prop in Hf as [Hf1 Hf2].
        inversion Hw as [|? ? [Hw1 Hw2] ?]; inversion Hr as [|? ? [Hr1 Hr2] ?]; subst.
        cbn [fst snd] in *; split; [|auto].
        destruct k; try discriminate; auto.
      - apply andb_prop in Hi as [_ Hi]; apply andb_prop in Hf as [_ Hf].
        inversion Hw; inversion Hr; subst; auto. }
    destruct (entries_come_back wd rd d Hall) as [bss [Hwb Hrb]].
    exists ("%"%char :: int_line (Z.of_nat (length d)) ++ concat bss); split.
    + rewrite _write_at_dict, format_int_fits by assumption; cbn [bind].
      change (T "%") with [37%N]; cbn [app].
      rewrite (encode_utf8_line 37%N) by (reflexivity || apply str_of_int_line).
      cbn [bind]; rewrite Hwb; reflexivity.
    + intros rest; cbn [app].
      rewrite limited_request_dictionary; unfold Limited.handle_dictionary.
      rewrite <- app_assoc, read_int_line; cbn [bind].
      rewrite limited_py_int_fits by assumption; cbn [bind].
      replace (Z.to_nat (Z.of_nat (length d) * 2)) with (length (entry_frames d))
        by (rewrite entry_frames_length; lia).
      rewrite (read_frames_at _ _ _ _ Hrb); cbn [bind].
      rewrite zip_entry_frames, (dict_of_pairs_wf d []) by exact Hwf.
      reflexivity.
Qed.

(** Writing a value that is deeper than the recursion limit allows. *)
Lemma too_deep_to_write (v : value) :
  forall wd,
    int_tree v = true -> fits_value v = true -> (wd < levels v)%nat ->
    Limited._write wd v = Raise RecursionError.
Proof.
  induction v as [ | n | s | b | m | l IH | l IH | d IH ] using value_nested_ind;
    intros wd Hi Hf Hw; cbn [int_tree] in Hi; try discriminate.
  - destruct wd as [|wd]; [reflexivity | cbn [levels] in Hw; lia].
  - destruct wd as [|wd]; [reflexivity|].
    cbn [fits_value] in Hf; apply andb_prop in Hf as [Hlen Hf].
    rewrite _write_at_list, format_int_fits by assumption; cbn [bind].
    change (T "*") with [42%N]; cbn [app].
    rewrite (encode_utf8_line 42%N) by (reflexivity || apply str_of_int_line).
    cbn [bind].
    enough (Hb : write_items_at wd l = Raise RecursionError) by now rewrite Hb.
    cbn [levels] in Hw; apply Nat.succ_lt_mono in Hw.
    clear Hlen; induction IH as [|x r Hx _ IHr]; [simpl in Hw; lia|].
    cbn [forallb] in Hi, Hf.
    apply andb_prop in Hi as [Hi1 Hi2]; apply andb_prop in Hf as [Hf1 Hf2].
    cbn [write_items_at]; fold (write_items_at wd).
    destruct (Nat.le_gt_cases (levels x) wd) as [Hx'|Hx'].
    + destruct (int_tree_comes_back x wd (levels x) Hi1 Hf1 Hx' (Nat.le_refl _))
        as [a [-> _]]; cbn [bind].
      rewrite IHr; [reflexivity | assumption | assumption | lia].
    + now rewrite (Hx wd Hi1 Hf1 Hx').
  - destruct wd as [|wd]; [reflexivity|].
    apply andb_prop in Hi as [Hwf Hi].
    cbn [fits_value] in Hf; apply andb_prop in Hf as [Hlen Hf].
    rewrite _write_at_dict, format_int_fits by assumption; cbn [bind].
    change (T "%") with [37%N]; cbn [app].
    rewrite (encode_utf8_line 37%N) by (reflexivity || apply str_of_int_line).
    cbn [bind].
    enough (Hb : write_entries_at wd d = Raise RecursionError) by now rewrite Hb.
    cbn [levels] in Hw; apply Nat.succ_lt_mono in Hw.
    clear Hlen Hwf; induction IH as [|[k x] r [Hk Hx] _ IHr]; [simpl in Hw; lia|].
    apply andb_prop in Hi as [Hi Hi3]; apply andb_prop in Hi as [Hi1 Hi2].
    apply andb_prop in Hf as [Hf Hf3]; apply andb_prop in Hf as [Hf1 Hf2].
    cbn [fst snd] in *.
    assert (Hik : int_tree k = true) by (destruct k; try discriminate; reflexivity).
    cbn [write_entries_at]; fold (write_entries_at wd).
    destruct (Nat.le_gt_cases (levels k) wd) as [Hk'|Hk'];
      [|now rewrite (Hk wd Hik Hf1 Hk')].
    destruct (int_tree_comes_back k wd (levels k) Hik Hf1 Hk' (Nat.le_refl _))
      as [a [-> _]]; cbn [bind].
    destruct (Nat.le_gt_cases (levels x) wd) as [Hx'|Hx'];
      [|now rewrite (Hx wd Hi2 Hf2 Hx')].
    destruct (int_tree_comes_back x wd (levels x) Hi2 Hf2 Hx' (Nat.le_refl _))
      as [b [-> _]]; cbn [bind].
    rewrite IHr; [reflexivity | assumption | assumption | lia].
Qed.

(** What was written is read back wherever there is room for it. *)
Lemma written_frame (v : value) (wd rd : nat) (bs : bytes) :
  int_tree v = true -> fits_value v = true ->
  Limited._write wd v = Ok bs -> (levels v <= rd)%nat ->
  frame_at alloc_max rd v bs.
Proof.
  intros Hi Hf Hw Hr.
  destruct (Nat.le_gt_cases (levels v) wd) as [Hwd|Hwd].
  - destruct (int_tree_comes_back v wd rd Hi Hf Hwd Hr) as [bs' [Hw' Hr']].
    rewrite Hw in Hw'; apply Ok_inj in Hw'; now subst bs'.
  - rewrite (too_deep_to_write v wd Hi Hf Hwd) in Hw; discriminate.
Qed.

(** Reading a value that is deeper than the recursion limit allows. *)
Lemma too_deep_to_read (v : value) :
  forall wd rd bs rest,
    int_tree v = true -> fits_value v = true ->
    Limited._write wd v = Ok bs -> (rd < levels v)%nat ->
    Limited.handle_request alloc_max rd (bs ++ rest) = Raise RecursionError.
Proof.
  induction v as [ | n | s | b | m | l IH | l IH | d IH ] using value_nested_ind;
    intros wd rd bs rest Hi Hf Hw Hr; cbn [int_tree] in Hi; try discriminate.
  - destruct rd as [|rd]; [reflexivity | cbn [levels] in Hr; lia].
  - destruct rd as [|rd]; [reflexivity|].
    destruct wd as [|wd]; [discriminate|].
    cbn [fits_value] in Hf; apply andb_prop in Hf as [Hlen Hf].
    rewrite _write_at_list, format_int_fits in Hw by assumption; cbn [bind] in Hw.
    change (T "*") with [42%N] in Hw; cbn [app] in Hw.
    rewrite (encode_utf8_line 42%N) in Hw by (reflexivity || apply str_of_int_line).
    cbn [bind] in Hw.
    destruct (write_items_at wd l) as [body| |] eqn:Eb; cbn [bind] in Hw;
      try discriminate.
    apply Ok_inj in Hw; subst bs.
    change (ascii_of_N 42 :: ascii_bytes (str_of_int (Z.of_nat (length l))) ++ CRLF)
      with ("*"%char :: int_line (Z.of_nat (length l))).
    cbn [app]; rewrite <- app_assoc.
    rewrite limited_request_array; unfold Limited.handle_array.
    rewrite read_int_line; cbn [bind].
    rewrite limited_py_int_fits by assumption; cbn [bind].
    rewrite Nat2Z.id.
    enough (Hb : read_frames (Limited.handle_request alloc_max rd) (length l)
                             (body ++ rest) = Raise RecursionError) by now rewrite Hb.
    cbn [levels] in Hr; apply Nat.succ_lt_mono in Hr.
    clear Hlen; revert body Eb.
    induction IH as [|x r Hx _ IHr]; intros body Eb; [simpl in Hr; lia|].
    cbn [forallb] in Hi, Hf.
    apply andb_prop in Hi as [Hi1 Hi2]; apply andb_prop in Hf as [Hf1 Hf2].
    apply write_items_at_cons in Eb as [a [b [Ha [Hb ->]]]].
    cbn [length read_frames]; rewrite <- app_assoc.
    destruct (Nat.le_gt_cases (levels x) rd) as [Hx'|Hx'].
    + rewrite (written_frame x wd rd a Hi1 Hf1 Ha Hx'); cbn [bind].
      rewrite IHr; [reflexivity | assumption | assumption | lia | assumption].
    + now rewrite (Hx wd rd a (b ++ rest) Hi1 Hf1 Ha Hx').
  - destruct rd as [|rd]; [reflexivity|].
    destruct wd as [|wd]; [discriminate|].
    apply andb_prop in Hi as [Hwf Hi].
    cbn [fits_value] in Hf; apply andb_prop in Hf as [Hlen Hf].
    rewrite _write_at_dict, format_int_fits in Hw by assumption; cbn [bind] in Hw.
    change (T "%") with [37%N] in Hw; cbn [app] in Hw.
    rewrite (encode_utf8_line 37%N) in Hw by (reflexivity || apply str_of_int_line).
    cbn [bind] in Hw.
    destruct (write_entries_at wd d) as [body| |] eqn:Eb; cbn [bind] in Hw;
      try discriminate.
    apply Ok_inj in Hw; subst bs.
    change (ascii_of_N 37 :: ascii_bytes (str_of_int (Z.of_nat (length d))) ++ CRLF)
      with ("%"%char :: int_line (Z.of_nat (length d))).
    cbn [app]; rewrite <- app_assoc.
    rewrite limited_request_dictionary; unfold Limited.handle_dictionary.
    rewrite read_int_line; cbn [bind].
    rewrite limited_py_int_fits by assumption; cbn [bind].
    replace (Z.to_nat (Z.of_nat (length d) * 2)) with (length (entry_frames d))
      by (rewrite entry_frames_length; lia).
    enough (Hb : read_frames (Limited.handle_request alloc_max rd)
                             (length (entry_frames d)) (body ++ rest)
                 = Raise RecursionError) by now rewrite Hb.
    cbn [levels] in Hr; apply Nat.succ_lt_mono in Hr.
    clear Hlen Hwf; revert body Eb.
    induction IH as [|[k x] r [Hk Hx] _ IHr]; intros body Eb; [simpl in Hr; lia|].
    apply andb_prop in Hi as [Hi Hi3]; apply andb_prop in Hi as [Hi1 Hi2].
    apply andb_prop in Hf as [Hf Hf3]; apply andb_prop in Hf as [Hf1 Hf2].
    cbn [fst snd] in *.
    assert (Hik : int_tree k = true) by (destruct k; try discriminate; reflexivity).
    apply write_entries_at_cons in Eb as [a [b [c [Ha [Hb [Hc ->]]]]]].
    rewrite entry_frames_cons; cbn [length read_frames]; rewrite <- !app_assoc.
    destruct (Nat.le_gt_cases (levels k) rd) as [Hk'|Hk'];
      [|now rewrite (Hk wd rd a (b ++ c ++ rest) Hik Hf1 Ha Hk')].
    rewrite (written_frame k wd rd a Hik Hf1 Ha Hk'); cbn [bind].
    destruct (Nat.le_gt_cases (levels x) rd) as [Hx'|Hx'];
      [|now rewrite (Hx wd rd b (c ++ rest) Hi2 Hf2 Hb Hx')].
    rewrite (written_frame x wd rd b Hi2 Hf2 Hb Hx'); cbn [bind].
    rewrite IHr; [reflexivity | assumption | assumption | lia | assumption].
Qed.

(** C1, as the code has it.  Integers, and arrays and maps built from them
    (the keys of a map being integers), are encoded and decoded back to
    themselves within the limits of the interpreter: when no integer and no
    length in the value takes more than 4300 digits, and the recursion limit
    leaves room for as many nested calls of [_write] and of
    [handle_request] as the value has levels, [decode(encode(v)) == v], and
    what follows the frame in the stream is left unread.  A value with more
    levels than [_write] has room for is not encoded, and the frame of a
    value with more levels than [handle_request] has room for is not
    decoded: [RecursionError]. *)
Theorem roundtrip_within_limits (v : value) (wd rd : nat) :
  int_tree v = true -> fits_value v = true ->
  ((levels v <= wd)%nat -> (levels v <= rd)%nat ->
   exists frame,
     Limited.write_response wd v = Ok frame
     /\ Limited.handle_request alloc_max rd frame = Ok (v, [])
     /\ forall rest, Limited.handle_request alloc_max rd (frame ++ rest) = Ok (v, rest))
  /\ ((wd < levels v)%nat -> Limited.write_response wd v = Raise RecursionError)
  /\ ((rd < levels v)%nat ->
      forall frame rest,
        Limited.write_response wd v = Ok frame ->
        Limited.handle_request alloc_max rd (frame ++ rest) = Raise RecursionError).
Proof.
  intros Hi Hf; split; [|split].
  - intros Hw Hr.
    destruct (int_tree_comes_back v wd rd Hi Hf Hw Hr) as [bs [Hwr Hrd]].
    exists bs; split; [exact Hwr|]; split; [|exact Hrd].
    rewrite <- (List.app_nil_r bs) at 1; apply Hrd.
  - now apply too_deep_to_write.
  - intros Hr frame rest Hw; now apply (too_deep_to_read v wd).
Qed.

End LimitedRoundTrip.

(** ** Sessions under the limits *)

Lemma read_frames_ok_mono (request request' : bytes -> outcome (value * bytes))
      (n : nat) :
  (forall s r, request s = Ok r -> request' s = Ok r) ->
  forall sock r, read_frames request n sock = Ok r -> read_frames request' n sock = Ok r.
Proof.
  intros Hreq; induction n as [|n IH]; cbn [read_frames]; intros sock r H; [exact H|].
  destruct (request sock) as [[v s']| |] eqn:E; cbn [bind] in H; try discriminate.
  rewrite (Hreq _ _ E); cbn [bind].
  destruct (read_frames request n s') as [[vs s'']| |] eqn:E'; cbn [bind] in H;
    try discriminate.
  now rewrite (IH _ _ E').
Qed.

Lemma limited_write_error (depth : nat) (m : str) :
  line_text m -> Limited.write_response (S depth) (VError m) = Ok (error_reply m).
Proof. intros H; apply (encode_utf8_line 45%N); [reflexivity | assumption]. Qed.

Section LimitedDecoder.
Context {ucd : UnicodeData}.
Variable alloc_max : Z.

Lemma limited_request_cases (depth : nat) (a : byte) (sock : bytes) :
  let r := Limited.handle_request alloc_max (S depth) (a :: sock) in
  r = Raise UnicodeDecodeError
  \/ r = Raise (CommandError (T "bad request"))
  \/ (r = handle_simple_string sock
      /\ handle_request (S depth) (a :: sock) = handle_simple_string sock)
  \/ (r = Limited.handle_integer sock
      /\ handle_request (S depth) (a :: sock) = handle_integer sock)
  \/ (r = Limited.handle_binary alloc_max sock
      /\ handle_request (S depth) (a :: sock) = handle_binary sock)
  \/ (r = Limited.handle_array (Limited.handle_request alloc_max depth) sock
      /\ handle_request (S depth) (a :: sock)
         = handle_array (handle_request depth) sock)
  \/ (r = Limited.handle_dictionary (Limited.handle_request alloc_max depth) sock
      /\ handle_request (S depth) (a :: sock)
         = handle_dictionary (handle_request depth) sock).
Proof.
  cbn [Limited.handle_request handle_request].
  destruct (decode_utf8 [a]) as [tag| |] eqn:E; cbn [bind]; auto.
  - repeat match goal with
           | |- context [if ?c then _ else _] => destruct c; [tauto|]
           end.
    tauto.
  - unfold decode_utf8 in E; destruct (utf8_decode [a]); try discriminate.
    injection E as <-; auto.
  - unfold decode_utf8 in E; destruct (utf8_decode [a]); discriminate.
Qed.

(** What the decoder returns under the limits, it returns without them. *)
Lemma limited_request_ok (depth : nat) :
  forall sock r,
    Limited.handle_request alloc_max depth sock = Ok r ->
    handle_request depth sock = Ok r.
Proof.
  induction depth as [|depth IH]; intros sock r H; [discriminate|].
  destruct sock as [|a sock]; [discriminate|].
  destruct (limited_request_cases depth a sock)
    as [E|[E|[[E E']|[[E E']|[[E E']|[[E E']|[E E']]]]]]]; cbv zeta in E;
    rewrite E in H; clear E; try discriminate; try rewrite E'; clear E'.
  - exact H.
  - unfold Limited.handle_integer, handle_integer in *.
    destruct (read_text_line sock) as [[s rest]| |]; cbn [bind] in *; try discriminate.
    destruct (Limited.py_int s) as [n| |] eqn:En; cbn [bind] in H; try discriminate.
    now rewrite (limited_py_int_ok _ _ En).
  - unfold Limited.handle_binary, handle_binary in *.
    destruct (read_text_line sock) as [[s rest]| |]; cbn [bind] in *; try discriminate.
    destruct (Limited.py_int s) as [n| |] eqn:En; cbn [bind] in H; try discriminate.
    rewrite (limited_py_int_ok _ _ En); cbn [bind].
    destruct (n =? -1); [exact H|].
    destruct (Limited.read alloc_max (n + 2) rest) as [[d rest']| |] eqn:Er;
      cbn [bind] in H; try discriminate.
    now rewrite (limited_read_ok _ _ _ _ Er).
  - unfold Limited.handle_array, handle_array in *.
    destruct (read_text_line sock) as [[s rest]| |]; cbn [bind] in *; try discriminate.
    destruct (Limited.py_int s) as [n| |] eqn:En; cbn [bind] in H; try discriminate.
    rewrite (limited_py_int_ok _ _ En); cbn [bind].
    destruct (read_frames (Limited.handle_request alloc_max depth) (Z.to_nat n) rest)
      as [[vs rest']| |] eqn:Ef; cbn [bind] in H; try discriminate.
    now rewrite (read_frames_ok_mono _ _ _ IH _ _ Ef).
  - unfold Limited.handle_dictionary, handle_dictionary in *.
    destruct (read_text_line sock) as [[s rest]| |]; cbn [bind] in *; try discriminate.
    destruct (Limited.py_int s) as [n| |] eqn:En; cbn [bind] in H; try discriminate.
    rewrite (limited_py_int_ok _ _ En); cbn [bind].
    destruct (read_frames (Limited.handle_request alloc_max depth)
                          (Z.to_nat (n * 2)) rest)
      as [[vs rest']| |] eqn:Ef; cbn [bind] in H; try discriminate.
    now rewrite (read_frames_ok_mono _ _ _ IH _ _ Ef).
Qed.

Lemma limited_request_length (depth : nat) (sock rest : bytes) (v : value) :
  Limited.handle_request alloc_max depth sock = Ok (v, rest) ->
  (length rest < length sock)%nat.
Proof. intros H; apply limited_request_ok in H; now apply handle_request_length in H. Qed.



Lemma read_frames_at_short (depth : nat) (vs : list value) (bss : list bytes) :
  Forall2 (frame_at alloc_max (S depth)) vs bss ->
  forall n,
    (length vs < n)%nat ->
    read_frames (Limited.handle_request alloc_max (S depth)) n (concat bss)
    = Raise Disconnect.
Proof.
  induction 1 as [|v bs vs bss Hv _ IH]; intros n Hn.
  - destruct n as [|n]; [simpl in Hn; lia | reflexivity].
  - destruct n as [|n]; [simpl in Hn; lia|].
    cbn [concat length read_frames] in *.
    rewrite Hv; cbn [bind]; rewrite IH by lia; reflexivity.
Qed.

End LimitedDecoder.





Section LimitedSessions.
Context {ucd : UnicodeData}.
Variable L : Limited.limits.

Lemma limited_handler_S (fuel : nat) (sock : bytes) (kv : dict) :
  Limited.connection_handler L (S fuel) sock kv
  = match Limited.handle_request (Limited.alloc_max L) (Limited.read_depth L) sock with
    | Raise Disconnect => (Closed, [], kv)
    | Raise e => (Crashed e, [], kv)
    | OutOfFuel => (Unfinished, [], kv)
    | Ok (data, sock') =>
      let '(r, kv') := get_response data kv in
      let resp :=
        match r with
        | Raise (CommandError message) => Ok (VError message)
        | _ => r
        end in
      match resp with
      | Ok resp =>
        match Limited.write_response (Limited.write_depth L) resp with
        | Ok out => after_reply out (Limited.connection_handler L fuel sock' kv')
        | Raise e => (Crashed e, [], kv')
        | OutOfFuel => (Unfinished, [], kv')
        end
      | Raise e => (Crashed e, [], kv')
      | OutOfFuel => (Unfinished, [], kv')
      end
    end.
Proof. reflexivity. Qed.

(** The loop bound of [session] suffices: a larger one changes nothing. *)
Lemma limited_handler_fuel (n : nat) :
  forall f1 f2 sock kv,
    (length sock <= n)%nat -> (length sock < f1)%nat -> (length sock < f2)%nat ->
    Limited.connection_handler L f1 sock kv = Limited.connection_handler L f2 sock kv.
Proof.
  induction n as [|n IH]; intros f1 f2 sock kv Hn H1 H2;
    (destruct f1 as [|f1]; [lia|]); (destruct f2 as [|f2]; [lia|]);
    rewrite !limited_handler_S;
    destruct (Limited.handle_request _ _ sock) as [[data sock']|e|] eqn:E; auto;
    apply limited_request_length in E.
  - lia.
  - destruct (get_response data kv) as [r kv'].
    rewrite (IH f1 f2 sock' kv') by lia; reflexivity.
Qed.

Lemma limited_session_step (sock : bytes) (kv : dict) :
  Limited.session L sock kv
  = Limited.connection_handler L (S (S (length sock))) sock kv.
Proof.
  unfold Limited.session; apply (limited_handler_fuel (length sock)); lia.
Qed.

(** One turn of the loop whose request the dispatcher answers with [resp]
    or refuses with a [CommandError]: the reply is written and the session
    goes on with the next frame. *)
Lemma limited_session_reply
      (sock rest reply : bytes) (data resp : value) (kv kv' : dict) :
  Limited.handle_request (Limited.alloc_max L) (Limited.read_depth L) sock
  = Ok (data, rest) ->
  (get_response data kv = (Ok resp, kv')
   \/ exists m, get_response data kv = (Raise (CommandError m), kv')
                /\ resp = VError m) ->
  Limited.write_response (Limited.write_depth L) resp = Ok reply ->
  Limited.session L sock kv = after_reply reply (Limited.session L rest kv').
Proof.
  intros Hd Hr Hw; rewrite limited_session_step, limited_handler_S, Hd.
  assert (Hlen := limited_request_length _ _ _ _ _ Hd).
  destruct Hr as [Hr | [m [Hr ->]]]; rewrite Hr; cbv beta iota zeta;
    rewrite Hw;
    rewrite (limited_handler_fuel (length rest) (S (length sock))
               (S (length rest)) rest kv') by lia;
    reflexivity.
Qed.



(** X8.  An array that announces more elements than the stream holds is
    not an error: when the stream ends after some whole elements, decoding
    raises [Disconnect], and the session ends as if the peer had closed
    between two requests, without a reply. *)
Theorem truncated_array
        (depth : nat) (vs : list value) (bss : list bytes) (n : Z) (kv : dict) :
  Limited.read_depth L = S (S depth) ->
  Forall2 (frame_at (Limited.alloc_max L) (S depth)) vs bss ->
  Z.of_nat (length vs) < n ->
  fits n = true ->
  Limited.handle_request (Limited.alloc_max L) (S (S depth))
                         ("*"%char :: int_line n ++ concat bss)
  = Raise Disconnect
  /\ Limited.session L ("*"%char :: int_line n ++ concat bss) kv = (Closed, [], kv).
Proof.
  intros HL H Hn Hf.
  assert (Hd : Limited.handle_request (Limited.alloc_max L) (S (S depth))
                 ("*"%char :: int_line n ++ concat bss) = Raise Disconnect).
  { rewrite limited_request_array; unfold Limited.handle_array.
    rewrite read_int_line; cbn [bind].
    rewrite limited_py_int_fits by assumption; cbn [bind].
    rewrite (read_frames_at_short _ _ vs bss H); [reflexivity | lia]. }
  split; [exact Hd|].
  unfold Limited.session; now rewrite limited_handler_S, HL, Hd.
Qed.

(** X18.  A command sent as an array of bulk strings never reaches the
    store.  The name is read as bytes, the keys of the command table are
    text, and bytes are never equal to text: whatever the name and the
    arguments that the decoder reads, the reply is the error "Command
    b'NAME' does not exist", the store is left as it was, and the session
    goes on. *)
Theorem bulk_string_command_refused
        (depth : nat) (name : bytes) (args : list value) (frames : list bytes)
        (rest : bytes) (kv : dict) :
  Limited.read_depth L = S (S depth) ->
  (1 <= Limited.write_depth L)%nat ->
  fits (Z.of_nat (length name)) = true ->
  readable (Limited.alloc_max L) (Z.of_nat (length name) + 2) = true ->
  Forall2 (frame_at (Limited.alloc_max L) (S depth)) args frames ->
  fits (Z.of_nat (S (length frames))) = true ->
  Limited.session L (array_frame (bulk_frame name :: frames) ++ rest) kv
  = after_reply (error_reply (unknown_command (repr_bytes (bytes_upper name))))
                (Limited.session L rest kv).
Proof.
  intros HL Hw Hname Hread H Hlen.
  destruct (Limited.write_depth L) as [|wd] eqn:Ewd; [lia|].
  apply limited_session_reply
    with (data := VList (VBytes name :: args))
         (resp := VError (unknown_command (repr_bytes (bytes_upper name)))).
  - rewrite HL; apply frame_at_array; [|assumption].
    constructor; [now apply frame_at_bulk | assumption].
  - right; eexists; split; reflexivity.
  - rewrite Ewd; apply limited_write_error, unknown_command_line, repr_bytes_line.
Qed.

(** X19.  [SET] and then [GET], sent as arrays of simple strings in any
    mix of upper and lower case, with a value that the decoder reads one
    level below the request: the session answers [:1\r\n] to the first, and
    to the second what [_write] makes of the value that was set; the value
    is then in the store under the key. *)
Theorem set_then_get
        (depth : nat) (cmd_set cmd_get k : str) (v : value) (frame written : bytes)
        (rest : bytes) (kv : dict) :
  Limited.read_depth L = S (S depth) ->
  line_text cmd_set -> str_upper cmd_set = T "SET" ->
  line_text cmd_get -> str_upper cmd_get = T "GET" ->
  line_text k ->
  frame_at (Limited.alloc_max L) (S depth) v frame ->
  Limited.write_response (Limited.write_depth L) v = Ok written ->
  Limited.session L (array_frame [simple_frame cmd_set; simple_frame k; frame]
                     ++ array_frame [simple_frame cmd_get; simple_frame k] ++ rest) kv
  = after_reply (int_frame 1)
      (after_reply written (Limited.session L rest (dict_set (VStr k) v kv))).
Proof.
  intros HL Hs Hus Hg Hug Hk Hv Hw.
  destruct (Limited.write_depth L) as [|wd] eqn:Ewd; [discriminate|].
  rewrite (limited_session_reply _
             (array_frame [simple_frame cmd_get; simple_frame k] ++ rest)
             (int_frame 1) (VList [VStr cmd_set; VStr k; v]) (VInt 1)
             kv (dict_set (VStr k) v kv)).
  - f_equal.
    apply limited_session_reply with (data := VList [VStr cmd_get; VStr k]) (resp := v).
    + rewrite HL; apply frame_at_array; [|reflexivity].
      repeat constructor; now apply frame_at_simple.
    + left; unfold get_response.
      cbn [is_list has_split negb andb is_empty first_and_rest py_upper find_command].
      rewrite Hug; cbn; unfold get, py_dict_get; cbn [hashable to_key].
      now rewrite dict_get_set_same.
    + now rewrite Ewd.
  - rewrite HL; apply frame_at_array; [|reflexivity].
    repeat constructor; try assumption; now apply frame_at_simple.
  - left; unfold get_response.
    cbn [is_list has_split negb andb is_empty first_and_rest py_upper find_command].
    rewrite Hus; reflexivity.
  - rewrite Ewd; now apply _write_at_int.
Qed.

End LimitedSessions.

(** * The properties on concrete inputs

    The inputs are ASCII, so the Unicode database plays no part. *)

#[local] Existing Instance ascii_only.

(** C1 fails as stated: a text is written as a bulk string, and a bulk
    string is written as its [repr]; neither comes back. *)
Lemma roundtrip_counterexample :
  encode (VStr (T "OK")) = Ok (B "$2" ++ CRLF ++ B "b'OK'" ++ CRLF)
  /\ decode (B "$2" ++ CRLF ++ B "b'OK'" ++ CRLF)
     = Ok (VBytes (B "b'"), B "'" ++ CRLF)
  /\ VBytes (B "b'") <> VStr (T "OK")
  /\ encode (VBytes (B "a" ++ CRLF ++ B "b"))
     = Ok (B "$4" ++ CRLF ++ B "b'a\r\nb'" ++ CRLF)
  /\ decode (B "$4" ++ CRLF ++ B "b'a\r\nb'" ++ CRLF)
     = Ok (VBytes (B "b'a\"), B "nb'" ++ CRLF)
  /\ VBytes (B "b'a\") <> VBytes (B "a" ++ CRLF ++ B "b").
Proof. repeat split; try reflexivity; discriminate. Qed.

(** C2 fails as stated: the truncated frame is decoded, to one byte. *)
Lemma truncated_bulk_string_counterexample :
  decode (B "$10" ++ CRLF ++ B "abc") = Ok (VBytes (B "a"), []).
Proof. reflexivity. Qed.

(** C4: the reply [-boom\r\n] is returned as the text ['boom']. *)
Lemma execute_error_reply_witness :
  write_response (VTuple get_args) = Ok get_request
  /\ B "-boom" ++ CRLF = "-"%char :: B "boom" ++ CRLF
  /\ read_text_line (B "boom" ++ CRLF) = Ok (T "boom", [])
  /\ Client.execute get_args (B "-boom" ++ CRLF)
     = (get_request, decode (B "-boom" ++ CRLF))
  /\ Client.execute get_args (B "-boom" ++ CRLF)
     = (get_request, Ok (VStr (T "boom"), [])).
Proof.
  destruct (execute_error_reply get_args (B "-boom" ++ CRLF) get_request eq_refl)
    as [H1 H2].
  split; [reflexivity|]; split; [reflexivity|]; split; [reflexivity|].
  split; [exact H1|].
  apply (H2 (B "boom" ++ CRLF) (T "boom") []); reflexivity.
Defined.

(** C5: ['set k v'] is refused as the unknown command ['S'], and the
    integer 5 as a request of the wrong shape. *)
Lemma text_request_not_split_witness :
  (115 < 128)%N
  /\ get_response (VStr (T "set k v")) []
     = (Raise (CommandError (T "Command S does not exist")), [])
  /\ is_list (VInt 5) = false /\ has_split (VInt 5) = false
  /\ get_response (VInt 5) []
     = (Raise (CommandError (T "Argument must be list or string")), []).
Proof.
  destruct (text_request_not_split []) as [_ [H2 H3]].
  split; [reflexivity|]; split; [apply (H2 115%N (T "et k v")); reflexivity|].
  split; [reflexivity|]; split; [reflexivity|].
  apply (H3 (VInt 5)); reflexivity.
Defined.

(** C6: [get] is [GET]; the unknown command [foo] is answered with an
    error reply and the request that follows it is served. *)
Lemma dispatch_command_errors_witness :
  (str_upper (T "get") = str_upper (T "GET")
   /\ get_response (VList [VStr (T "get"); VStr (T "k")]) []
      = get_response (VList [VStr (T "GET"); VStr (T "k")]) [])
  /\ (lookup (str_upper (T "foo")) get_commands = None
      /\ get_response (VList [VStr (T "foo")]) []
         = (Raise (CommandError (T "Command FOO does not exist")), []))
  /\ (upper_scalar
      /\ decode (frame_foo ++ frame_set) = Ok (VList [VStr (T "foo")], frame_set)
      /\ (exists reply,
            encode_utf8 (T "-" ++ T "Command FOO does not exist" ++ CRLF_text)
            = Ok reply
            /\ session (frame_foo ++ frame_set) []
               = after_reply reply (session frame_set []))
      /\ session (frame_foo ++ frame_set) []
         = (Closed, B "-Command FOO does not exist" ++ CRLF ++ B ":1" ++ CRLF,
            [(VStr (T "k"), VInt 5)]))
  /\ (fst (fst (session (B "!") [])) = Crashed (CommandError (T "bad request"))
      /\ T "bad request" = T "bad request").
Proof.
  destruct dispatch_command_errors as [H1 [H2 [H3 H4]]].
  split; [|split; [|split]].
  - split; [reflexivity|].
    apply (H1 (T "get") (T "GET")); reflexivity.
  - split; [reflexivity|].
    apply (H2 (T "foo") [] []); reflexivity.
  - assert (Hu : upper_scalar).
    { intros c Hc; unfold scalar_text; simpl; now rewrite Hc. }
    split; [exact Hu|]; split; [reflexivity|]; split; [|reflexivity].
    apply (H3 (frame_foo ++ frame_set) (VList [VStr (T "foo")]) frame_set [] []
              (T "Command FOO does not exist") Hu); reflexivity.
  - split; [reflexivity|].
    apply (H4 (B "!") []); reflexivity.
Defined.

(** C6 fails as stated: [GET] without a key is a well-formed request, and it
    ends the session with a [TypeError], which is neither the peer closing
    nor an input or output fault; so does [GET] of a key that is not in the
    store, whose reply [None] cannot be written. *)
Lemma session_type_error_counterexample :
  decode frame_get_no_key = Ok (VList [VStr (T "GET")], [])
  /\ session frame_get_no_key [] = (Crashed TypeError, [], [])
  /\ decode frame_get_k = Ok (VList [VStr (T "GET"); VStr (T "k")], [])
  /\ get_response (VList [VStr (T "GET"); VStr (T "k")]) [] = (Ok VNone, [])
  /\ session frame_get_k [] = (Crashed TypeError, [], []).
Proof. repeat split; reflexivity. Qed.

(** C7 on the key [a]: set and read in the empty store, deleted where it
    is bound and where it is not. *)
Lemma set_get_delete_witness :
  hashable key_a = true
  /\ fst (set key_a val_1 []) = Ok (VInt 1)
  /\ fst (get key_a (snd (set key_a val_1 []))) = Ok val_1
  /\ fst (get key_a (snd (delete key_a [(key_a, val_1)]))) = Ok VNone
  /\ dict_mem key_a [(key_a, val_1)] = true
  /\ fst (delete key_a [(key_a, val_1)]) = Ok (VInt 1)
  /\ dict_mem key_a [] = false
  /\ fst (delete key_a []) = Ok (VInt 0)
  /\ fst (delete key_a (snd (delete key_a [(key_a, val_1)]))) = Ok (VInt 0).
Proof.
  split; [reflexivity|].
  destruct (set_get_delete [] key_a val_1 eq_refl) as [H1 [H2 [_ [_ [H5 _]]]]].
  destruct (set_get_delete [(key_a, val_1)] key_a val_1 eq_refl)
    as [_ [_ [H3 [H4 [_ H6]]]]].
  split; [exact H1|]; split; [exact H2|]; split; [exact H3|].
  split; [reflexivity|]; split; [apply H4; reflexivity|].
  split; [reflexivity|]; split; [apply H5; reflexivity | exact H6].
Defined.

(** C8: the example of the specification. *)
Lemma mget_order_witness :
  forallb hashable [key_a; key_b; key_c] = true
  /\ key_eqb key_a key_b = false /\ key_eqb key_c key_a = false
  /\ key_eqb key_c key_b = false /\ dict_mem key_c [] = false
  /\ fst (mset [key_a; val_1; key_b; val_2] []) = Ok (VInt 1)
  /\ fst (mget [key_a; key_b; key_c] (snd (mset [key_a; val_1; key_b; val_2] [])))
     = Ok (VList [val_1; val_2; VNone])
  /\ exists results,
       mget [key_b; key_a; key_b] [(key_a, val_1)]
       = (Ok (VList results), [(key_a, val_1)])
       /\ Forall2 (fun k r => get k [(key_a, val_1)] = (Ok r, [(key_a, val_1)]))
                  [key_b; key_a; key_b] results.
Proof.
  do 5 (split; [reflexivity|]).
  split; [|split].
  - apply (proj2 (mget_order []) key_a key_b key_c val_1 val_2); reflexivity.
  - apply (proj2 (mget_order []) key_a key_b key_c val_1 val_2); reflexivity.
  - apply (proj1 (mget_order [(key_a, val_1)]) [key_b; key_a; key_b]); reflexivity.
Defined.

(** C9: two pairs, and two pairs with one argument more. *)
Lemma mset_pairs_witness :
  forallb hashable (map fst (pairs_of [key_a; val_1; key_b; val_2])) = true
  /\ mset [key_a; val_1; key_b; val_2] []
     = (Ok (VInt 1), set_each [(key_a, val_1); (key_b, val_2)] [])
  /\ Nat.even (length [key_a; val_1; key_b; val_2]) = true
  /\ mset ([key_a; val_1; key_b; val_2] ++ [key_c]) []
     = mset [key_a; val_1; key_b; val_2] [].
Proof.
  destruct mset_pairs as [H1 H2].
  split; [reflexivity|]; split; [apply (H1 [key_a; val_1; key_b; val_2] []); reflexivity|].
  split; [reflexivity|].
  apply (H2 [key_a; val_1; key_b; val_2] key_c []); reflexivity.
Defined.

(** C10: setting or deleting [a] leaves the binding of [b] alone. *)
Lemma store_frame_witness :
  key_eqb key_b key_a = false
  /\ dict_get key_b (snd (set key_a val_2 [(key_a, val_1); (key_b, val_2)]))
     = dict_get key_b [(key_a, val_1); (key_b, val_2)]
  /\ dict_get key_b (snd (delete key_a [(key_a, val_1); (key_b, val_2)]))
     = dict_get key_b [(key_a, val_1); (key_b, val_2)].
Proof.
  destruct (store_frame [(key_a, val_1); (key_b, val_2)]) as [_ [_ [H3 H4]]].
  split; [reflexivity|]; split; [apply H3 | apply H4]; reflexivity.
Defined.

(** ** Frames *)

(** X1: the array [*1\r\n+foo\r\n] before the bytes [rest]. *)
Lemma decode_reads_a_prefix_witness :
  decode (frame_foo ++ B "rest") = Ok (VList [VStr (T "foo")], B "rest")
  /\ exists frame, frame <> [] /\ frame_foo ++ B "rest" = frame ++ B "rest".
Proof.
  split; [reflexivity|].
  apply (decode_reads_a_prefix (frame_foo ++ B "rest") (B "rest") (VList [VStr (T "foo")])).
  reflexivity.
Defined.

(** X2: a quote where a tag is expected. *)
Lemma bad_tag_witness :
  ~ In "'"%char tags
  /\ decode (B "'x") = Raise (CommandError (T "bad request"))
  /\ session (B "'x") [] = (Crashed (CommandError (T "bad request")), [], []).
Proof.
  assert (H : ~ In "'"%char tags).
  { intros H; repeat (destruct H as [H|H]; [discriminate H|]); exact H. }
  split; [exact H|].
  exact (bad_tag "'"%char (B "x") [] H).
Defined.

(** X3: [+OK\r\n] and [-OK\r\n] are both read as the text [OK]. *)
Lemma simple_string_frame_witness :
  line_text (T "OK")
  /\ decode (B "+OK" ++ CRLF ++ B "+next") = Ok (VStr (T "OK"), B "+next")
  /\ decode (B "-OK" ++ CRLF) = Ok (VStr (T "OK"), []).
Proof.
  destruct (simple_string_frame (T "OK") eq_refl) as [H1 H2].
  split; [reflexivity|]; split.
  - exact (decode_frame _ _ (B "+next") H1).
  - exact (decode_frame _ _ [] H2).
Defined.

(** X4: a payload of three bytes that ends in CR LF, closed by [XY]. *)
Lemma bulk_string_frame_witness :
  decode (B "$3" ++ CRLF ++ B "a" ++ CRLF ++ B "XY" ++ B "+z")
  = Ok (VBytes (B "a" ++ CRLF), B "+z").
Proof.
  exact (decode_frame _ _ (B "+z") (bulk_string_frame (B "a" ++ CRLF) "X"%char "Y"%char)).
Defined.

(** ** Decoded values *)

(** X10: the request [SET k 5]. *)
Lemma decoded_values_witness :
  decode frame_set = Ok (VList [VStr (T "SET"); VStr (T "k"); VInt 5], [])
  /\ decoded_ok (VList [VStr (T "SET"); VStr (T "k"); VInt 5]) = true.
Proof.
  split; [reflexivity|].
  exact (decoded_values frame_set [] (VList [VStr (T "SET"); VStr (T "k"); VInt 5])
                        eq_refl).
Defined.

(** X11: [None] is decoded and cannot be written. *)
Lemma decoded_value_written_witness :
  decode (B "$-1" ++ CRLF) = Ok (VNone, [])
  /\ ((has_none VNone = true /\ encode VNone = Raise TypeError)
      \/ (has_none VNone = false /\ exists bs, encode VNone = Ok bs)).
Proof.
  split; [reflexivity|].
  exact (decoded_value_written (B "$-1" ++ CRLF) [] VNone eq_refl).
Defined.

(** ** The store *)

(** X13: the empty store. *)
Lemma store_invariant_witness :
  store_ok [] = true
  /\ (forall sock, store_ok (snd (session sock [])) = true)
  /\ (forall sock data rest resp,
        decode sock = Ok (data, rest) ->
        fst (get_response data []) = Ok resp -> decoded_ok resp = true).
Proof.
  split; [reflexivity|].
  exact (store_invariant [] eq_refl).
Defined.

(** X14: a store with the key [b]; [a] is set, [a] is deleted. *)
Lemma flush_counts_witness :
  hashable key_a = true
  /\ dict_wf [(key_b, val_1)] = true
  /\ fst (flush (snd (set key_a val_2 [(key_b, val_1)]))) = Ok (VInt 2)
  /\ fst (flush (snd (delete key_a [(key_b, val_1)]))) = Ok (VInt 1)
  /\ fst (get key_a (snd (flush [(key_b, val_1)]))) = Ok VNone
  /\ fst (flush (snd (flush [(key_b, val_1)]))) = Ok (VInt 0).
Proof.
  split; [reflexivity|]; split; [reflexivity|].
  exact (flush_counts [(key_b, val_1)] key_a val_2 eq_refl eq_refl).
Defined.

(** X15: a list where the second key should be. *)
Lemma mset_stops_at_unhashable_key_witness :
  forallb hashable (map fst [(key_a, val_1)]) = true
  /\ hashable (VList []) = false
  /\ mset [key_a; val_1; VList []; val_2; key_b; val_2] []
     = (Raise TypeError, [(key_a, val_1)]).
Proof.
  split; [reflexivity|]; split; [reflexivity|].
  exact (mset_stops_at_unhashable_key [(key_a, val_1)] (VList []) val_2
                                      [key_b; val_2] [] eq_refl eq_refl).
Defined.

(** ** Sessions *)

(** X16: [GET] without a key raises [TypeError], and the session ends. *)
Lemma dispatch_errors_witness :
  decode frame_get_no_key = Ok (VList [VStr (T "GET")], [])
  /\ get_response (VList [VStr (T "GET")]) [] = (Raise TypeError, [])
  /\ ((exists m, TypeError = CommandError m /\ [] = ([] : dict)
                 /\ (m = T "Argument must be list or string"
                     \/ m = T "No command provided"
                     \/ exists command,
                          m = T "Command " ++ command ++ T " does not exist"))
      \/ ((TypeError = TypeError \/ TypeError = AttributeError)
          /\ session frame_get_no_key [] = (Crashed TypeError, [], []))).
Proof.
  split; [reflexivity|]; split; [reflexivity|].
  exact (dispatch_errors frame_get_no_key [] (VList [VStr (T "GET")]) [] []
                         TypeError eq_refl eq_refl).
Defined.

(** ** The client against the server *)

(** X20: the request of [execute('GET', 'k')]. *)
Lemma client_request_at_server_witness :
  plain_text (T "GET") = true
  /\ write_response (VTuple get_args) = Ok get_request
  /\ session get_request [] = (Crashed (CommandError (T "bad request")), [], []).
Proof.
  split; [reflexivity|]; split; [reflexivity|].
  exact (client_request_at_server (T "GET") [VStr (T "k")] get_request []
                                  eq_refl eq_refl).
Defined.

(** X21: [Client.get('k')]. *)
Lemma client_against_server_witness :
  write_response (VTuple get_args) = Ok get_request
  /\ against_server (Client.get (VStr (T "k"))) [] = (Raise Disconnect, []).
Proof.
  destruct (client_against_server []) as [H _].
  split; [reflexivity|].
  exact (H (VStr (T "k")) get_request eq_refl).
Defined.

(** ** Under the limits of the interpreter *)

(** C1: a nested value of five levels comes back when there is room for five
    nested calls; it is not written when there is room for four, and its
    frame is not read when there is room for four. *)
Lemma roundtrip_within_limits_witness :
  int_tree nested_example = true
  /\ fits_value nested_example = true
  /\ (levels nested_example <= 5)%nat
  /\ (exists frame,
        Limited.write_response 5 nested_example = Ok frame
        /\ Limited.handle_request 0 5 frame = Ok (nested_example, [])
        /\ forall rest,
             Limited.handle_request 0 5 (frame ++ rest) = Ok (nested_example, rest))
  /\ Limited.write_response 4 nested_example = Raise RecursionError
  /\ (forall frame rest,
        Limited.write_response 5 nested_example = Ok frame ->
        Limited.handle_request 0 4 (frame ++ rest) = Raise RecursionError).
Proof.
  assert (H5 : (levels nested_example <= 5)%nat) by (cbn; lia).
  assert (H4 : (4 < levels nested_example)%nat) by (cbn; lia).
  split; [reflexivity|]; split; [reflexivity|]; split; [exact H5|].
  split; [|split].
  - destruct (roundtrip_within_limits 0 nested_example 5 5 eq_refl eq_refl)
      as [H _].
    exact (H H5 H5).
  - destruct (roundtrip_within_limits 0 nested_example 4 5 eq_refl eq_refl)
      as [_ [H _]].
    exact (H H4).
  - destruct (roundtrip_within_limits 0 nested_example 5 4 eq_refl eq_refl)
      as [_ [_ H]].
    exact (H H4).
Defined.

(** C2: ten bytes are declared, three follow; with room for a thousand bytes
    one byte is returned, with room for five [read] raises [MemoryError]. *)
Lemma truncated_bulk_string_witness :
  read_text_line (B "10" ++ CRLF ++ B "abc") = Ok (T "10", B "abc")
  /\ Limited.py_int (T "10") = Ok 10
  /\ Z.of_nat (length (B "abc")) < 10
  /\ Limited.handle_request 1000 1 ("$"%char :: B "10" ++ CRLF ++ B "abc")
     = Ok (VBytes (B "a"), [])
  /\ Limited.handle_request 5 1 ("$"%char :: B "10" ++ CRLF ++ B "abc")
     = Raise MemoryError.
Proof.
  assert (Hb : 10 + 2 <= Limited.bytes_max) by (rewrite bytes_max_value; lia).
  split; [reflexivity|]; split; [reflexivity|]; split; [reflexivity|]; split.
  - destruct (truncated_bulk_string 1000 0 (B "10" ++ CRLF ++ B "abc") (B "abc")
                (T "10") 10 eq_refl eq_refl eq_refl) as [H _].
    apply H; [exact Hb | lia].
  - destruct (truncated_bulk_string 5 0 (B "10" ++ CRLF ++ B "abc") (B "abc")
                (T "10") 10 eq_refl eq_refl eq_refl) as [_ [_ H]].
    apply H; [exact Hb | lia].
Defined.

(** X5: the declared length -3. *)
Lemma negative_bulk_length_witness :
  -3 < 0
  /\ 0 <= 1000
  /\ Limited.handle_request 1000 1 (B "$-3" ++ CRLF ++ B "abcd")
     = Ok (VBytes (B "ab"), []).
Proof.
  assert (H : 0 <= 1000) by lia.
  split; [reflexivity|]; split; [exact H|].
  exact (negative_bulk_length 1000 0 (-3) (B "abcd") eq_refl H).
Defined.

(** X6: an array of an integer and a text, read with room for one nested
    call and with room for none. *)
Lemma array_of_frames_witness :
  Forall2 (frame_at 0 1) [VInt 1; VStr (T "a")] [int_frame 1; simple_frame (T "a")]
  /\ fits 2 = true
  /\ Limited.handle_request 0 2 (B "*2" ++ CRLF ++ B ":1" ++ CRLF ++ B "+a" ++ CRLF
                                 ++ B "+z")
     = Ok (VList [VInt 1; VStr (T "a")], B "+z")
  /\ Limited.handle_request 0 1 (B "*2" ++ CRLF ++ B ":1" ++ CRLF ++ B "+a" ++ CRLF
                                 ++ B "+z")
     = Raise RecursionError.
Proof.
  assert (H : Forall2 (frame_at 0 1) [VInt 1; VStr (T "a")]
                      [int_frame 1; simple_frame (T "a")]).
  { constructor; [now apply frame_at_int|].
    constructor; [now apply frame_at_simple | constructor]. }
  destruct (array_of_frames 0 1 _ _ H eq_refl) as [H1 H2].
  split; [exact H|]; split; [reflexivity|]; split.
  - exact (H1 (B "+z")).
  - apply (H2 ltac:(discriminate) (B "+z")).
Defined.

(** X7: the count -5. *)
Lemma empty_array_and_map_witness :
  -5 <= 0
  /\ Limited.handle_request 0 1 (B "*-5" ++ CRLF ++ B "+z") = Ok (VList [], B "+z")
  /\ Limited.handle_request 0 1 (B "%-5" ++ CRLF ++ B "+z") = Ok (VDict [], B "+z").
Proof.
  assert (H : -5 <= 0) by lia.
  split; [exact H|].
  exact (empty_array_and_map 0 0 (-5) (B "+z") H).
Defined.

(** X8: two elements are announced, one follows. *)
Lemma truncated_array_witness :
  Limited.read_depth small_limits = 2%nat
  /\ Forall2 (frame_at 1000 1) [VInt 1] [int_frame 1]
  /\ Z.of_nat (length [VInt 1]) < 2
  /\ fits 2 = true
  /\ Limited.handle_request 1000 2 (B "*2" ++ CRLF ++ B ":1" ++ CRLF) = Raise Disconnect
  /\ Limited.session small_limits (B "*2" ++ CRLF ++ B ":1" ++ CRLF) []
     = (Closed, [], []).
Proof.
  assert (H : Forall2 (frame_at 1000 1) [VInt 1] [int_frame 1]).
  { constructor; [now apply frame_at_int | constructor]. }
  split; [reflexivity|]; split; [exact H|]; split; [reflexivity|].
  split; [reflexivity|].
  exact (truncated_array small_limits 0 [VInt 1] [int_frame 1] 2 [] eq_refl H
                         eq_refl eq_refl).
Defined.

(** X9: the key 1 twice; it is bound to the later value. *)
Lemma map_frame_witness :
  Forall2 (frame_at 0 1) (entry_frames dup_pairs) dup_frames
  /\ fits (Z.of_nat (length dup_pairs)) = true
  /\ forallb hashable (map fst dup_pairs) = true
  /\ exists d,
       frame_at 0 2 (VDict d)
                ("%"%char :: int_line (Z.of_nat (length dup_pairs)) ++ concat dup_frames)
       /\ dict_wf d = true
       /\ forall k, dict_get k d = dict_get k (rev dup_pairs).
Proof.
  assert (H : Forall2 (frame_at 0 1) (entry_frames dup_pairs) dup_frames).
  { unfold dup_pairs, dup_frames; cbn [entry_frames flat_map fst snd app].
    repeat (constructor; [now apply frame_at_int|]); constructor. }
  split; [exact H|]; split; [reflexivity|]; split; [reflexivity|].
  destruct (map_frame 0 1 dup_pairs dup_frames H eq_refl) as [Hd _].
  exact (Hd eq_refl).
Defined.

(** X18: [get k] sent as bulk strings. *)
Lemma bulk_string_command_refused_witness :
  Limited.read_depth small_limits = 2%nat
  /\ (1 <= Limited.write_depth small_limits)%nat
  /\ fits (Z.of_nat (length (B "get"))) = true
  /\ readable (Limited.alloc_max small_limits) (Z.of_nat (length (B "get")) + 2) = true
  /\ Forall2 (frame_at 1000 1) [VBytes (B "k")] [bulk_frame (B "k")]
  /\ fits 2 = true
  /\ Limited.session small_limits (array_frame bulk_get_k ++ []) []
     = after_reply (error_reply (unknown_command (T "b'GET'")))
                   (Limited.session small_limits [] []).
Proof.
  assert (H : Forall2 (frame_at 1000 1) [VBytes (B "k")] [bulk_frame (B "k")]).
  { constructor; [now apply frame_at_bulk | constructor]. }
  assert (Hw : (1 <= Limited.write_depth small_limits)%nat) by (cbn; lia).
  split; [reflexivity|]; split; [exact Hw|]; split; [reflexivity|].
  split; [reflexivity|]; split; [exact H|]; split; [reflexivity|].
  exact (bulk_string_command_refused small_limits 0 (B "get") [VBytes (B "k")]
                                     [bulk_frame (B "k")] [] [] eq_refl Hw eq_refl
                                     eq_refl H eq_refl).
Defined.

(** X19: [set k 5] and then [Get k]. *)
Lemma set_then_get_witness :
  Limited.read_depth small_limits = 2%nat
  /\ line_text (T "set") /\ str_upper (T "set") = T "SET"
  /\ line_text (T "Get") /\ str_upper (T "Get") = T "GET"
  /\ line_text (T "k")
  /\ frame_at 1000 1 (VInt 5) (int_frame 5)
  /\ Limited.write_response 1 (VInt 5) = Ok (int_frame 5)
  /\ Limited.session small_limits (set_k_5 ++ get_k ++ []) []
     = after_reply (int_frame 1)
         (after_reply (int_frame 5)
            (Limited.session small_limits [] (dict_set (VStr (T "k")) (VInt 5) []))).
Proof.
  assert (H : frame_at 1000 1 (VInt 5) (int_frame 5)) by now apply frame_at_int.
  split; [reflexivity|].
  do 5 (split; [reflexivity|]).
  split; [exact H|]; split; [reflexivity|].
  exact (set_then_get small_limits 0 (T "set") (T "Get") (T "k") (VInt 5)
                      (int_frame 5) (int_frame 5) [] [] eq_refl eq_refl eq_refl
                      eq_refl eq_refl eq_refl H eq_refl).
Defined.
